(** * Redshift duplicate handling: checker and remover

    A shallow embedding of [Check_Duplicates.py] and [Remove_Duplicates.py].

    Both scripts drive a relational engine through SQL text.  The embedding
    therefore has three layers:

    - the relational operators denoted by the SQL the scripts send
      (grouping with HAVING, the two window functions, DELETE ... USING,
      ALTER TABLE ... DROP COLUMN, INSERT ... SELECT, DROP TABLE);
    - a session of the engine: a catalog of relations, explicit transaction
      blocks, statement errors, and an oracle that injects failures;
    - the Python control flow (try/except/finally, the loop over the
      configured sections, logging and notifications) in a small
      state-and-exception monad whose state records a trace of effects.

    Modelling conventions.  A table has a [dateCreated] column, the column
    configured as [unique_key] and further columns.  The values of the two
    named columns are integers (a date is a day number) or NULL: nothing in
    the scripts makes them NOT NULL.  GROUP BY and PARTITION BY put the
    NULLs of a column together, the comparison [=] of SQL is never true of
    a NULL, and ORDER BY sorts NULL after every integer (before it when
    descending), as the engine does.  A table is a list of rows in scan
    order.  Where SQL leaves an order open (ties of ROW_NUMBER, ties of
    ORDER BY) the scan order decides.

    The ini files are taken as ConfigParser delivers them: a file is the
    list of its sections with their options after interpolation.  Files
    the parser refuses (a repeated section, a line it cannot read, a value
    it cannot interpolate) are outside the model, and so is a mail
    transport that fails after it has accepted the message. *)

From Stdlib Require Import ZArith String List Lia.
From stdpp Require Import base decidable option list sorting gmap strings pretty.

Local Open Scope string_scope.
Local Open Scope Z_scope.

(* [++] is list append throughout; strings are joined with [+:+]. *)
#[local] Disable Notation "_ ++ _" : string_scope.

(** ** Rows and relations *)

(** The value of a column in a row: an integer, or NULL. *)
Definition value : Type := option Z.

Record Row := mkRow {
  dateCreated : value;
  ukey : value;
  others : list Z
}.

#[global] Instance Row_eq_dec : EqDecision Row.
Proof. solve_decision. Defined.

(** A row whose date and key are integers. *)
Definition row (d k : Z) (others : list Z) : Row := mkRow (Some d) (Some k) others.

(** A stored tuple: the values of the columns that stand in front of the
    base columns (none for an ordinary table, [total_duplicates] and
    [duplicate_rn] for a freshly staged side table), then the base row. *)
Definition tuple : Type := list Z * Row.

Record relation := mkRel {
  header : list string;
  tuples : list tuple
}.

#[global] Instance relation_eq_dec : EqDecision relation.
Proof. solve_decision. Defined.

Definition plain (rows : list Row) : relation :=
  {| header := []; tuples := map (pair []) rows |}.

Definition tdate (t : tuple) : value := dateCreated t.2.
Definition tkey (t : tuple) : value := ukey t.2.

(** [a = b] as SQL evaluates it in a WHERE clause: true only of two equal
    values that are not NULL. *)
Definition sql_eq (a b : value) : Prop := a = b ∧ a ≠ None.

#[global] Instance sql_eq_dec a b : Decision (sql_eq a b).
Proof. unfold sql_eq. apply _. Defined.

(** ORDER BY, ascending: NULL sorts after every integer. *)
Definition value_le (a b : value) : Prop :=
  match a, b with
  | _, None => True
  | None, Some _ => False
  | Some x, Some y => x ≤ y
  end.

Definition value_lt (a b : value) : Prop :=
  match a, b with
  | None, _ => False
  | Some _, None => True
  | Some x, Some y => x < y
  end.

#[global] Instance value_le_dec a b : Decision (value_le a b).
Proof. destruct a, b; simpl; apply _. Defined.

#[global] Instance value_lt_dec a b : Decision (value_lt a b).
Proof. destruct a, b; simpl; apply _. Defined.

(** ** The detection query

    SELECT dateCreated, unique_key, COUNT( * ) FROM t
    GROUP BY dateCreated, unique_key HAVING COUNT( * ) > 1
    ORDER BY dateCreated DESC *)

Definition group : Type := value * value * nat.
Definition gdate (g : group) : value := g.1.1.
Definition gkey (g : group) : value := g.1.2.
Definition gcount (g : group) : nat := g.2.

Definition count_pair (d k : value) (ts : list tuple) : nat :=
  length (filter (λ t, tdate t = d ∧ tkey t = k) ts).

Definition group_by (ts : list tuple) : list group :=
  map (λ p : value * value, (p.1, p.2, count_pair p.1 p.2 ts))
      (remove_dups (map (λ t, (tdate t, tkey t)) ts)).

Definition having_count_gt_1 (gs : list group) : list group :=
  filter (λ g, (1 < gcount g)%nat) gs.

Definition date_desc (g1 g2 : group) : Prop := value_le (gdate g2) (gdate g1).

#[global] Instance date_desc_dec : RelDecision date_desc.
Proof. intros g1 g2. unfold date_desc. apply _. Defined.

Definition order_by_date_desc (gs : list group) : list group :=
  merge_sort date_desc gs.

Definition select_duplicates (ts : list tuple) : list group :=
  order_by_date_desc (having_count_gt_1 (group_by ts)).

(** ** The staging query

    WITH duplicates_cte AS (
      SELECT COUNT( * ) OVER (PARTITION BY unique_key) AS total_duplicates,
             ROW_NUMBER() OVER (PARTITION BY unique_key ORDER BY dateCreated)
               AS duplicate_rn, *
      FROM t)
    SELECT * INTO t_duplicates FROM duplicates_cte
    WHERE total_duplicates > 1 AND duplicate_rn = 1 *)

Definition count_key (k : value) (ts : list tuple) : nat :=
  length (filter (λ t, tkey t = k) ts).

(** Row number of [t] in its partition, [before] and [after] being the
    tuples scanned before and after it: one more than the tuples of the
    partition that sort in front of it. *)
Definition row_number (before : list tuple) (t : tuple) (after : list tuple) : nat :=
  S (length (filter (λ x, tkey x = tkey t ∧ value_le (tdate x) (tdate t)) before)
     + length (filter (λ x, tkey x = tkey t ∧ value_lt (tdate x) (tdate t)) after)).

Fixpoint duplicates_cte_from (all before after : list tuple) : list tuple :=
  match after with
  | [] => []
  | t :: rest =>
      (Z.of_nat (count_key (tkey t) all)
         :: Z.of_nat (row_number before t rest) :: t.1, t.2)
      :: duplicates_cte_from all (before ++ [t]) rest
  end.

Definition duplicates_cte (ts : list tuple) : list tuple :=
  duplicates_cte_from ts [] ts.

Definition is_representative (t : tuple) : Prop :=
  match t.1 with
  | total :: rn :: _ => 1 < total ∧ rn = 1
  | _ => False
  end.

#[global] Instance is_representative_dec t : Decision (is_representative t).
Proof. unfold is_representative. destruct (t.1) as [|? [|? ?]]; apply _. Defined.

Definition staged (ts : list tuple) : list tuple :=
  filter is_representative (duplicates_cte ts).

(** [x] sorts strictly in front of the tuples of its partition in [l]. *)
Definition strictly_first (x : tuple) (l : list tuple) : Prop :=
  Forall (λ y, tkey y = tkey x → value_lt (tdate x) (tdate y)) l.

(** No tuple of the partition of [x] in [l] has an earlier date. *)
Definition earliest (x : tuple) (l : list tuple) : Prop :=
  Forall (λ y, tkey y = tkey x → value_le (tdate x) (tdate y)) l.

(** ** DELETE FROM t USING s WHERE s.unique_key = t.unique_key

    A row goes when the comparison is true of it and some row of the side
    table: a row whose key is NULL never goes. *)

Definition delete_using (ts side : list tuple) : list tuple :=
  filter (λ t, ¬ Exists (λ s, sql_eq (tkey s) (tkey t)) side) ts.

(** ** ALTER TABLE s DROP COLUMN c *)

Fixpoint index_of (c : string) (cs : list string) : option nat :=
  match cs with
  | [] => None
  | c' :: rest => if decide (c' = c) then Some O else S <$> index_of c rest
  end.

Definition drop_nth {A} (i : nat) (l : list A) : list A :=
  take i l ++ drop (S i) l.

Definition drop_column (i : nat) (r : relation) : relation :=
  {| header := drop_nth i (header r);
     tuples := map (λ t : tuple, (drop_nth i t.1, t.2)) (tuples r) |}.

(** A staged tuple once its two bookkeeping columns are dropped. *)
Definition unstage (s : tuple) : tuple := (drop 2 s.1, s.2).

(** The tuples of a table after the four steps: what the delete leaves,
    then the staged tuples without their bookkeeping columns. *)
Definition deduplicated (ts : list tuple) : list tuple :=
  delete_using ts (staged ts) ++ map unstage (staged ts).

(** The side table as step 1 creates it, and the main table after step 4. *)
Definition staged_relation (r : relation) : relation :=
  {| header := "total_duplicates" :: "duplicate_rn" :: header r;
     tuples := staged (tuples r) |}.

Definition deduplicated_relation (r : relation) : relation :=
  {| header := header r; tuples := deduplicated (tuples r) |}.


Example select_duplicates_ex :
  select_duplicates (tuples (plain
    [row 1 5 [10]; row 3 7 []; row 1 5 [11]; row 3 7 []; row 3 7 [];
     row 2 5 []]))
  = [(Some 3, Some 7, 3%nat); (Some 1, Some 5, 2%nat)].
Proof. vm_compute. reflexivity. Qed.

Example staged_ex :
  staged (tuples (plain
    [row 2 5 [10]; row 3 7 []; row 1 5 [11]; row 1 5 [12]; row 4 9 []]))
  = [([3; 1], row 1 5 [11])].
Proof. vm_compute. reflexivity. Qed.

(** ** The engine: statements, catalog, transaction blocks *)

Inductive stmt :=
| BEGIN
| COMMIT
| ROLLBACK
| SELECT_DUPLICATES (unique_key db_table : string)
| SELECT_INTO_DUPLICATES (unique_key db_table side : string)
| DELETE_USING (db_table side unique_key : string)
| ALTER_TABLE_DROP_COLUMN (side column : string)
| INSERT_INTO_SELECT (db_table side : string)
| DROP_TABLE (side : string).

#[global] Instance stmt_eq_dec : EqDecision stmt.
Proof. solve_decision. Defined.

Inductive db_error :=
| UndefinedTable (t : string)
| DuplicateTable (t : string)
| UndefinedColumn (c : string)
| DuplicateColumn (c : string)
| ColumnCountMismatch
| InFailedTransaction
| Injected.

#[global] Instance db_error_eq_dec : EqDecision db_error.
Proof. solve_decision. Defined.

Abbreviation catalog := (gmap string relation).

(** What a data statement does to the catalog, and the rows it returns.
    The column named by [unique_key] is the [ukey] field of the rows. *)
Definition run_stmt (s : stmt) (c : catalog) : db_error + catalog * list group :=
  match s with
  | BEGIN | COMMIT | ROLLBACK => inr (c, [])
  | SELECT_DUPLICATES _ t =>
      match c !! t with
      | Some r => inr (c, select_duplicates (tuples r))
      | None => inl (UndefinedTable t)
      end
  | SELECT_INTO_DUPLICATES _ t side =>
      match c !! t with
      | None => inl (UndefinedTable t)
      | Some r =>
          if decide ("total_duplicates" ∈ header r) then inl (DuplicateColumn "total_duplicates")
          else if decide ("duplicate_rn" ∈ header r) then inl (DuplicateColumn "duplicate_rn")
          else match c !! side with
               | Some _ => inl (DuplicateTable side)
               | None =>
                   inr (<[side := {| header := "total_duplicates" :: "duplicate_rn" :: header r;
                                     tuples := staged (tuples r) |}]> c, [])
               end
      end
  | DELETE_USING t side _ =>
      match c !! t, c !! side with
      | None, _ => inl (UndefinedTable t)
      | _, None => inl (UndefinedTable side)
      | Some r, Some d =>
          inr (<[t := {| header := header r;
                         tuples := delete_using (tuples r) (tuples d) |}]> c, [])
      end
  | ALTER_TABLE_DROP_COLUMN side col =>
      match c !! side with
      | None => inl (UndefinedTable side)
      | Some d =>
          match index_of col (header d) with
          | None => inl (UndefinedColumn col)
          | Some i => inr (<[side := drop_column i d]> c, [])
          end
      end
  | INSERT_INTO_SELECT t side =>
      match c !! t, c !! side with
      | None, _ => inl (UndefinedTable t)
      | _, None => inl (UndefinedTable side)
      | Some r, Some d =>
          if decide (length (header r) = length (header d))
          then inr (<[t := {| header := header r; tuples := tuples r ++ tuples d |}]> c, [])
          else inl ColumnCountMismatch
      end
  | DROP_TABLE side =>
      match c !! side with
      | None => inl (UndefinedTable side)
      | Some _ => inr (delete side c, [])
      end
  end.

(** The transaction status of the session.  A block keeps the catalog as
    it was at BEGIN; an error inside a block leaves the session failed
    until ROLLBACK (or COMMIT, which then rolls back). *)
Inductive txn_state :=
| Idle
| InBlock (snapshot : catalog)
| Failed (snapshot : catalog).

Record session := mkSession {
  cat : catalog;
  txn : txn_state
}.

(** The catalog that survives if the session ends now. *)
Definition durable (σ : session) : catalog :=
  match txn σ with
  | Idle => cat σ
  | InBlock snap | Failed snap => snap
  end.

Definition fail_stmt (e : db_error) (σ : session) : session * (db_error + list group) :=
  match txn σ with
  | InBlock snap => ({| cat := cat σ; txn := Failed snap |}, inl e)
  | _ => (σ, inl e)
  end.

Definition exec_stmt (fault : bool) (s : stmt) (σ : session)
  : session * (db_error + list group) :=
  if fault then fail_stmt Injected σ
  else match txn σ, s with
       | Failed snap, (ROLLBACK | COMMIT) => ({| cat := snap; txn := Idle |}, inr [])
       | Failed _, _ => (σ, inl InFailedTransaction)
       | Idle, BEGIN => ({| cat := cat σ; txn := InBlock (cat σ) |}, inr [])
       | Idle, (ROLLBACK | COMMIT) => (σ, inr [])
       | InBlock _, BEGIN => (σ, inr [])
       | InBlock _, COMMIT => ({| cat := cat σ; txn := Idle |}, inr [])
       | InBlock snap, ROLLBACK => ({| cat := snap; txn := Idle |}, inr [])
       | _, _ =>
           match run_stmt s (cat σ) with
           | inl e => fail_stmt e σ
           | inr (c, res) => ({| cat := c; txn := txn σ |}, inr res)
           end
       end.

(** A string of statements sent in one call: they run in order and stop
    at the first error; the call yields the rows of the last statement.
    [fault = Some i] makes statement [i] of the call fail. *)
Fixpoint exec_script (fault : option nat) (ss : list stmt) (last : list group)
    (σ : session) : session * (db_error + list group) :=
  match ss with
  | [] => (σ, inr last)
  | s :: rest =>
      match exec_stmt (bool_decide (fault = Some O)) s σ with
      | (σ', inl e) => (σ', inl e)
      | (σ', inr res) =>
          exec_script (match fault with Some (S n) => Some n | _ => None end) rest res σ'
      end
  end.

(** The statements between BEGIN and COMMIT of a block, run on a catalog. *)
Definition is_data (s : stmt) : Prop :=
  match s with
  | BEGIN | COMMIT | ROLLBACK => False
  | _ => True
  end.

Fixpoint run_block (body : list stmt) (c : catalog) : db_error + catalog :=
  match body with
  | [] => inr c
  | s :: rest =>
      match run_stmt s c with
      | inl e => inl e
      | inr (c', _) => run_block rest c'
      end
  end.

(** The injected failure [f] does not hit the first [n] statements. *)
Definition no_hit (f : option nat) (n : nat) : Prop :=
  match f with
  | None => True
  | Some i => (n ≤ i)%nat
  end.

Definition shift (f : option nat) : option nat :=
  match f with
  | Some (S n) => Some n
  | _ => None
  end.

(** No failure is injected into the [n] calls that follow call [from]. *)
Definition quiet (faults : nat → list stmt → option nat) (from n : nat) : Prop :=
  ∀ i script, (i < n)%nat → faults (from + i)%nat script = None.

(** A table that has no column named like the bookkeeping columns. *)
Definition ordinary (r : relation) : Prop :=
  ("total_duplicates" ∉ header r) ∧ ("duplicate_rn" ∉ header r).

(** ** The Python side: exceptions, effects, environment *)

Inductive exn :=
| KeyError (key : string)
| Exception (msg : string)
| DatabaseError (e : db_error)
| OperationalError (msg : string)
| SMTPException (msg : string).

Definition db_error_str (e : db_error) : string :=
  match e with
  | UndefinedTable t => "relation " +:+ t +:+ " does not exist"
  | DuplicateTable t => "relation " +:+ t +:+ " already exists"
  | UndefinedColumn c => "column " +:+ c +:+ " does not exist"
  | DuplicateColumn c => "column " +:+ c +:+ " specified more than once"
  | ColumnCountMismatch => "INSERT has more expressions than target columns"
  | InFailedTransaction => "current transaction is aborted"
  | Injected => "server error"
  end.

Definition str (e : exn) : string :=
  match e with
  | KeyError k => "'" +:+ k +:+ "'"
  | Exception m | OperationalError m | SMTPException m => m
  | DatabaseError e => db_error_str e
  end.

(** The effects a run leaves behind, most recent first. *)
Inductive event :=
| Connect
| Close
| ConnCommit
| ConnRollback
| Execute (call : nat) (script : list stmt) (outcome : option db_error)
| Log (msg : string)
| Print (msg : string)
| Email (subject body : string)
| Slack (text : string) (status : nat).

#[global] Instance exn_eq_dec : EqDecision exn.
Proof. solve_decision. Defined.

#[global] Instance event_eq_dec : EqDecision event.
Proof. solve_decision. Defined.

(** An ini file: its sections in file order, each with its options. *)
Definition ini : Type := list (string * gmap string string).

Record env := mkEnv {
  files : gmap string ini;
  faults : nat → list stmt → option nat;  (* call number, script ↦ failing statement *)
  connect_ok : bool;
  smtp_ok : bool;
  webhook : option nat;                  (* HTTP status of the chat webhook, None: no answer *)
  now : string
}.

Record state := mkState {
  db : session;
  autocommit : bool;
  conn : bool;          (* the variable [conn]: a connection, or None *)
  calls : nat;          (* number of cur.execute calls so far *)
  trace : list event
}.

Definition M (A : Type) : Type := state → (exn + A) * state.

#[global] Instance M_ret : MRet M := λ A a st, (inr a, st).
#[global] Instance M_bind : MBind M := λ A B f m st,
  match m st with
  | (inr a, st') => f a st'
  | (inl e, st') => (inl e, st')
  end.

Definition raise {A} (e : exn) : M A := λ st, (inl e, st).

Definition try_except {A} (body : M A) (handler : exn → M A) : M A := λ st,
  match body st with
  | (inl e, st') => handler e st'
  | ok => ok
  end.

Definition try_finally {A} (body : M A) (final : M unit) : M A := λ st,
  match body st with
  | (r, st') =>
      match final st' with
      | (inl e, st'') => (inl e, st'')
      | (inr _, st'') => (r, st'')
      end
  end.

Fixpoint for_each {A} (xs : list A) (body : A → M unit) : M unit :=
  match xs with
  | [] => mret tt
  | x :: rest => body x ≫= λ _, for_each rest body
  end.

Definition add_events (evs : list event) (st : state) : state :=
  {| db := db st; autocommit := autocommit st; conn := conn st;
     calls := calls st; trace := evs ++ trace st |}.

Definition emit (e : event) : M unit := λ st, (inr tt, add_events [e] st).

Definition log_to_file (message : string) : M unit := emit (Log message).
Definition print (message : string) : M unit := emit (Print message).

Definition assign_conn (c : bool) : M unit := λ st,
  (inr tt, {| db := db st; autocommit := autocommit st; conn := c;
              calls := calls st; trace := trace st |}).

Definition read_conn : M bool := λ st, (inr (conn st), st).

Definition getitem (d : gmap string string) (key : string) : M string :=
  match d !! key with
  | Some v => mret v
  | None => raise (KeyError key)
  end.

(** The options of the first section of that name, if there is one. *)
Definition section_options (parser : ini) (section : string) : option (gmap string string) :=
  (λ found : nat * (string * gmap string string), found.2.2)
    <$> list_find (λ s, s.1 = section) parser.

Section Program.

Context (E : env).

Definition read_ini (filename : string) : ini := default [] (files E !! filename).

Definition sections (parser : ini) : list string := map fst parser.

(** server_config *)
Definition server_config (filename section : string) : M (gmap string string) :=
  match section_options (read_ini filename) section with
  | Some config => mret config
  | None => raise (Exception ("Section " +:+ section +:+ " not found in the "
                               +:+ filename +:+ " file"))
  end.

(** The SMTP conversation of send_email: the options are read where the
    source reads them, the transport may be down. *)
Definition smtp_conversation (email_config : gmap string string)
    (subject body : string) : M unit :=
  _ ← getitem email_config "smtp_host";
  _ ← getitem email_config "smtp_port";
  _ ← (if smtp_ok E then mret tt else raise (SMTPException "connection refused"));
  _ ← getitem email_config "smtp_username";
  _ ← getitem email_config "smtp_password";
  _ ← getitem email_config "sender_email";
  _ ← getitem email_config "receiver_email";
  emit (Email subject body).

(** cur.execute followed by cur.fetchall: the call yields the rows of the
    last statement.  Without autocommit the driver opens a block first. *)
Definition executed (script : list stmt) (outcome : option db_error) (σ : session)
    (st : state) : state :=
  {| db := σ; autocommit := autocommit st; conn := conn st;
     calls := S (calls st); trace := Execute (calls st) script outcome :: trace st |}.

Definition cur_execute (script : list stmt) : M (list group) := λ st,
  let σ0 := if autocommit st then db st
            else (exec_stmt false BEGIN (db st)).1 in
  match exec_script (faults E (calls st) script) script [] σ0 with
  | (σ, inl e) => (inl (DatabaseError e), executed script (Some e) σ st)
  | (σ, inr rows) => (inr rows, executed script None σ st)
  end.

(** pg.connect: a fresh session on the server. *)
Definition pg_connect : M unit := λ st,
  if connect_ok E then
    (inr tt, {| db := {| cat := durable (db st); txn := Idle |}; autocommit := false;
                conn := true; calls := calls st; trace := Connect :: trace st |})
  else (inl (OperationalError "could not connect to server"), st).

Definition set_autocommit (b : bool) : M unit := λ st,
  (inr tt, {| db := db st; autocommit := b; conn := conn st;
              calls := calls st; trace := trace st |}).

(** conn.close(): an open block is rolled back by the server. *)
Definition conn_close : M unit := λ st,
  (inr tt, {| db := {| cat := durable (db st); txn := Idle |}; autocommit := autocommit st;
              conn := conn st; calls := calls st; trace := Close :: trace st |}).

End Program.

(** ** Remove_Duplicates.py *)

Module Remove_Duplicates.
Section Remover.

Context (E : env).

(** send_email: every failure is caught and logged. *)
Definition send_email (subject body : string) : M unit :=
  try_except
    (email_config ← server_config E "r_emailConfig.ini" "email_config";
     smtp_conversation E email_config subject body)
    (λ email_error, log_to_file ("Failed to send email: " +:+ str email_error)).

Definition duplicate_check_query (unique_key db_table : string) : list stmt :=
  [SELECT_DUPLICATES unique_key db_table].

(** check_for_duplicates: the rows found, or None after an error. *)
Definition check_for_duplicates (db_table unique_key : string) : M (option (list group)) :=
  try_except
    (duplicate_keys ← cur_execute E (duplicate_check_query unique_key db_table);
     mret (Some duplicate_keys))
    (λ e,
     _ ← log_to_file ("Error checking duplicates in " +:+ db_table +:+ ": " +:+ str e);
     _ ← send_email "Error Checking Duplicates"
           ("Error checking duplicates in " +:+ db_table +:+ ": " +:+ str e);
     mret None).

Definition side_table (db_table : string) : string := db_table +:+ "_duplicates".

Definition step1_sql (db_table unique_key : string) : list stmt :=
  [BEGIN; SELECT_INTO_DUPLICATES unique_key db_table (side_table db_table); COMMIT].

Definition step2_sql (db_table unique_key : string) : list stmt :=
  [BEGIN; DELETE_USING db_table (side_table db_table) unique_key; COMMIT].

Definition step3_sql (db_table : string) : list stmt :=
  [BEGIN;
   ALTER_TABLE_DROP_COLUMN (side_table db_table) "total_duplicates";
   ALTER_TABLE_DROP_COLUMN (side_table db_table) "duplicate_rn";
   INSERT_INTO_SELECT db_table (side_table db_table);
   COMMIT].

Definition step4_sql (db_table : string) : list stmt :=
  [BEGIN; DROP_TABLE (side_table db_table); COMMIT].

(** remove_duplicates_from_table: its try block, its except block. *)
Definition remove_steps (db_table unique_key : string) : M unit :=
  _ ← cur_execute E (step1_sql db_table unique_key);
  _ ← log_to_file ("Step 1: Duplicates inserted into temporary table for "
                     +:+ db_table +:+ ".");
  _ ← cur_execute E (step2_sql db_table unique_key);
  _ ← log_to_file ("Step 2: Duplicates removed from " +:+ db_table +:+ ".");
  _ ← cur_execute E (step3_sql db_table);
  _ ← log_to_file ("Step 3: Non-duplicate rows inserted back into " +:+ db_table +:+ ".");
  _ ← cur_execute E (step4_sql db_table);
  _ ← log_to_file ("Step 4: Temporary table " +:+ side_table db_table +:+ " dropped.");
  send_email ("Duplicate Removal Notification for " +:+ db_table)
             ("Duplicates have been successfully removed from " +:+ db_table +:+ ".").

Definition remove_failed (db_table : string) (e : exn) : M unit :=
  _ ← log_to_file ("Error processing steps for " +:+ db_table +:+ ": " +:+ str e);
  _ ← send_email "Error Removing Duplicates"
        ("Error processing steps for " +:+ db_table +:+ ": " +:+ str e);
  _ ← cur_execute E [ROLLBACK];
  log_to_file "Transaction rolled back due to error.".

Definition remove_duplicates_from_table (db_table unique_key : string) : M unit :=
  try_except (remove_steps db_table unique_key) (remove_failed db_table).

(** The body of the loop over the sections of r_duplicates.ini: first the
    options of the section, then the work on its table. *)
Definition process_table (db_table unique_key : string) : M unit :=
  _ ← log_to_file ("Checking for duplicates in " +:+ db_table +:+ "...");
  duplicate_keys ← check_for_duplicates db_table unique_key;
  match duplicate_keys with
  | Some (_ :: _) =>
      _ ← print ("Duplicates found in " +:+ db_table +:+ ". Processing...");
      _ ← log_to_file ("Duplicates found in " +:+ db_table +:+ ". Processing...");
      remove_duplicates_from_table db_table unique_key
  | _ =>
      _ ← print ("No duplicates found in " +:+ db_table +:+ ". Skipping...");
      log_to_file ("No duplicates found in " +:+ db_table +:+ ". Skipping...")
  end.

Definition process_section (section : string) : M unit :=
  if String.prefix "yoda_hub" section then
    table_config ← server_config E "r_duplicates.ini" section;
    table_name ← getitem table_config "table";
    unique_key ← getitem table_config "unique_key";
    database ← getitem table_config "database";
    process_table (database +:+ "." +:+ table_name) unique_key
  else mret tt.

Definition remove_duplicates : M unit :=
  let parser := read_ini E "r_duplicates.ini" in
  config ← server_config E "r_duplicates.ini" "yoda_r_lake";
  _ ← assign_conn false;
  try_finally
    (try_except
       (host ← getitem config "host";
        database ← getitem config "database";
        let log_message := "Connecting to " +:+ host +:+ " database " +:+ database +:+ "..." in
        _ ← log_to_file log_message;
        _ ← print log_message;
        _ ← pg_connect E;
        _ ← set_autocommit true;
        for_each (sections parser) process_section)
       (λ e,
        _ ← log_to_file ("Failed to process: " +:+ str e);
        _ ← send_email "Error in Duplicate Removal Process" ("Failed to process: " +:+ str e);
        print ("Failed to process: " +:+ str e)))
    (c ← read_conn;
     _ ← (if c : bool then conn_close else mret tt);
     print "Connection closed.").

End Remover.
End Remove_Duplicates.

(** ** Check_Duplicates.py *)

Definition nl : string := String (Ascii.ascii_of_nat 10) "".

(** [s] occurs in [t]. *)
Definition contains (s t : string) : Prop := ∃ a b, t = a +:+ s +:+ b.

Fixpoint is_infix (s t : string) : bool :=
  String.prefix s t ||
  match t with
  | EmptyString => false
  | String _ t' => is_infix s t'
  end.

Module Check_Duplicates.

(** The dict [grouped_duplicates]: duplicate count ↦ keys, in insertion order. *)
Fixpoint setdefault_append (count : nat) (key : value) (d : list (nat * list value))
  : list (nat * list value) :=
  match d with
  | [] => [(count, [key])]
  | (c, keys) :: rest =>
      if decide (c = count) then (c, keys ++ [key]) :: rest
      else (c, keys) :: setdefault_append count key rest
  end.

Definition group_duplicates (duplicate_results : list group) : list (nat * list value) :=
  fold_left (λ d row, setdefault_append (gcount row) (gkey row) d) duplicate_results [].

Definition summary_line (rows duplicate_count : nat) : string :=
  pretty rows +:+ " row(s) affected: with " +:+ pretty duplicate_count
    +:+ " duplicates per row" +:+ nl.

Definition affected_line (item : nat * list value) : string :=
  summary_line (length item.2) item.1.

Definition duplicate_info (database_name table_name : string)
    (grouped_duplicates : list (nat * list value)) : string :=
  fold_left (λ output item, output +:+ affected_line item) grouped_duplicates
    (nl +:+ "Duplicates found in " +:+ database_name +:+ "." +:+ table_name +:+ ":" +:+ nl).

Definition alert_text (now host_name replication_task database_name table_name unique_key : string)
    (total_rows : nat) : string :=
  "Duplicate(s) found in " +:+ database_name +:+ "." +:+ table_name +:+ " at " +:+ now
    +:+ "." +:+ nl +:+ nl
    +:+ "DETAILS:" +:+ nl
    +:+ "Source Host: " +:+ host_name +:+ nl
    +:+ "Source Replication Task: " +:+ replication_task +:+ nl
    +:+ "Source Database: " +:+ database_name +:+ nl
    +:+ "Source Table: " +:+ table_name +:+ nl
    +:+ "Source Column: " +:+ unique_key +:+ nl +:+ nl
    +:+ "Total number of rows = " +:+ pretty total_rows +:+ nl +:+ nl.

Definition slack_text (database_name table_name output_text : string) : string :=
  "Alert: Duplicates found in " +:+ database_name +:+ "." +:+ table_name +:+ ":" +:+ nl
    +:+ output_text.

Section Checker.

Context (E : env).

Definition send_email (subject body : string) (email_config : gmap string string) : M unit :=
  try_except
    (_ ← smtp_conversation E email_config subject body;
     print ("Email sent at " +:+ now E +:+ nl))
    (λ e, log_to_file ("Failed to send email: " +:+ str e)).

Definition send_slack_alert (message slack_webhook_url : string) : M unit :=
  try_except
    (match webhook E with
     | None => raise (OperationalError "connection error")
     | Some status_code =>
         _ ← emit (Slack message status_code);
         if decide (status_code ≠ 200%nat)
         then log_to_file "Failed to send Slack alert: response text"
         else print "Slack alert sent successfully."
     end)
    (λ e, log_to_file ("Error sending Slack alert: " +:+ str e)).

Definition get_table_config (section : string) : M (gmap string string) :=
  server_config E "/r_duplicates.ini" section.

Definition print_duplicate_info (database_name table_name : string)
    (grouped_duplicates : list (nat * list value)) : M string :=
  let output := duplicate_info database_name table_name grouped_duplicates in
  _ ← print output;
  mret output.

(** The body of the loop over the sections of /r_duplicates.ini: first the
    options of the section, then the query and the report on its table. *)
Definition report_table (email_config : gmap string string)
    (slack_webhook_url unique_key database_name table_name host_name replication_task : string)
  : M unit :=
  duplicate_results ←
    cur_execute E [SELECT_DUPLICATES unique_key (database_name +:+ "." +:+ table_name)];
  match duplicate_results with
  | _ :: _ =>
      let total_rows := length duplicate_results in
      let grouped_duplicates := group_duplicates duplicate_results in
      let subject := "Duplicate(s) found in " +:+ database_name +:+ "." +:+ table_name
                       +:+ " at " +:+ now E in
      let text := alert_text (now E) host_name replication_task database_name table_name
                    unique_key total_rows in
      output_text ← print_duplicate_info database_name table_name grouped_duplicates;
      _ ← send_email subject (text +:+ output_text) email_config;
      send_slack_alert (slack_text database_name table_name output_text) slack_webhook_url
  | [] =>
      print ("No duplicate found in " +:+ database_name +:+ "." +:+ table_name
               +:+ " at " +:+ now E)
  end.

Definition process_section (email_config : gmap string string)
    (slack_webhook_url section : string) : M unit :=
  if String.prefix "yoda_hub" section then
    table_config ← get_table_config section;
    unique_key ← getitem table_config "unique_key";
    database_name ← getitem table_config "database";
    table_name ← getitem table_config "table";
    host_name ← getitem table_config "host";
    replication_task ← getitem table_config "replication_task";
    report_table email_config slack_webhook_url unique_key database_name table_name
      host_name replication_task
  else mret tt.

(** with pg.connect(...) as conn: the block commits on a normal exit and
    rolls back on an exception; the connection itself stays open. *)
Definition end_block (s : stmt) (e : event) : M unit := λ st,
  (inr tt, {| db := (exec_stmt false s (db st)).1; autocommit := autocommit st;
              conn := conn st; calls := calls st; trace := e :: trace st |}).

Definition with_connection (body : M unit) : M unit :=
  _ ← pg_connect E;
  try_except
    (_ ← body; end_block COMMIT ConnCommit)
    (λ e, _ ← end_block ROLLBACK ConnRollback; raise e).

Definition get_duplicates_and_alert : M unit :=
  let parser := read_ini E "/r_duplicates.ini" in
  email_config ← server_config E "/r_emailConfig.ini" "email_config";
  slack_webhook_url ← getitem email_config "slack_webhook_url";
  try_except
    (config ← server_config E "/r_duplicates.ini" "yoda_r_lake";
     with_connection
       (for_each (sections parser) (process_section email_config slack_webhook_url)))
    (λ err, log_to_file ("Fetching duplicates from Redshift failed with error: " +:+ str err)).

End Checker.
End Check_Duplicates.

(** [st'] comes after [st] on the same connection: the connection
    settings are kept and the trace has only grown. *)
Definition continues (st st' : state) : Prop :=
  autocommit st' = autocommit st ∧ conn st' = conn st ∧
  ∃ evs, trace st' = evs ++ trace st.

(** The table and the key column a section of r_duplicates.ini makes the
    remover work on. *)
Definition remover_target (E : env) (section : string) : option (string * string) :=
  config ← section_options (read_ini E "r_duplicates.ini") section;
  table_name ← config !! "table";
  unique_key ← config !! "unique_key";
  database ← config !! "database";
  Some (database +:+ "." +:+ table_name, unique_key).

(** The options of a section of /r_duplicates.ini as the checker reads them:
    unique_key, database, table, host, replication_task. *)
Definition checker_target (E : env) (section : string)
  : option (string * string * string * string * string) :=
  config ← section_options (read_ini E "/r_duplicates.ini") section;
  unique_key ← config !! "unique_key";
  database_name ← config !! "database";
  table_name ← config !! "table";
  host_name ← config !! "host";
  replication_task ← config !! "replication_task";
  Some (unique_key, database_name, table_name, host_name, replication_task).

(** The mail transport answers and the options of the conversation exist. *)
Definition smtp_ready (E : env) (email_config : gmap string string) : Prop :=
  smtp_ok E = true ∧
  Forall (λ key, is_Some (email_config !! key))
    ["smtp_host"; "smtp_port"; "smtp_username"; "smtp_password";
     "sender_email"; "receiver_email"].

(** Every table the sections make the remover work on can go through the
    four steps and comes out without duplicates: its side-table name is
    free, it is an ordinary table, and at most one of its rows has a NULL
    key. *)
Definition removable (E : env) (secs : list string) (c : catalog) : Prop :=
  ∀ s t k, s ∈ secs → String.prefix "yoda_hub" s = true →
           remover_target E s = Some (t, k) →
           c !! (t +:+ "_duplicates") = None ∧
           ∀ r, c !! t = Some r → ordinary r ∧ (count_key None (tuples r) ≤ 1)%nat.

(** The detection query finds nothing in table [t]. *)
Definition clean (c : catalog) (t : string) : Prop :=
  ∀ r, c !! t = Some r → select_duplicates (tuples r) = [].

Definition is_execute (e : event) : Prop :=
  match e with
  | Execute _ _ _ => True
  | _ => False
  end.

#[global] Instance is_execute_dec e : Decision (is_execute e).
Proof. destruct e; apply _. Defined.

Definition is_alert (e : event) : Prop :=
  match e with
  | Email _ _ | Slack _ _ => True
  | _ => False
  end.

#[global] Instance is_alert_dec e : Decision (is_alert e).
Proof. destruct e; apply _. Defined.

(** An event of the work on the tables: anything but the opening, the
    closing and the end of the block of a connection. *)
Definition table_event (ev : event) : Prop :=
  match ev with
  | Connect | Close | ConnCommit | ConnRollback => False
  | _ => True
  end.

#[global] Instance table_event_dec ev : Decision (table_event ev).
Proof. destruct ev; apply _. Defined.

(** [m] works on the connection it is given: it keeps the connection and
    its settings, and adds table events only. *)
Definition on_connection {A} (m : M A) : Prop :=
  ∀ st, autocommit (m st).2 = autocommit st ∧ conn (m st).2 = conn st ∧
        ∃ evs, trace (m st).2 = evs ++ trace st ∧ Forall table_event evs.

(** ** A sample installation

    One configured table, sales.orders with key order_id, as in the
    scenario of the design notes. *)

Module Sample.

Definition lake : gmap string string :=
  list_to_map [("host", "lake-host"); ("database", "lake")].

Definition orders : gmap string string :=
  list_to_map [("database", "sales"); ("table", "orders"); ("unique_key", "order_id");
               ("host", "src-host"); ("replication_task", "task-7")].

Definition customers : gmap string string :=
  list_to_map [("database", "sales"); ("table", "customers"); ("unique_key", "customer_id");
               ("host", "src-host"); ("replication_task", "task-8")].

Definition email_config : gmap string string :=
  list_to_map [("smtp_host", "mail"); ("smtp_port", "465"); ("smtp_username", "u");
               ("smtp_password", "p"); ("sender_email", "a@x"); ("receiver_email", "b@x");
               ("slack_webhook_url", "hook")].

Definition duplicates_ini : ini :=
  [("yoda_r_lake", lake); ("yoda_hub_orders", orders); ("yoda_hub_customers", customers)].

Definition installation (faults : nat → list stmt → option nat) : env :=
  {| files := list_to_map [("r_duplicates.ini", duplicates_ini);
                           ("/r_duplicates.ini", duplicates_ini);
                           ("r_emailConfig.ini", [("email_config", email_config)]);
                           ("/r_emailConfig.ini", [("email_config", email_config)])];
     faults := faults; connect_ok := true; smtp_ok := true; webhook := Some 200%nat;
     now := "2024-01-01 00:00:00" |}.

(** The installation whose section email_config has the mail options
    only: the option slack_webhook_url is missing. *)
Definition mail_only_installation (faults : nat → list stmt → option nat) : env :=
  {| files := list_to_map
                [("r_duplicates.ini", duplicates_ini);
                 ("/r_duplicates.ini", duplicates_ini);
                 ("r_emailConfig.ini",
                  [("email_config", delete "slack_webhook_url" email_config)]);
                 ("/r_emailConfig.ini",
                  [("email_config", delete "slack_webhook_url" email_config)])];
     faults := faults; connect_ok := true; smtp_ok := true; webhook := Some 200%nat;
     now := "2024-01-01 00:00:00" |}.

Definition no_faults : nat → list stmt → option nat := λ _ _, None.

(** Statement [i] of call number [call] fails. *)
Definition fails_at (call i : nat) : nat → list stmt → option nat :=
  λ n _, if decide (n = call) then Some i else None.


Definition order_rows : list Row :=
  [row 1 5 [10]; row 1 5 [11]; row 2 5 [12]; row 3 7 []].

Definition customer_rows : list Row := [row 1 1 []; row 1 1 []].

Definition start (c : catalog) (autocommit : bool) : state :=
  {| db := {| cat := c; txn := Idle |}; autocommit := autocommit; conn := false;
     calls := 0; trace := [] |}.

Definition warehouse : catalog :=
  {[ "sales.orders" := plain order_rows; "sales.customers" := plain customer_rows ]}.

(** The same key on two dates and two keys on one date: nothing is shared. *)
Definition clean_rows : list Row := [row 1 5 []; row 2 5 []; row 1 7 [8]].

(** Two rows of one date whose key is NULL. *)
Definition null_rows : list Row := [mkRow (Some 1) None [10]; mkRow (Some 1) None [11]].

Definition null_warehouse : catalog :=
  {[ "sales.orders" := plain null_rows; "sales.customers" := plain [] ]}.

Definition clean_warehouse : catalog :=
  {[ "sales.orders" := plain clean_rows; "sales.customers" := plain [] ]}.

(** The sample catalog with the side table of sales.orders left behind. *)
Definition leftover_warehouse : catalog :=
  <["sales.orders_duplicates" := plain []]> warehouse.

End Sample.

(** * Properties of the relational operators *)

Section Values.

Implicit Types (a b c : value).

Lemma value_le_refl a : value_le a a.
Proof. destruct a; simpl; [lia|done]. Qed.

Lemma value_le_trans a b c : value_le a b → value_le b c → value_le a c.
Proof. destruct a, b, c; simpl; try done; lia. Qed.

Lemma value_le_total a b : value_le a b ∨ value_le b a.
Proof. destruct a, b; simpl; try tauto; lia. Qed.

Lemma value_le_antisym a b : value_le a b → value_le b a → a = b.
Proof. destruct a, b; simpl; try done. intros. f_equal. lia. Qed.

Lemma value_lt_le a b : value_lt a b → value_le a b.
Proof. destruct a, b; simpl; try done; lia. Qed.

Lemma value_not_le a b : ¬ value_le a b ↔ value_lt b a.
Proof. destruct a, b; simpl; try tauto; lia. Qed.

Lemma value_not_lt a b : ¬ value_lt a b ↔ value_le b a.
Proof. destruct a, b; simpl; try tauto; lia. Qed.

Lemma sql_eq_some (z : Z) a : sql_eq a (Some z) ↔ a = Some z.
Proof. unfold sql_eq. split; [tauto|]. intros ->. done. Qed.

Lemma sql_eq_null a : ¬ sql_eq a None.
Proof. unfold sql_eq. intros [-> ?]. done. Qed.

End Values.

(** Comparisons of dates: the dates become variables, the cases of NULL
    are gone through. *)
Ltac value_order :=
  repeat match goal with
         | H : context [value_le _ _] |- _ => revert H
         | H : context [value_lt _ _] |- _ => revert H
         end;
  repeat match goal with
         | |- context [tdate ?x] => generalize (tdate x); intro
         | |- context [gdate ?x] => generalize (gdate x); intro
         end;
  unfold value_le, value_lt; intros;
  repeat match goal with
         | v : value |- _ => destruct v
         end;
  simpl in *; intuition (try lia; try congruence; try done).

Section Detection.

Implicit Types (ts : list tuple) (g : group) (d k : value).

#[local] Instance date_desc_trans : Transitive date_desc.
Proof. intros x y z. unfold date_desc. value_order. Qed.

#[local] Instance date_desc_total : Total date_desc.
Proof. intros x y. unfold date_desc. value_order. Qed.

Lemma count_pair_pos d k ts :
  (0 < count_pair d k ts)%nat ↔ ∃ t, t ∈ ts ∧ tdate t = d ∧ tkey t = k.
Proof.
  unfold count_pair. split.
  - intros H. destruct (filter _ ts) as [|t l] eqn:Hf; [simpl in H; lia|].
    assert (Ht : t ∈ filter (λ t, tdate t = d ∧ tkey t = k) ts) by (rewrite Hf; left).
    apply list_elem_of_filter in Ht as [[? ?] ?]. eauto.
  - intros (t & Hin & Hd & Hk).
    assert (Ht : t ∈ filter (λ t, tdate t = d ∧ tkey t = k) ts)
      by (apply list_elem_of_filter; done).
    destruct (filter _ ts); [inversion Ht | simpl; lia].
Qed.

Lemma elem_of_group_by g ts :
  g ∈ group_by ts ↔
  (0 < gcount g)%nat ∧ gcount g = count_pair (gdate g) (gkey g) ts.
Proof.
  unfold group_by. rewrite list_elem_of_fmap. split.
  - intros ([d k] & -> & Hin). simpl. unfold gcount, gdate, gkey. simpl.
    split; [|done]. apply count_pair_pos.
    apply elem_of_remove_dups, list_elem_of_fmap in Hin as (t & Heq & Hin).
    exists t. simplify_eq. done.
  - intros [Hpos Hc]. exists (gdate g, gkey g). split.
    + destruct g as [[d k] c]. unfold gcount, gdate, gkey in *. simpl in *. by subst.
    + apply elem_of_remove_dups, list_elem_of_fmap.
      rewrite Hc in Hpos. apply count_pair_pos in Hpos as (t & ? & ? & ?).
      exists t. split; [congruence | done].
Qed.


Lemma select_duplicates_perm ts :
  select_duplicates ts ≡ₚ having_count_gt_1 (group_by ts).
Proof. apply merge_sort_Permutation. Qed.

(** The result holds exactly the triples (date, key, count) whose count is
    the number of rows with that date and key, and exceeds one. *)
Lemma elem_of_select_duplicates g ts :
  g ∈ select_duplicates ts ↔
  (1 < gcount g)%nat ∧ gcount g = count_pair (gdate g) (gkey g) ts.
Proof.
  rewrite select_duplicates_perm. unfold having_count_gt_1.
  rewrite list_elem_of_filter, elem_of_group_by. intuition lia.
Qed.



Lemma select_duplicates_nil ts :
  select_duplicates ts = [] ↔ ∀ d k, (count_pair d k ts ≤ 1)%nat.
Proof.
  split.
  - intros Hnil d k. destruct (decide (count_pair d k ts ≤ 1)%nat) as [|Hgt]; [done|].
    assert (Hin : (d, k, count_pair d k ts) ∈ select_duplicates ts).
    { apply elem_of_select_duplicates. unfold gcount, gdate, gkey. simpl. lia. }
    rewrite Hnil in Hin. inversion Hin.
  - intros Hle. destruct (select_duplicates ts) as [|g l] eqn:Hs; [done|].
    assert (Hin : g ∈ select_duplicates ts) by (rewrite Hs; left).
    apply elem_of_select_duplicates in Hin as [Hgt Hc].
    specialize (Hle (gdate g) (gkey g)). lia.
Qed.

End Detection.

Section Staging.

Implicit Types (ts all before after : list tuple) (t s x y : tuple) (k : value).

Lemma length_filter_0 {A} (P : A → Prop) `{!∀ a, Decision (P a)} (l : list A) :
  length (filter P l) = O ↔ Forall (λ a, ¬ P a) l.
Proof.
  induction l as [|a l IH]; simpl.
  - split; [constructor | done].
  - rewrite filter_cons, Forall_cons. destruct (decide (P a)); simpl.
    + split; [lia | tauto].
    + rewrite IH. tauto.
Qed.


Lemma row_number_1 before t after :
  row_number before t after = 1%nat ↔ strictly_first t before ∧ earliest t after.
Proof.
  unfold row_number, strictly_first, earliest.
  assert (∀ a b : nat, S (a + b) = 1%nat ↔ a = O ∧ b = O) as -> by lia.
  rewrite !length_filter_0.
  split; intros [H1 H2]; split;
    (eapply Forall_impl; [eassumption|]); simpl; intros y Hy;
    destruct (decide (tkey y = tkey t)); value_order.
Qed.

Lemma count_key_cons k t ts :
  count_key k (t :: ts) = ((if decide (tkey t = k) then 1 else 0) + count_key k ts)%nat.
Proof. unfold count_key. rewrite filter_cons. by destruct (decide (tkey t = k)). Qed.

Lemma count_key_app k ts1 ts2 :
  count_key k (ts1 ++ ts2) = (count_key k ts1 + count_key k ts2)%nat.
Proof. unfold count_key. by rewrite filter_app, length_app. Qed.

Lemma count_key_pos k ts : (0 < count_key k ts)%nat ↔ Exists (λ t, tkey t = k) ts.
Proof.
  induction ts as [|t ts IH].
  - unfold count_key. simpl. rewrite Exists_nil. lia.
  - rewrite count_key_cons, Exists_cons, <- IH. destruct (decide (tkey t = k)); intuition lia.
Qed.

Lemma count_key_0 k ts : count_key k ts = O ↔ Forall (λ t, tkey t ≠ k) ts.
Proof. apply (length_filter_0 (λ t, tkey t = k)). Qed.

Lemma elem_of_cte_from x all before after :
  x ∈ duplicates_cte_from all before after ↔
  ∃ b t a, after = b ++ t :: a ∧
    x = (Z.of_nat (count_key (tkey t) all)
           :: Z.of_nat (row_number (before ++ b) t a) :: t.1, t.2).
Proof.
  revert before. induction after as [|t rest IH]; intros before; simpl.
  - split; [inversion 1|]. intros (b & t & a & Heq & _). by destruct b.
  - rewrite elem_of_cons, IH. split.
    + intros [->|(b & t' & a & -> & ->)].
      * exists [], t, rest. by rewrite app_nil_r.
      * exists (t :: b), t', a. by rewrite <- app_assoc.
    + intros (b & t' & a & Heq & ->). destruct b as [|t0 b]; simplify_eq/=.
      * left. by rewrite app_nil_r.
      * right. exists b, t', a. by rewrite <- app_assoc.
Qed.

Lemma is_representative_cte all before t after :
  is_representative
    (Z.of_nat (count_key (tkey t) all) :: Z.of_nat (row_number before t after) :: t.1, t.2)
  ↔ (1 < count_key (tkey t) all)%nat ∧ strictly_first t before ∧ earliest t after.
Proof. unfold is_representative. simpl. rewrite <- row_number_1. lia. Qed.

Lemma strictly_first_snoc x l t :
  strictly_first x (l ++ [t]) ↔
  strictly_first x l ∧ (tkey t = tkey x → value_lt (tdate x) (tdate t)).
Proof. unfold strictly_first. by rewrite Forall_app, Forall_singleton. Qed.

Lemma not_earliest t l :
  ¬ earliest t l → ∃ x, x ∈ l ∧ tkey x = tkey t ∧ value_lt (tdate x) (tdate t).
Proof.
  intros H. apply not_Forall_Exists in H; [|apply _].
  apply Exists_exists in H as (x & Hin & Hx). simpl in Hx.
  exists x. split; [done|]. destruct (decide (tkey x = tkey t)); [|tauto].
  split; [done|]. value_order.
Qed.

Lemma not_strictly_first t l :
  ¬ strictly_first t l → ∃ y, y ∈ l ∧ tkey y = tkey t ∧ value_le (tdate y) (tdate t).
Proof.
  intros H. apply not_Forall_Exists in H; [|apply _].
  apply Exists_exists in H as (y & Hin & Hy). simpl in Hy.
  exists y. split; [done|]. destruct (decide (tkey y = tkey t)); [|tauto].
  split; [done|]. value_order.
Qed.

(** Among the tuples of [after] with key [k], exactly one gets row number
    one, provided some tuple of [after] sorts in front of all of [before]. *)
Lemma representatives_from all before after k :
  (1 < count_key k all)%nat →
  count_key k (filter is_representative (duplicates_cte_from all before after)) =
  if decide (Exists (λ x, tkey x = k ∧ strictly_first x before) after) then 1%nat else O.
Proof.
  intros Hk. revert before. induction after as [|t rest IH]; intros before.
  - cbn [duplicates_cte_from]. destruct (decide _) as [H|]; [|done].
    by apply Exists_nil in H.
  - cbn [duplicates_cte_from]. rewrite filter_cons. specialize (IH (before ++ [t])).
    destruct (decide (tkey t = k)) as [Ht|Ht].
    + destruct (decide (is_representative _)) as [Hrep|Hrep].
      * apply is_representative_cte in Hrep as (_ & Hfirst & Hearly).
        rewrite count_key_cons. unfold tkey at 1. simpl. fold (tkey t).
        rewrite (decide_True _ _ Ht), IH.
        rewrite decide_False, decide_True; [done | | ].
        -- apply Exists_cons. by left.
        -- intros Hex. apply Exists_exists in Hex as (x & Hin & Hx & Hsf).
           apply strictly_first_snoc in Hsf as [_ Hlt].
           unfold earliest in Hearly. rewrite Forall_forall in Hearly.
           specialize (Hearly x Hin ltac:(congruence)).
           specialize (Hlt ltac:(congruence)). value_order.
      * rewrite IH. apply decide_ext. rewrite Exists_cons, !Exists_exists.
        rewrite is_representative_cte in Hrep. split.
        -- intros (x & Hin & Hx & Hsf). right. exists x.
           apply strictly_first_snoc in Hsf as [? _]. done.
        -- assert (Hnot : ¬ (strictly_first t before ∧ earliest t rest))
             by (rewrite Ht in Hrep; tauto).
           assert (Hlow : ∀ x, x ∈ rest → tkey x = k → value_lt (tdate x) (tdate t) →
                     strictly_first t before →
                     ∃ x, x ∈ rest ∧ tkey x = k ∧ strictly_first x (before ++ [t])).
           { intros x Hin Hx Hlt Hsf. exists x. split_and!; [done..|].
             apply strictly_first_snoc. split; [|done].
             unfold strictly_first in *. eapply Forall_impl; [exact Hsf|].
             simpl. intros y Hy ?. specialize (Hy ltac:(congruence)). value_order. }
           intros [[_ Hsf]|(x & Hin & Hx & Hsf)].
           ++ destruct (decide (earliest t rest)) as [|Hne]; [tauto|].
              apply not_earliest in Hne as (x & Hin & Hx & Hlt).
              apply (Hlow x); [done | congruence | done..].
           ++ destruct (decide (strictly_first t before)) as [Hsft|Hnsf].
              ** destruct (decide (earliest t rest)) as [|Hne]; [tauto|].
                 apply not_earliest in Hne as (x' & Hin' & Hx' & Hlt').
                 apply (Hlow x'); [done | congruence | done..].
              ** apply not_strictly_first in Hnsf as (y & Hyin & Hy & Hyle).
                 exists x. split_and!; [done..|].
                 apply strictly_first_snoc. split; [done|]. intros _.
                 unfold strictly_first in Hsf. rewrite Forall_forall in Hsf.
                 specialize (Hsf y Hyin ltac:(congruence)). value_order.
    + assert (Hskip : ∀ l (h : tuple), tkey h = tkey t →
                count_key k (if decide (is_representative h) then h :: l else l)
                = count_key k l).
      { intros l h Hh. destruct (decide (is_representative h)); [|done].
        rewrite count_key_cons, decide_False; [done | congruence]. }
      rewrite Hskip by done. rewrite IH. apply decide_ext.
      rewrite Exists_cons. split.
      * intros Hex. right. eapply Exists_impl; [exact Hex|]. simpl.
        intros x [Hx Hsf]. apply strictly_first_snoc in Hsf as [? _]. done.
      * intros [[? _]|Hex]; [done|]. eapply Exists_impl; [exact Hex|]. simpl.
        intros x [Hx Hsf]. split; [done|]. apply strictly_first_snoc.
        split; [done|]. intros ?. congruence.
Qed.

Lemma elem_of_staged s ts :
  s ∈ staged ts ↔
  ∃ b t a, ts = b ++ t :: a ∧
    s = (Z.of_nat (count_key (tkey t) ts) :: 1 :: t.1, t.2) ∧
    (1 < count_key (tkey t) ts)%nat ∧ strictly_first t b ∧ earliest t a.
Proof.
  unfold staged, duplicates_cte. rewrite list_elem_of_filter, elem_of_cte_from. split.
  - intros (Hrep & b & t & a & Hts & ->). simpl in Hrep.
    apply is_representative_cte in Hrep as (? & ? & ?).
    exists b, t, a. split_and!; try done. simpl.
    assert (row_number b t a = 1%nat) as -> by (by apply row_number_1). done.
  - intros (b & t & a & Hts & -> & Hc & Hsf & He). split.
    + unfold is_representative. simpl. lia.
    + exists b, t, a. split; [done|]. simpl.
      assert (row_number b t a = 1%nat) as -> by (by apply row_number_1). done.
Qed.

Lemma staged_source s ts :
  s ∈ staged ts →
  unstage s ∈ ts ∧ (1 < count_key (tkey s) ts)%nat ∧ earliest (unstage s) ts.
Proof.
  intros (b & t & a & Hts & -> & Hc & Hsf & He)%elem_of_staged.
  unfold unstage. simpl. rewrite drop_0. destruct t as [l r]. simpl in *.
  split_and!; [|done|].
  - rewrite Hts. apply elem_of_app. right. left.
  - unfold earliest, strictly_first in *. rewrite Hts.
    apply Forall_app. split;
      [|apply Forall_cons; split; [intros _; apply value_le_refl | done]].
    eapply Forall_impl; [exact Hsf|]. simpl. intros y Hy ?. specialize (Hy ltac:(done)).
    by apply value_lt_le.
Qed.

Lemma staged_count k ts :
  count_key k (staged ts) = if decide (1 < count_key k ts)%nat then 1%nat else O.
Proof.
  destruct (decide (1 < count_key k ts)%nat) as [Hk|Hk].
  - unfold staged, duplicates_cte. rewrite representatives_from by done.
    apply decide_True. assert (Hpos : (0 < count_key k ts)%nat) by lia.
    apply count_key_pos in Hpos. eapply Exists_impl; [exact Hpos|]. simpl.
    intros x ?. split; [done | constructor].
  - apply count_key_0, Forall_forall. intros s Hs ?.
    apply staged_source in Hs as (_ & ? & _). subst k. done.
Qed.

Lemma count_key_unstage k l : count_key k (map unstage l) = count_key k l.
Proof.
  induction l as [|s l IH]; [done|]. simpl. rewrite !count_key_cons, IH. done.
Qed.

(** The delete of step 2 takes the tuples of the shared keys, those of the
    NULL key excepted. *)
Lemma delete_using_staged ts :
  delete_using ts (staged ts)
  = filter (λ t, (count_key (tkey t) ts ≤ 1)%nat ∨ tkey t = None) ts.
Proof.
  unfold delete_using. apply list_filter_iff. intros t.
  destruct (tkey t) as [z|] eqn:Hk.
  - assert (Exists (λ s, sql_eq (tkey s) (Some z)) (staged ts)
            ↔ Exists (λ s, tkey s = Some z) (staged ts)) as ->.
    { rewrite !Exists_exists. by setoid_rewrite sql_eq_some. }
    rewrite <- count_key_pos, staged_count. destruct (decide _); intuition (lia || done).
  - split; [by right|]. intros _ (s & _ & Hs)%Exists_exists. by apply sql_eq_null in Hs.
Qed.

Lemma count_key_filter (R : value → Prop) `{!∀ z, Decision (R z)} k l :
  count_key k (filter (λ t, R (tkey t)) l) = if decide (R k) then count_key k l else O.
Proof.
  induction l as [|t l IH].
  - by destruct (decide (R k)).
  - rewrite filter_cons. destruct (decide (R (tkey t))) as [Ht|Ht];
      rewrite ?count_key_cons, IH; destruct (decide (R k)) as [Hk|Hk]; try done.
    + rewrite decide_False; [done | congruence].
    + rewrite decide_False; [done | congruence].
Qed.

(** After the four steps a key that is not NULL occurs at most once, and a
    key that occurred before still occurs. *)
Lemma count_key_deduplicated (z : Z) ts :
  count_key (Some z) (deduplicated ts) = Nat.min 1 (count_key (Some z) ts).
Proof.
  unfold deduplicated. rewrite count_key_app, count_key_unstage, staged_count.
  rewrite delete_using_staged.
  pose proof (count_key_filter (λ k, (count_key k ts ≤ 1)%nat ∨ k = None) (Some z) ts) as Hf.
  simpl in Hf. rewrite Hf.
  destruct (decide (_ ∨ _)) as [[?|?]|Hn], (decide (1 < _)%nat); try done; try lia.
Qed.

(** The tuples of the NULL key all stay, and when they were several the
    staged one is added to them. *)
Lemma count_null_deduplicated ts :
  count_key None (deduplicated ts)
  = if decide (1 < count_key None ts)%nat then S (count_key None ts) else count_key None ts.
Proof.
  unfold deduplicated. rewrite count_key_app, count_key_unstage, staged_count.
  rewrite delete_using_staged.
  pose proof (count_key_filter (λ k, (count_key k ts ≤ 1)%nat ∨ k = None) None ts) as Hf.
  simpl in Hf. rewrite Hf. rewrite decide_True by (by right).
  repeat destruct (decide _); lia.
Qed.


(** Every tuple kept for a shared key that is not NULL is a tuple of the
    table with the lowest dateCreated of its key. *)
Lemma deduplicated_shared t ts :
  t ∈ deduplicated ts → tkey t ≠ None → (1 < count_key (tkey t) ts)%nat →
  t ∈ ts ∧ earliest t ts.
Proof.
  unfold deduplicated. rewrite delete_using_staged, elem_of_app, list_elem_of_filter.
  intros [[[?|?] ?]|(s & -> & Hs)%list_elem_of_fmap] Hk Hc; [lia|done|].
  apply staged_source in Hs as (? & _ & ?). done.
Qed.

Lemma deduplicated_subset t ts : t ∈ deduplicated ts → t ∈ ts.
Proof.
  unfold deduplicated. rewrite delete_using_staged, elem_of_app, list_elem_of_filter.
  intros [[? ?]|(s & -> & Hs)%list_elem_of_fmap]; [done|].
  by apply staged_source in Hs as (? & _ & _).
Qed.






End Staging.

(** * The engine: blocks are atomic *)

Section Blocks.

Implicit Types (c : catalog) (σ : session) (body : list stmt) (f : option nat).

Lemma exec_script_cons f s rest last σ :
  exec_script f (s :: rest) last σ =
  match exec_stmt (bool_decide (f = Some O)) s σ with
  | (σ', inl e) => (σ', inl e)
  | (σ', inr res) => exec_script (shift f) rest res σ'
  end.
Proof. reflexivity. Qed.

Lemma no_hit_S f n : no_hit f (S n) ↔ f ≠ Some O ∧ no_hit (shift f) n.
Proof. destruct f as [[|i]|]; simpl; split; try intros [? ?]; try split; try done; lia. Qed.

Lemma exec_data_in_block s c0 c1 :
  is_data s →
  exec_stmt false s {| cat := c1; txn := InBlock c0 |} =
  match run_stmt s c1 with
  | inl e => ({| cat := c1; txn := Failed c0 |}, inl e)
  | inr (c', res) => ({| cat := c'; txn := InBlock c0 |}, inr res)
  end.
Proof. by destruct s. Qed.

(** Inside a block: either every statement and the COMMIT succeed, or
    the session ends up failed with the snapshot taken at BEGIN. *)
Lemma exec_in_block body f last c0 c1 σ' r :
  Forall is_data body →
  exec_script f (body ++ [COMMIT]) last {| cat := c1; txn := InBlock c0 |} = (σ', r) →
  (∃ c', r = inr [] ∧ σ' = {| cat := c'; txn := Idle |} ∧
         run_block body c1 = inr c' ∧ no_hit f (S (length body)))
  ∨ (∃ e c2, r = inl e ∧ σ' = {| cat := c2; txn := Failed c0 |}).
Proof.
  intros Hdata. revert f last c1. induction Hdata as [|s body Hs Hdata IH]; intros f last c1.
  - simpl. destruct (bool_decide (f = Some O)) eqn:Hf; simpl; intros [= <- <-].
    + right. eauto.
    + left. eexists. split_and!; try done.
      apply bool_decide_eq_false in Hf. apply no_hit_S. split; [done|].
      by destruct f as [[|?]|]; simpl; try lia.
  - rewrite <- app_comm_cons, exec_script_cons.
    destruct (bool_decide (f = Some O)) eqn:Hf.
    + simpl. intros [= <- <-]. right. eauto.
    + rewrite exec_data_in_block by done. simpl.
      destruct (run_stmt s c1) as [e|[c' res]] eqn:Hrun.
      * intros [= <- <-]. right. eauto.
      * intros Hrest. apply IH in Hrest as [(c'' & -> & -> & Hb & Hn)|(e & c2 & -> & ->)].
        -- left. exists c''. split_and!; try done.
           apply bool_decide_eq_false in Hf. simpl length. apply no_hit_S. done.
        -- right. eauto.
Qed.

Lemma exec_block body f last c σ' r :
  Forall is_data body →
  exec_script f (BEGIN :: body ++ [COMMIT]) last {| cat := c; txn := Idle |} = (σ', r) →
  (∃ c', r = inr [] ∧ σ' = {| cat := c'; txn := Idle |} ∧
         run_block body c = inr c' ∧ no_hit f (S (S (length body))))
  ∨ (∃ e, r = inl e ∧ durable σ' = c ∧
          (exec_stmt false ROLLBACK σ').1 = {| cat := c; txn := Idle |}).
Proof.
  intros Hdata. rewrite exec_script_cons.
  destruct (bool_decide (f = Some O)) eqn:Hf.
  - simpl. intros [= <- <-]. right. eauto.
  - simpl. intros Hrest.
    apply exec_in_block in Hrest; [|done].
    destruct Hrest as [(c' & -> & -> & Hb & Hn)|(e & c2 & -> & ->)].
    + left. exists c'. split_and!; try done.
      apply bool_decide_eq_false in Hf. apply no_hit_S. done.
    + right. eauto.
Qed.

Lemma exec_in_block_ok body f last c0 c1 c' :
  Forall is_data body → run_block body c1 = inr c' → no_hit f (S (length body)) →
  exec_script f (body ++ [COMMIT]) last {| cat := c1; txn := InBlock c0 |}
  = ({| cat := c'; txn := Idle |}, inr []).
Proof.
  intros Hdata. revert f last c1.
  induction Hdata as [|s body Hs Hdata IH]; intros f last c1 Hrun Hn.
  - simpl in *. simplify_eq. apply no_hit_S in Hn as [Hf _].
    rewrite bool_decide_eq_false_2 by done. done.
  - rewrite <- app_comm_cons, exec_script_cons.
    simpl length in Hn. apply no_hit_S in Hn as [Hf Hn].
    rewrite bool_decide_eq_false_2 by done.
    rewrite exec_data_in_block by done. simpl in Hrun.
    destruct (run_stmt s c1) as [?|[c2 res]]; [done|]. by apply IH.
Qed.

Lemma exec_block_ok body f last c c' :
  Forall is_data body → run_block body c = inr c' → no_hit f (S (S (length body))) →
  exec_script f (BEGIN :: body ++ [COMMIT]) last {| cat := c; txn := Idle |}
  = ({| cat := c'; txn := Idle |}, inr []).
Proof.
  intros Hdata Hrun Hn. rewrite exec_script_cons.
  apply no_hit_S in Hn as [Hf Hn]. rewrite bool_decide_eq_false_2 by done. simpl.
  by apply exec_in_block_ok.
Qed.

End Blocks.

(** * The four steps on the catalog *)

Section Steps.

Import Remove_Duplicates.

Implicit Types (c : catalog) (r : relation) (t k : string).

Lemma string_length_app (s1 s2 : string) :
  String.length (s1 +:+ s2) = (String.length s1 + String.length s2)%nat.
Proof. induction s1 as [|a s1 IH]; simpl; [done | by rewrite IH]. Qed.

Lemma side_table_ne t : side_table t ≠ t.
Proof.
  unfold side_table. intros H. apply (f_equal String.length) in H.
  rewrite string_length_app in H. simpl in H. lia.
Qed.

Lemma step1_block c t k r :
  c !! t = Some r → ordinary r → c !! side_table t = None →
  run_block [SELECT_INTO_DUPLICATES k t (side_table t)] c
  = inr (<[side_table t := staged_relation r]> c).
Proof.
  intros Ht [H1 H2] Hs. simpl. rewrite Ht.
  rewrite !decide_False by done. by rewrite Hs.
Qed.

Lemma step2_block c t k r d :
  c !! t = Some r → c !! side_table t = Some d →
  run_block [DELETE_USING t (side_table t) k] c
  = inr (<[t := {| header := header r;
                   tuples := delete_using (tuples r) (tuples d) |}]> c).
Proof. intros Ht Hs. simpl. by rewrite Ht, Hs. Qed.

Lemma drop_column_0_twice r :
  drop_column 0 (drop_column 0 (staged_relation r))
  = {| header := header r; tuples := map unstage (tuples (staged_relation r)) |}.
Proof.
  unfold drop_column, staged_relation, drop_nth. simpl. f_equal.
  rewrite <- list_fmap_compose. apply list_fmap_ext. intros _ [l b] _. simpl.
  unfold unstage. simpl. by rewrite drop_drop.
Qed.

Lemma alter_leading_column c s col d h :
  c !! s = Some d → header d = col :: h →
  run_stmt (ALTER_TABLE_DROP_COLUMN s col) c = inr (<[s := drop_column 0 d]> c, []).
Proof.
  intros Hs Hh. simpl. rewrite Hs, Hh. simpl. by rewrite decide_True.
Qed.

Lemma insert_select c t s r d :
  c !! t = Some r → c !! s = Some d → length (header r) = length (header d) →
  run_stmt (INSERT_INTO_SELECT t s) c
  = inr (<[t := {| header := header r; tuples := tuples r ++ tuples d |}]> c, []).
Proof. intros Ht Hs Hl. simpl. rewrite Ht, Hs. by rewrite decide_True. Qed.

Lemma step3_block c t r r2 :
  c !! t = Some r2 → c !! side_table t = Some (staged_relation r) →
  header r2 = header r →
  run_block [ALTER_TABLE_DROP_COLUMN (side_table t) "total_duplicates";
             ALTER_TABLE_DROP_COLUMN (side_table t) "duplicate_rn";
             INSERT_INTO_SELECT t (side_table t)] c
  = inr (<[t := {| header := header r2;
                   tuples := tuples r2 ++ map unstage (staged (tuples r)) |}]>
           (<[side_table t := {| header := header r;
                                 tuples := map unstage (staged (tuples r)) |}]> c)).
Proof.
  intros Ht Hs Hh. pose proof (side_table_ne t) as Hne.
  cbn [run_block].
  erewrite alter_leading_column; [|exact Hs|reflexivity].
  erewrite alter_leading_column; [|apply lookup_insert_eq|reflexivity].
  rewrite insert_insert_eq, drop_column_0_twice.
  erewrite insert_select;
    [|by rewrite lookup_insert_ne|apply lookup_insert_eq|by rewrite Hh].
  done.
Qed.

Lemma step4_block c t d :
  c !! side_table t = Some d →
  run_block [DROP_TABLE (side_table t)] c = inr (delete (side_table t) c).
Proof. intros Hs. simpl. by rewrite Hs. Qed.

Lemma steps_catalog c t r r2 d d' :
  c !! side_table t = None →
  delete (side_table t)
    (<[t := r2]> (<[side_table t := d']> (<[t := r]> (<[side_table t := d]> c))))
  = <[t := r2]> c.
Proof.
  intros Hs. pose proof (side_table_ne t) as Hne. apply map_eq. intros i.
  destruct (decide (i = side_table t)) as [Hi|Hi], (decide (i = t)) as [Hi'|Hi'];
    simplify_map_eq; done.
Qed.

End Steps.

(** * Running the Python code *)

Section Monad.

Context {A B : Type}.
Implicit Types (m : M A) (f : A → M B) (st : state).

Lemma bind_inr m f st a st' : m st = (inr a, st') → (m ≫= f) st = f a st'.
Proof. intros H. unfold mbind, M_bind. by rewrite H. Qed.

Lemma bind_inl m f st e st' : m st = (inl e, st') → (m ≫= f) st = (inl e, st').
Proof. intros H. unfold mbind, M_bind. by rewrite H. Qed.


Lemma try_except_inl m (h : exn → M A) st e st' :
  m st = (inl e, st') → try_except m h st = h e st'.
Proof. intros H. unfold try_except. by rewrite H. Qed.

End Monad.

Lemma add_events_add_events evs1 evs2 st :
  add_events evs1 (add_events evs2 st) = add_events (evs1 ++ evs2) st.
Proof. unfold add_events. simpl. by rewrite app_assoc. Qed.

Lemma add_events_nil st : add_events [] st = st.
Proof. by destruct st. Qed.

Section Calls.

Context (E : env).
Implicit Types (st : state) (c : catalog) (subject body : string).

Lemma getitem_state d key st : (getitem d key st).2 = st.
Proof. unfold getitem. by destruct (d !! key). Qed.

Lemma smtp_conversation_result cfg subject body st :
  smtp_conversation E cfg subject body st = (inr tt, add_events [Email subject body] st)
  ∨ ∃ e, smtp_conversation E cfg subject body st = (inl e, st).
Proof.
  unfold smtp_conversation, getitem, mbind, M_bind, mret, M_ret, raise, emit.
  repeat match goal with
         | |- context [cfg !! ?k] => destruct (cfg !! k)
         | |- context [smtp_ok E] => destruct (smtp_ok E)
         end; simpl; eauto.
Qed.

(** send_email of the remover never raises: it leaves one event, the
    mail or the line logged for its failure. *)
Lemma remover_send_email subject body st :
  ∃ ev, Remove_Duplicates.send_email E subject body st = (inr tt, add_events [ev] st) ∧
        (ev = Email subject body ∨ ∃ m, ev = Log m).
Proof.
  unfold Remove_Duplicates.send_email, try_except, server_config, mbind, M_bind.
  destruct (section_options _ _) as [cfg|]; simpl.
  - destruct (smtp_conversation_result cfg subject body st) as [->|[e ->]]; eauto.
  - eexists. split; [reflexivity|]. eauto.
Qed.

Lemma cur_execute_block_ok st (body : list stmt) c c' :
  autocommit st = true → db st = {| cat := c; txn := Idle |} →
  Forall is_data body → run_block body c = inr c' →
  no_hit (faults E (calls st) (BEGIN :: body ++ [COMMIT])) (S (S (length body))) →
  cur_execute E (BEGIN :: body ++ [COMMIT]) st
  = (inr [], executed (BEGIN :: body ++ [COMMIT]) None {| cat := c'; txn := Idle |} st).
Proof.
  intros Ha Hdb Hdata Hrun Hn. unfold cur_execute. rewrite Ha, Hdb.
  by rewrite (exec_block_ok body _ [] c c').
Qed.

(** A failed block leaves the catalog of the BEGIN behind once ROLLBACK
    has run. *)
Lemma cur_execute_block_cases st (body : list stmt) c :
  autocommit st = true → db st = {| cat := c; txn := Idle |} → Forall is_data body →
  let script := BEGIN :: body ++ [COMMIT] in
  (∃ c', run_block body c = inr c' ∧
         no_hit (faults E (calls st) script) (S (S (length body))) ∧
         cur_execute E script st
         = (inr [], executed script None {| cat := c'; txn := Idle |} st))
  ∨ (∃ e σ, cur_execute E script st = (inl (DatabaseError e), executed script (Some e) σ st) ∧
            durable σ = c ∧ (exec_stmt false ROLLBACK σ).1 = {| cat := c; txn := Idle |}).
Proof.
  intros Ha Hdb Hdata script. unfold cur_execute. rewrite Ha, Hdb.
  destruct (exec_script _ script [] _) as [σ r] eqn:Hex.
  apply exec_block in Hex; [|done].
  destruct Hex as [(c' & -> & -> & Hb & Hn)|(e & -> & Hd & Hr)]; [left|right]; eauto.
Qed.

End Calls.

Ltac norm_state :=
  unfold add_events, executed; cbn [db autocommit conn calls trace app].

Section RemoveTable.

Import Remove_Duplicates.

Context (E : env).
Implicit Types (st : state) (c : catalog) (r : relation) (t k : string).

Lemma quiet_no_hit script i n m :
  quiet (faults E) n 4 → (i < 4)%nat → no_hit (faults E (i + n) script) m.
Proof. intros Hq Hi. rewrite Nat.add_comm, Hq by done. done. Qed.

(** The four steps on a table whose side-table name is free, without
    injected failures. *)
Lemma remove_duplicates_from_table_ok st c r t k :
  autocommit st = true → db st = {| cat := c; txn := Idle |} →
  c !! t = Some r → ordinary r → c !! side_table t = None →
  quiet (faults E) (calls st) 4 →
  ∃ ev,
    remove_duplicates_from_table E t k st
    = (inr tt,
       {| db := {| cat := <[t := deduplicated_relation r]> c; txn := Idle |};
          autocommit := true; conn := conn st; calls := 4 + calls st;
          trace :=
            ev :: Log ("Step 4: Temporary table " +:+ side_table t +:+ " dropped.")
               :: Execute (3 + calls st) (step4_sql t) None
               :: Log ("Step 3: Non-duplicate rows inserted back into " +:+ t +:+ ".")
               :: Execute (2 + calls st) (step3_sql t) None
               :: Log ("Step 2: Duplicates removed from " +:+ t +:+ ".")
               :: Execute (1 + calls st) (step2_sql t k) None
               :: Log ("Step 1: Duplicates inserted into temporary table for " +:+ t +:+ ".")
               :: Execute (calls st) (step1_sql t k) None
               :: trace st |})
    ∧ (ev = Email ("Duplicate Removal Notification for " +:+ t)
                  ("Duplicates have been successfully removed from " +:+ t +:+ ".")
       ∨ ∃ m, ev = Log m).
Proof.
  intros Ha Hdb Ht Hord Hs Hq. pose proof (side_table_ne t) as Hne.
  destruct st as [σ a cn n tr]. simpl in Ha, Hdb, Hq. subst σ a.
  cbn [conn calls trace].
  unfold remove_duplicates_from_table, remove_steps.
  set (c1 := <[side_table t := staged_relation r]> c).
  set (r2 := {| header := header r;
                tuples := delete_using (tuples r) (tuples (staged_relation r)) |}).
  set (c2 := <[t := r2]> c1).
  set (d3 := {| header := header r; tuples := map unstage (staged (tuples r)) |}).
  unfold try_except.
  erewrite bind_inr; last first.
  { apply (cur_execute_block_ok E _ [SELECT_INTO_DUPLICATES k t (side_table t)] c);
      [done | done | repeat constructor | by apply step1_block |].
    apply (quiet_no_hit _ 0 n); [done | lia]. }
  fold c1. norm_state.
  erewrite bind_inr by reflexivity. norm_state.
  erewrite bind_inr; last first.
  { apply (cur_execute_block_ok E _ [DELETE_USING t (side_table t) k] c1);
      [done | done | repeat constructor | |].
    - apply (step2_block c1 t k r); unfold c1; by simplify_map_eq.
    - apply (quiet_no_hit _ 1 n); [done | lia]. }
  norm_state.
  erewrite bind_inr by reflexivity. norm_state.
  erewrite bind_inr; last first.
  { apply (cur_execute_block_ok E _
             [ALTER_TABLE_DROP_COLUMN (side_table t) "total_duplicates";
              ALTER_TABLE_DROP_COLUMN (side_table t) "duplicate_rn";
              INSERT_INTO_SELECT t (side_table t)] c2);
      [done | done | repeat constructor | |].
    - apply (step3_block c2 t r r2); unfold c2, c1; by simplify_map_eq.
    - apply (quiet_no_hit _ 2 n); [done | lia]. }
  norm_state.
  erewrite bind_inr by reflexivity. norm_state.
  erewrite bind_inr; last first.
  { eapply (cur_execute_block_ok E _ [DROP_TABLE (side_table t)]);
      [done | reflexivity | repeat constructor | |].
    - apply (step4_block _ t d3). by simplify_map_eq.
    - apply (quiet_no_hit _ 3 n); [done | lia]. }
  norm_state.
  erewrite bind_inr by reflexivity. norm_state.
  match goal with
  | |- context [send_email E ?s ?b ?S] =>
      destruct (remover_send_email E s b S) as (ev & Hmail & Hev); rewrite Hmail
  end.
  norm_state. exists ev. split; [|done]. f_equal. f_equal. f_equal.
  unfold c2, c1. rewrite steps_catalog by done.
  reflexivity.
Qed.

End RemoveTable.

(** * Detection *)

Section Detector.

Import Remove_Duplicates.

Context (E : env).
Implicit Types (st : state) (c : catalog) (σ : session) (t k : string).

(** The detection query reads: whatever its outcome, the catalog and the
    durable catalog stay as they are, and an idle session stays idle. *)
Lemma exec_select f k t σ0 σ res :
  exec_script f [SELECT_DUPLICATES k t] [] σ0 = (σ, res) →
  cat σ = cat σ0 ∧ durable σ = durable σ0 ∧ (txn σ0 = Idle → σ = σ0) ∧
  (∀ s, txn σ0 = InBlock s → ∃ s', txn σ = s' ∧ (s' = InBlock s ∨ s' = Failed s)) ∧
  match res with
  | inr rows => ∃ r, cat σ0 !! t = Some r ∧ rows = select_duplicates (tuples r)
  | inl _ => True
  end.
Proof.
  destruct σ0 as [c0 [|s|s]]; simpl; unfold exec_stmt, fail_stmt, durable; simpl;
    destruct (bool_decide (f = Some O)); simpl;
    try destruct (c0 !! t) as [r|] eqn:Hr; simpl;
    intros [= <- <-]; simpl; split_and!; try done; eauto;
    try (intros ? [= <-]; eauto).
Qed.

Lemma exec_select_ok f k t c r :
  c !! t = Some r → no_hit f 1 →
  exec_script f [SELECT_DUPLICATES k t] [] {| cat := c; txn := Idle |}
  = ({| cat := c; txn := Idle |}, inr (select_duplicates (tuples r))).
Proof.
  intros Hr Hn. apply no_hit_S in Hn as [Hf _]. simpl.
  rewrite bool_decide_eq_false_2 by done. unfold exec_stmt. simpl. by rewrite Hr.
Qed.

Lemma implicit_begin_frame σ :
  cat (exec_stmt false BEGIN σ).1 = cat σ ∧ durable (exec_stmt false BEGIN σ).1 = durable σ.
Proof. by destruct σ as [c [|s|s]]. Qed.

(** cur.execute of the detection query, on any session. *)
Lemma cur_execute_select k t st :
  let q := [SELECT_DUPLICATES k t] in
  ∃ σ, cat σ = cat (db st) ∧ durable σ = durable (db st) ∧
       (autocommit st = true → txn (db st) = Idle → σ = db st) ∧
  ((∃ e, cur_execute E q st = (inl (DatabaseError e), executed q (Some e) σ st))
   ∨ (∃ r, cat (db st) !! t = Some r ∧
           cur_execute E q st
           = (inr (select_duplicates (tuples r)), executed q None σ st))).
Proof.
  intros q. unfold cur_execute.
  set (σ0 := if autocommit st then db st else (exec_stmt false BEGIN (db st)).1).
  assert (Hσ0 : cat σ0 = cat (db st) ∧ durable σ0 = durable (db st) ∧
                (autocommit st = true → σ0 = db st)).
  { unfold σ0. destruct (autocommit st); [done|].
    destruct (implicit_begin_frame (db st)) as [? ?]. done. }
  destruct Hσ0 as (Hc0 & Hd0 & Ha0).
  destruct (exec_script (faults E (calls st) q) q [] σ0) as [σ res] eqn:Hex.
  apply exec_select in Hex as (Hc & Hd & Hidle & _ & Hres).
  exists σ. split_and!.
  - congruence.
  - congruence.
  - intros Ha Ht. rewrite <- (Ha0 Ha). apply Hidle. rewrite (Ha0 Ha). done.
  - destruct res as [e|rows]; [left; eauto|right].
    destruct Hres as (r & Hr & ->). exists r. rewrite <- Hc0. done.
Qed.

(** check_for_duplicates never raises.  It yields the rows of the query,
    or None after a failed query, which it logs and mails. *)
Lemma check_for_duplicates_cases st t k :
  let q := duplicate_check_query k t in
  ∃ σ, cat σ = cat (db st) ∧ durable σ = durable (db st) ∧
       (autocommit st = true → txn (db st) = Idle → σ = db st) ∧
  ((∃ r, cat (db st) !! t = Some r ∧
         check_for_duplicates E t k st
         = (inr (Some (select_duplicates (tuples r))), executed q None σ st))
   ∨ (∃ e ev, check_for_duplicates E t k st
              = (inr None,
                 add_events [ev; Log ("Error checking duplicates in " +:+ t +:+ ": "
                                        +:+ str (DatabaseError e))]
                   (executed q (Some e) σ st))
              ∧ (ev = Email "Error Checking Duplicates"
                        ("Error checking duplicates in " +:+ t +:+ ": "
                           +:+ str (DatabaseError e))
                 ∨ ∃ m, ev = Log m))).
Proof.
  intros q. unfold check_for_duplicates, try_except, cur_execute, mbind, M_bind.
  fold q.
  set (σ0 := if autocommit st then db st else (exec_stmt false BEGIN (db st)).1).
  assert (Hσ0 : cat σ0 = cat (db st) ∧ durable σ0 = durable (db st) ∧
                (autocommit st = true → σ0 = db st)).
  { unfold σ0. destruct (autocommit st); [done|].
    destruct (implicit_begin_frame (db st)) as [? ?]. done. }
  destruct Hσ0 as (Hc0 & Hd0 & Ha0).
  destruct (exec_script (faults E (calls st) q) q [] σ0) as [σ res] eqn:Hex.
  apply exec_select in Hex as (Hc & Hd & Hidle & _ & Hres).
  exists σ. split_and!.
  - congruence.
  - congruence.
  - intros Ha Ht. rewrite <- (Ha0 Ha). apply Hidle. rewrite (Ha0 Ha). done.
  - destruct res as [e|rows].
    + right. simpl.
      match goal with
      | |- context [send_email E ?s ?b ?S] =>
          destruct (remover_send_email E s b S) as (ev & Hmail & Hev)
      end.
      exists e, ev. split; [|done].
      unfold log_to_file, emit. simpl. simpl in Hmail. rewrite Hmail.
      by rewrite add_events_add_events.
    + left. destruct Hres as (r & Hr & ->). exists r. rewrite <- Hc0. done.
Qed.

End Detector.

(** * The removal sequence *)

Section Removal.

Import Remove_Duplicates.

Context (E : env).
Implicit Types (st : state) (c : catalog) (r : relation) (t k : string).



End Removal.

Section RemovalOnSample.

Import Remove_Duplicates Sample.

Lemma ordinary_plain rows : ordinary (plain rows).
Proof. split; apply not_elem_of_nil. Qed.





End RemovalOnSample.

(** * Failures inside the removal sequence *)

Section Failures.

Import Remove_Duplicates.

Context (E : env).
Implicit Types (st : state) (c : catalog) (σ : session) (r : relation) (t k : string).

Lemma continues_refl st : continues st st.
Proof. split_and!; [done..|]. by exists []. Qed.

Lemma continues_trans st1 st2 st3 :
  continues st1 st2 → continues st2 st3 → continues st1 st3.
Proof.
  intros (Ha1 & Hc1 & evs1 & Ht1) (Ha2 & Hc2 & evs2 & Ht2).
  split_and!; [congruence..|]. exists (evs2 ++ evs1). by rewrite Ht2, Ht1, app_assoc.
Qed.

Lemma continues_add_events evs st : continues st (add_events evs st).
Proof. split_and!; [done..|]. by exists evs. Qed.

Lemma continues_executed script o σ st : continues st (executed script o σ st).
Proof. split_and!; [done..|]. by exists [Execute (calls st) script o]. Qed.

Lemma continues_elem_of e st st' : continues st st' → e ∈ trace st → e ∈ trace st'.
Proof. intros (_ & _ & evs & ->) He. apply elem_of_app. by right. Qed.

Lemma step1_block_inv c c1 t k :
  run_block [SELECT_INTO_DUPLICATES k t (side_table t)] c = inr c1 →
  ∃ r, c !! t = Some r ∧ ordinary r ∧ c !! side_table t = None ∧
       c1 = <[side_table t := staged_relation r]> c.
Proof.
  simpl. destruct (c !! t) as [r|]; [|done].
  destruct (decide _) as [|H1]; [done|]. destruct (decide _) as [|H2]; [done|].
  destruct (c !! side_table t); [done|]. intros [= <-]. exists r. done.
Qed.

Lemma exec_rollback_result σ : (exec_stmt false ROLLBACK σ).2 = inr [].
Proof. by destruct σ as [c [|s|s]]. Qed.

Lemma durable_fail_stmt e σ : durable (fail_stmt e σ).1 = durable σ.
Proof. by destruct σ as [c [|s|s]]. Qed.

Lemma rollback_fail_stmt e σ :
  (exec_stmt false ROLLBACK (fail_stmt e σ).1).1 = (exec_stmt false ROLLBACK σ).1.
Proof. by destruct σ as [c [|s|s]]. Qed.

(** cur.execute("ROLLBACK;") after a failed block. *)
Lemma cur_execute_rollback σ c1 cn n tr :
  durable σ = c1 → (exec_stmt false ROLLBACK σ).1 = {| cat := c1; txn := Idle |} →
  ∃ res σ' o,
    cur_execute E [ROLLBACK]
      {| db := σ; autocommit := true; conn := cn; calls := n; trace := tr |}
    = (res, {| db := σ'; autocommit := true; conn := cn; calls := S n;
               trace := Execute n [ROLLBACK] o :: tr |}) ∧
    durable σ' = c1 ∧
    (exec_stmt false ROLLBACK σ').1 = {| cat := c1; txn := Idle |} ∧
    (faults E n [ROLLBACK] ≠ Some O → o = None) ∧
    (o = None → res = inr [] ∧ σ' = {| cat := c1; txn := Idle |}) ∧
    (o ≠ None → ∃ e, res = inl e).
Proof.
  intros Hd Hr. unfold cur_execute. cbn [autocommit db calls exec_script].
  destruct (bool_decide (faults E n [ROLLBACK] = Some O)) eqn:Hf.
  - assert (Hfs : exec_stmt true ROLLBACK σ = ((fail_stmt Injected σ).1, inl Injected))
      by (unfold exec_stmt, fail_stmt; by destruct (txn σ)).
    rewrite Hfs. eexists _, _, _. split; [reflexivity|].
    rewrite durable_fail_stmt, rollback_fail_stmt. split_and!; try done.
    + apply bool_decide_eq_true in Hf. done.
    + eauto.
  - destruct (exec_stmt false ROLLBACK σ) as [σ' res] eqn:Hex.
    pose proof (exec_rollback_result σ) as Hres. rewrite Hex in Hres.
    simpl in Hres, Hr. subst σ' res.
    eexists _, _, _. split; [reflexivity|]. split_and!; try done.
Qed.

(** One step of the sequence, sent from an idle session. *)
Lemma block_call script body c cn n tr :
  script = BEGIN :: body ++ [COMMIT] → Forall is_data body →
  (∃ c', run_block body c = inr c' ∧
         no_hit (faults E n script) (S (S (length body))) ∧
         cur_execute E script
           {| db := {| cat := c; txn := Idle |}; autocommit := true; conn := cn;
              calls := n; trace := tr |}
         = (inr [], {| db := {| cat := c'; txn := Idle |}; autocommit := true; conn := cn;
                       calls := S n; trace := Execute n script None :: tr |}))
  ∨ (∃ e σ, cur_execute E script
              {| db := {| cat := c; txn := Idle |}; autocommit := true; conn := cn;
                 calls := n; trace := tr |}
            = (inl (DatabaseError e),
               {| db := σ; autocommit := true; conn := cn;
                  calls := S n; trace := Execute n script (Some e) :: tr |}) ∧
            durable σ = c ∧ (exec_stmt false ROLLBACK σ).1 = {| cat := c; txn := Idle |}).
Proof.
  intros -> Hdata.
  destruct (cur_execute_block_cases E
              {| db := {| cat := c; txn := Idle |}; autocommit := true; conn := cn;
                 calls := n; trace := tr |} body c)
    as [(c' & Hb & Hn & Hrun)|(e & σ & Hrun & ?)];
    [done..| |]; [left|right]; eauto.
Qed.

(** The except block: the rollback is sent; if it is accepted the session
    is idle again on the catalog of the last COMMIT. *)
Lemma remove_failed_result t e σ c1 cn n tr :
  durable σ = c1 → (exec_stmt false ROLLBACK σ).1 = {| cat := c1; txn := Idle |} →
  ∃ res σ' o evs,
    remove_failed E t e
      {| db := σ; autocommit := true; conn := cn; calls := n; trace := tr |}
    = (res, {| db := σ'; autocommit := true; conn := cn; calls := S n;
               trace := evs ++ tr |}) ∧
    Execute n [ROLLBACK] o ∈ evs ∧
    durable σ' = c1 ∧
    (faults E n [ROLLBACK] ≠ Some O → o = None) ∧
    (o = None → res = inr tt ∧ σ' = {| cat := c1; txn := Idle |}).
Proof.
  intros Hd Hr. unfold remove_failed.
  erewrite bind_inr by reflexivity. norm_state.
  match goal with
  | |- context [(send_email E ?s ?b ≫= _) ?S] =>
      destruct (remover_send_email E s b S) as (ev & Hmail & Hev)
  end.
  erewrite bind_inr by exact Hmail. norm_state.
  match goal with
  | |- context [(cur_execute E [ROLLBACK] ≫= _)
                  {| db := _; autocommit := _; conn := _; calls := _; trace := ?tr' |}] =>
      destruct (cur_execute_rollback σ c1 cn n tr' Hd Hr)
        as (res & σ' & o & Hrb & Hd' & _ & Hf & Hok & Herr)
  end.
  destruct o as [err|].
  - destruct Herr as [e' ->]; [done|].
    erewrite bind_inl by exact Hrb.
    eexists _, σ', (Some err), [_; _; _]. split; [reflexivity|].
    split_and!; try done. left.
  - destruct Hok as [-> ->]; [done|].
    erewrite bind_inr by exact Hrb. norm_state.
    eexists _, _, None, [_; _; _; _]. split; [reflexivity|].
    split_and!; try done. right. left.
Qed.




End Failures.

Section DeleteFails.

Import Remove_Duplicates.

Context (E : env).
Implicit Types (st : state) (c : catalog) (r : relation) (t k : string).

(** C2 (amended).  Step 1 succeeds and step 2 fails: the except block
    sends ROLLBACK and the main table is as it was before the run; the side
    table, which step 1 committed, remains in the catalog. *)
Theorem delete_failure_is_rolled_back st c r t k :
  autocommit st = true → db st = {| cat := c; txn := Idle |} →
  c !! t = Some r → ordinary r → c !! side_table t = None →
  no_hit (faults E (calls st) (step1_sql t k)) 3 →
  ¬ no_hit (faults E (1 + calls st) (step2_sql t k)) 3 →
  ∃ res st' e o,
    remove_duplicates_from_table E t k st = (res, st') ∧
    Execute (calls st) (step1_sql t k) None ∈ trace st' ∧
    Execute (1 + calls st) (step2_sql t k) (Some e) ∈ trace st' ∧
    Execute (2 + calls st) [ROLLBACK] o ∈ trace st' ∧
    durable (db st') !! t = Some r ∧
    durable (db st') !! side_table t = Some (staged_relation r) ∧
    (o = None →
     res = inr tt ∧
     db st' = {| cat := <[side_table t := staged_relation r]> c; txn := Idle |}).
Proof.
  intros Ha Hdb Ht Hord Hs Hn1 Hn2. pose proof (side_table_ne t) as Hne.
  destruct st as [σ a cn n tr]. simpl in Ha, Hdb, Hn1, Hn2. subst σ a.
  cbn [calls].
  set (c1 := <[side_table t := staged_relation r]> c).
  unfold remove_duplicates_from_table.
  assert (Hsteps : ∃ e σ,
    remove_steps E t k
      {| db := {| cat := c; txn := Idle |}; autocommit := true; conn := cn;
         calls := n; trace := tr |}
    = (inl (DatabaseError e),
       {| db := σ; autocommit := true; conn := cn; calls := S (S n);
          trace := [Execute (S n) (step2_sql t k) (Some e);
                    Log ("Step 1: Duplicates inserted into temporary table for "
                           +:+ t +:+ ".");
                    Execute n (step1_sql t k) None] ++ tr |}) ∧
    durable σ = c1 ∧ (exec_stmt false ROLLBACK σ).1 = {| cat := c1; txn := Idle |}).
  { unfold remove_steps.
    erewrite bind_inr; last first.
    { apply (cur_execute_block_ok E _ [SELECT_INTO_DUPLICATES k t (side_table t)] c);
        [done | done | repeat constructor | by apply step1_block | done]. }
    fold c1. norm_state. erewrite bind_inr by reflexivity. norm_state.
    destruct (block_call E (step2_sql t k) [DELETE_USING t (side_table t) k] c1 cn (S n)
                (Log ("Step 1: Duplicates inserted into temporary table for "
                        +:+ t +:+ ".") :: Execute n (step1_sql t k) None :: tr)
                eq_refl ltac:(repeat constructor))
      as [(c' & _ & Hhit & _)|(e & σ & Hrun & Hd & Hr)]; [done|].
    erewrite bind_inl by exact Hrun. eauto. }
  destruct Hsteps as (e & σ & Hrun & Hd & Hr).
  erewrite try_except_inl by exact Hrun.
  match goal with
  | |- context [remove_failed E t _ {| db := _; autocommit := _; conn := _;
                                       calls := _; trace := ?tr' |}] =>
      destruct (remove_failed_result E t (DatabaseError e) σ c1 cn (S (S n)) tr' Hd Hr)
        as (res & σ' & o & evs & Hfail & Hin & Hd' & _ & Hok)
  end.
  rewrite Hfail. eexists res, _, e, o. split; [reflexivity|].
  cbn [trace db]. split_and!.
  - apply elem_of_app. right. do 2 right. left.
  - apply elem_of_app. right. left.
  - apply elem_of_app. by left.
  - rewrite Hd'. unfold c1. by rewrite lookup_insert_ne.
  - rewrite Hd'. unfold c1. apply lookup_insert_eq.
  - done.
Qed.

End DeleteFails.

Ltac by_compute := compute_done.

Section DeleteFailsOnSample.

Import Remove_Duplicates Sample.

Lemma delete_failure_is_rolled_back_witness :
  ∃ res st' e o,
    remove_duplicates_from_table (installation (fails_at 1 1)) "sales.orders" "order_id"
      (start warehouse true) = (res, st') ∧
    Execute 0 (step1_sql "sales.orders" "order_id") None ∈ trace st' ∧
    Execute 1 (step2_sql "sales.orders" "order_id") (Some e) ∈ trace st' ∧
    Execute 2 [ROLLBACK] o ∈ trace st' ∧
    durable (db st') !! "sales.orders" = Some (plain order_rows) ∧
    durable (db st') !! side_table "sales.orders" = Some (staged_relation (plain order_rows)) ∧
    (o = None →
     res = inr tt ∧
     db st' = {| cat := <[side_table "sales.orders" := staged_relation (plain order_rows)]>
                          warehouse;
                 txn := Idle |}).
Proof.
  apply (delete_failure_is_rolled_back (installation (fails_at 1 1)) (start warehouse true)
           warehouse (plain order_rows) "sales.orders" "order_id").
  - reflexivity.
  - reflexivity.
  - vm_compute. reflexivity.
  - apply ordinary_plain.
  - vm_compute. reflexivity.
  - simpl. exact I.
  - simpl. lia.
Defined.

(** C2 as stated fails: in a whole run whose third call (step 2 of
    sales.orders) fails at its DELETE, the ROLLBACK is sent and accepted,
    the connection is closed, and the side table is still in the catalog. *)
Lemma side_table_persists_counterexample :
  let st' := (remove_duplicates (installation (fails_at 2 1)) (start warehouse false)).2 in
  Execute 1 (step1_sql "sales.orders" "order_id") None ∈ trace st' ∧
  Execute 2 (step2_sql "sales.orders" "order_id") (Some Injected) ∈ trace st' ∧
  Execute 3 [ROLLBACK] None ∈ trace st' ∧
  Close ∈ trace st' ∧
  durable (db st') !! "sales.orders" = Some (plain order_rows) ∧
  durable (db st') !! "sales.orders_duplicates"
  = Some {| header := ["total_duplicates"; "duplicate_rn"];
            tuples := [([3; 1], row 1 5 [10])] |}.
Proof.
  intros st'. split_and!.
  - by_compute.
  - by_compute.
  - by_compute.
  - by_compute.
  - vm_compute. reflexivity.
  - vm_compute. reflexivity.
Qed.

End DeleteFailsOnSample.

(** * One table of the remover *)

Section ProcessTable.

Import Remove_Duplicates.

Context (E : env).
Implicit Types (st : state) (c : catalog) (σ : session) (r : relation) (t k : string).

Lemma process_section_target section t k st :
  String.prefix "yoda_hub" section = true → remover_target E section = Some (t, k) →
  process_section E section st = process_table E t k st.
Proof.
  intros Hp Ht. unfold process_section, remover_target, server_config in *. rewrite Hp.
  destruct (section_options _ section) as [cfg|]; [|done]. simpl in Ht.
  unfold getitem, mbind at 1 2 3 4, M_bind, mret, M_ret.
  destruct (cfg !! "table") as [tn|]; [|done]. simpl in Ht.
  destruct (cfg !! "unique_key") as [uk|]; [|done]. simpl in Ht.
  destruct (cfg !! "database") as [d|]; [|done]. simpl in Ht. by simplify_eq.
Qed.

Lemma process_section_other section st :
  String.prefix "yoda_hub" section = false → process_section E section st = (inr tt, st).
Proof. intros Hp. unfold process_section. by rewrite Hp. Qed.

Lemma cur_execute_add_events script evs st :
  (cur_execute E script (add_events evs st)).1 = (cur_execute E script st).1.
Proof.
  unfold cur_execute. simpl. by destruct (exec_script _ script [] _) as [σ [e|rows]].
Qed.

(** A detection that yields rows is a query that succeeded. *)
Lemma check_for_duplicates_some t k st rows st1 :
  check_for_duplicates E t k st = (inr (Some rows), st1) →
  cur_execute E (duplicate_check_query k t) st = (inr rows, st1).
Proof.
  unfold check_for_duplicates, try_except.
  destruct (cur_execute E _ st) as [[e|rows'] st2] eqn:Hq.
  - erewrite bind_inl by exact Hq.
    erewrite bind_inr by reflexivity.
    match goal with
    | |- context [(send_email E ?s ?b ≫= _) ?S] =>
        destruct (remover_send_email E s b S) as (ev & Hmail & Hev)
    end.
    erewrite bind_inr by exact Hmail. done.
  - erewrite bind_inr by exact Hq. by intros [= -> ->].
Qed.

(** The table is skipped: after a detection that failed or found nothing,
    process_table only logs and prints. *)
Lemma process_table_skip t k st res st1 :
  check_for_duplicates E t k
    (add_events [Log ("Checking for duplicates in " +:+ t +:+ "...")] st) = (inr res, st1) →
  res = None ∨ res = Some [] →
  process_table E t k st
  = (inr tt,
     add_events [Log ("No duplicates found in " +:+ t +:+ ". Skipping...");
                 Print ("No duplicates found in " +:+ t +:+ ". Skipping...")] st1).
Proof.
  intros Hcheck Hres. unfold process_table.
  erewrite bind_inr by reflexivity.
  erewrite bind_inr by exact Hcheck.
  destruct Hres as [-> | ->]; erewrite bind_inr by reflexivity;
    unfold log_to_file, emit; by rewrite add_events_add_events.
Qed.

End ProcessTable.

Section FailedDetection.

Import Remove_Duplicates.

Context (E : env).
Implicit Types (st : state) (t k section : string).

Lemma check_for_duplicates_failed t k st e :
  (cur_execute E (duplicate_check_query k t) st).1 = inl e →
  ∃ σ e' ev,
    check_for_duplicates E t k st
    = (inr None,
       add_events [ev; Log ("Error checking duplicates in " +:+ t +:+ ": "
                              +:+ str (DatabaseError e'))]
         (executed (duplicate_check_query k t) (Some e') σ st)) ∧
    ¬ is_execute ev ∧
    cat σ = cat (db st) ∧ durable σ = durable (db st).
Proof.
  intros Hq.
  destruct (check_for_duplicates_cases E st t k)
    as (σ & Hc & Hd & _ & [(r & _ & Hrun)|(e' & ev & Hrun & Hev)]).
  - apply check_for_duplicates_some in Hrun. rewrite Hrun in Hq. done.
  - exists σ, e', ev. split_and!; try done. destruct Hev as [->|[m ->]]; simpl; tauto.
Qed.

(** C10.  A detection that fails makes check_for_duplicates return None;
    process_section then takes the branch of a table without duplicates: no
    further statement is sent, the catalog is untouched, and the loop goes on
    with the next section. *)
Theorem failed_detection_skips_table section t k st e rest :
  String.prefix "yoda_hub" section = true → remover_target E section = Some (t, k) →
  (cur_execute E (duplicate_check_query k t) st).1 = inl e →
  ∃ st1 st' evs e',
    check_for_duplicates E t k st = (inr None, st1) ∧
    process_section E section st = (inr tt, st') ∧
    trace st' = evs ++ Execute (calls st) (duplicate_check_query k t) (Some e')
                    :: Log ("Checking for duplicates in " +:+ t +:+ "...") :: trace st ∧
    Forall (λ ev, ¬ is_execute ev) evs ∧
    cat (db st') = cat (db st) ∧ durable (db st') = durable (db st) ∧
    for_each (section :: rest) (process_section E) st
    = for_each rest (process_section E) st'.
Proof.
  intros Hp Ht Hq.
  destruct (check_for_duplicates_failed t k st e Hq) as (σ0 & e0 & ev0 & Hrun0 & _).
  set (st_log := add_events [Log ("Checking for duplicates in " +:+ t +:+ "...")] st).
  assert (Hq' : (cur_execute E (duplicate_check_query k t) st_log).1 = inl e)
    by (unfold st_log; by rewrite cur_execute_add_events).
  destruct (check_for_duplicates_failed t k st_log e Hq')
    as (σ & e' & ev & Hrun & Hev & Hc & Hd).
  assert (Hsec : process_section E section st
                 = (inr tt,
                    add_events [Log ("No duplicates found in " +:+ t +:+ ". Skipping...");
                                Print ("No duplicates found in " +:+ t +:+ ". Skipping...")]
                      (add_events [ev; Log ("Error checking duplicates in " +:+ t +:+ ": "
                                              +:+ str (DatabaseError e'))]
                         (executed (duplicate_check_query k t) (Some e') σ st_log)))).
  { rewrite (process_section_target E section t k) by done.
    apply (process_table_skip E t k st None); [exact Hrun | by left]. }
  eexists _, _, [_; _; _; _], e'. split; [exact Hrun0|]. split; [exact Hsec|].
  split_and!.
  - reflexivity.
  - repeat constructor; try done; simpl; tauto.
  - exact Hc.
  - exact Hd.
  - cbn [for_each]. erewrite bind_inr by exact Hsec. done.
Qed.

End FailedDetection.

(** * One table of the checker *)

Section ReportTable.

Import Check_Duplicates.

Context (E : env).
Implicit Types (st : state) (σ : session) (r : relation).

Lemma checker_section_target ec url section k d tn h task st :
  String.prefix "yoda_hub" section = true →
  checker_target E section = Some (k, d, tn, h, task) →
  process_section E ec url section st = report_table E ec url k d tn h task st.
Proof.
  intros Hp Ht.
  unfold process_section, get_table_config, checker_target, server_config in *. rewrite Hp.
  destruct (section_options _ section) as [cfg|]; [|done]. simpl in Ht.
  unfold getitem, mbind at 1 2 3 4 5 6, M_bind, mret, M_ret.
  destruct (cfg !! "unique_key"); [|done]. simpl in Ht.
  destruct (cfg !! "database"); [|done]. simpl in Ht.
  destruct (cfg !! "table"); [|done]. simpl in Ht.
  destruct (cfg !! "host"); [|done]. simpl in Ht.
  destruct (cfg !! "replication_task"); [|done]. simpl in Ht. by simplify_eq.
Qed.

Lemma smtp_conversation_ready cfg subject body st :
  smtp_ready E cfg →
  smtp_conversation E cfg subject body st = (inr tt, add_events [Email subject body] st).
Proof.
  intros [Hok Hkeys]. unfold smtp_conversation, getitem, mbind, M_bind, mret, M_ret, emit.
  rewrite Hok.
  repeat (apply Forall_cons in Hkeys as [[? ->] Hkeys]). done.
Qed.

(** send_email of the checker never raises. *)
Lemma checker_send_email subject body cfg st :
  ∃ evs, send_email E subject body cfg st = (inr tt, add_events evs st) ∧
         (evs = [Print ("Email sent at " +:+ now E +:+ nl); Email subject body]
          ∨ ∃ m, evs = [Log m]) ∧
         (smtp_ready E cfg → Email subject body ∈ evs).
Proof.
  unfold send_email, try_except.
  destruct (smtp_conversation_result E cfg subject body st) as [Hs|[e Hs]].
  - erewrite bind_inr by exact Hs. unfold print, emit. rewrite add_events_add_events.
    eexists. split; [reflexivity|]. split; [by left|]. intros _. right. left.
  - erewrite bind_inl by exact Hs. eexists. split; [reflexivity|]. split; [eauto|].
    intros Hr. rewrite smtp_conversation_ready in Hs by done. done.
Qed.

(** send_slack_alert never raises; once the webhook answers, the message
    has been posted. *)
Lemma checker_send_slack_alert message url st :
  ∃ evs, send_slack_alert E message url st = (inr tt, add_events evs st) ∧
         Forall (λ ev, is_alert ev → ∃ status, ev = Slack message status) evs ∧
         (∀ status, webhook E = Some status → Slack message status ∈ evs).
Proof.
  unfold send_slack_alert, try_except.
  destruct (webhook E) as [status|].
  - erewrite bind_inr by reflexivity. destruct (decide (status ≠ 200%nat));
      unfold log_to_file, print, emit; rewrite add_events_add_events;
      (eexists; split; [reflexivity|]); (split; [|intros ? [= <-]; right; left]);
      repeat constructor; simpl; try tauto; eauto.
  - eexists. split; [reflexivity|]. split; [|done]. repeat constructor. simpl. tauto.
Qed.

(** The three ways report_table ends: the query fails and the exception
    leaves the loop; the table has no duplicates and a line is printed; or
    the report is printed, mailed and posted. *)
Lemma report_table_cases ec url k d tn h task st :
  let t := d +:+ "." +:+ tn in
  let q := [SELECT_DUPLICATES k t] in
  ∃ σ, cat σ = cat (db st) ∧ durable σ = durable (db st) ∧
       (cat (db st) = durable (db st) → cat σ = durable σ) ∧
  ((∃ e, report_table E ec url k d tn h task st
         = (inl (DatabaseError e), executed q (Some e) σ st) ∧
         (cur_execute E q st).1 = inl (DatabaseError e))
   ∨ (∃ r, cat (db st) !! t = Some r ∧ select_duplicates (tuples r) = [] ∧
           report_table E ec url k d tn h task st
           = (inr tt, add_events [Print ("No duplicate found in " +:+ d +:+ "." +:+ tn
                                           +:+ " at " +:+ now E)]
                        (executed q None σ st)) ∧
           (cur_execute E q st).1 = inr [])
   ∨ (∃ r evs_mail evs_slack,
        let rows := select_duplicates (tuples r) in
        let output := duplicate_info d tn (group_duplicates rows) in
        let subject := "Duplicate(s) found in " +:+ d +:+ "." +:+ tn +:+ " at " +:+ now E in
        let body := alert_text (now E) h task d tn k (length rows) +:+ output in
        let message := slack_text d tn output in
        cat (db st) !! t = Some r ∧ rows ≠ [] ∧
        report_table E ec url k d tn h task st
        = (inr tt, add_events (evs_slack ++ evs_mail ++ [Print output])
                     (executed q None σ st)) ∧
        (evs_mail = [Print ("Email sent at " +:+ now E +:+ nl); Email subject body]
         ∨ ∃ m, evs_mail = [Log m]) ∧
        (smtp_ready E ec → Email subject body ∈ evs_mail) ∧
        Forall (λ ev, is_alert ev → ∃ status, ev = Slack message status) evs_slack ∧
        (∀ status, webhook E = Some status → Slack message status ∈ evs_slack) ∧
        (cur_execute E q st).1 = inr rows)).
Proof.
  intros t q.
  destruct (cur_execute_select E k t st) as (σ & Hc & Hd & _ & Hq). fold q in Hq.
  exists σ. split_and!; [congruence..|].
  destruct Hq as [(e & Hq)|(r & Hr & Hq)].
  - left. exists e. split; [|by rewrite Hq]. unfold report_table. by erewrite bind_inl.
  - destruct (select_duplicates (tuples r)) as [|g rows] eqn:Hrows.
    + right. left. exists r. split_and!; try done; [|by rewrite Hq].
      unfold report_table. by erewrite bind_inr by exact Hq.
    + right. right. rewrite <- Hrows in Hq.
      set (rs := select_duplicates (tuples r)) in *.
      set (output := duplicate_info d tn (group_duplicates rs)).
      set (st1 := add_events [Print output] (executed q None σ st)).
      destruct (checker_send_email
                  ("Duplicate(s) found in " +:+ d +:+ "." +:+ tn +:+ " at " +:+ now E)
                  (alert_text (now E) h task d tn k (length rs) +:+ output) ec st1)
        as (evs_mail & Hmail & Hm1 & Hm2).
      destruct (checker_send_slack_alert (slack_text d tn output) url
                  (add_events evs_mail st1))
        as (evs_slack & Hslack & Hs1 & Hs2).
      exists r, evs_mail, evs_slack. cbn zeta. fold rs. fold output.
      split_and!; try done; [| |by rewrite Hq].
      * rewrite Hrows. done.
      * unfold report_table. erewrite bind_inr by exact Hq. rewrite Hrows.
        rewrite <- Hrows. fold rs. unfold print_duplicate_info.
        erewrite bind_inr by (erewrite bind_inr by reflexivity; reflexivity).
        fold output. fold st1. erewrite bind_inr by exact Hmail.
        rewrite Hslack. unfold st1. rewrite !add_events_add_events.
        by rewrite <- !app_assoc.
Qed.

End ReportTable.

(** * Tables without duplicates *)

Section NoDuplicates.

Context (E : env).
Implicit Types (st : state) (r : relation) (t k section : string).

(** C7.  A configured table in which no (dateCreated, unique_key) pair is
    shared: the detection query finds nothing; the checker sends neither a
    mail nor a chat message for it; the remover sends no statement but the
    detection query and leaves the catalog, hence the table and its row
    count, as they are. *)
Theorem no_duplicates_no_action ec url section t k d tn h task st r :
  String.prefix "yoda_hub" section = true →
  remover_target E section = Some (t, k) →
  checker_target E section = Some (k, d, tn, h, task) → t = d +:+ "." +:+ tn →
  cat (db st) !! t = Some r →
  (∀ date key, (count_pair date key (tuples r) ≤ 1)%nat) →
  select_duplicates (tuples r) = [] ∧
  (∀ rows st1,
     Remove_Duplicates.check_for_duplicates E t k st = (inr (Some rows), st1) → rows = []) ∧
  (∃ res st' evs,
     Check_Duplicates.process_section E ec url section st = (res, st') ∧
     trace st' = evs ++ trace st ∧ Forall (λ ev, ¬ is_alert ev) evs) ∧
  (∃ st' evs,
     Remove_Duplicates.process_section E section st = (inr tt, st') ∧
     trace st' = evs ++ trace st ∧
     Forall (λ ev, ∀ n script o, ev = Execute n script o →
                   script = Remove_Duplicates.duplicate_check_query k t) evs ∧
     cat (db st') = cat (db st) ∧
     cat (db st') !! t = Some r).
Proof.
  intros Hp Hrt Hct -> Hr Hnone.
  assert (Hnil : select_duplicates (tuples r) = []) by (by apply select_duplicates_nil).
  split; [done|]. split_and!.
  - intros rows st1 Hrun.
    destruct (check_for_duplicates_cases E st (d +:+ "." +:+ tn) k)
      as (σ & _ & _ & _ & [(r' & Hr' & Hrun')|(e & ev & Hrun' & _)]);
      rewrite Hrun' in Hrun; [|done].
    rewrite Hr in Hr'. by simplify_eq.
  - rewrite (checker_section_target E ec url section k d tn h task) by done.
    destruct (report_table_cases E ec url k d tn h task st)
      as (σ & _ & _ & _ &
          [(e & Hrun & _)|[(r' & Hr' & _ & Hrun & _)|(r' & em & es & Hr' & Hne & _)]]).
    + eexists _, _, [_]. split; [exact Hrun|]. split; [reflexivity|].
      repeat constructor. simpl. tauto.
    + eexists _, _, [_; _]. split; [exact Hrun|]. split; [reflexivity|].
      repeat constructor; simpl; tauto.
    + rewrite Hr in Hr'. simplify_eq.
  - rewrite (process_section_target E section (d +:+ "." +:+ tn) k) by done.
    set (t := d +:+ "." +:+ tn) in *.
    set (st_log := add_events [Log ("Checking for duplicates in " +:+ t +:+ "...")] st).
    destruct (check_for_duplicates_cases E st_log t k)
      as (σ & Hc & _ & _ & [(r' & Hr' & Hrun)|(e & ev & Hrun & Hev)]).
    + assert (r' = r) as -> by (simpl in Hr'; rewrite Hr in Hr'; by simplify_eq).
      rewrite Hnil in Hrun.
      eexists _, [_; _; _; _]. split.
      { apply (process_table_skip E t k st (Some [])); [exact Hrun | by right]. }
      split; [reflexivity|]. cbn [db add_events executed]. split_and!; try done.
      * repeat constructor; intros n script o [= <- <- <-]; done.
      * rewrite Hc. done.
    + eexists _, [_; _; _; _; _; _]. split.
      { apply (process_table_skip E t k st None); [exact Hrun | by left]. }
      split; [reflexivity|]. cbn [db add_events executed]. split_and!; try done.
      * repeat constructor; intros n script o Heq; try discriminate Heq.
        -- destruct Hev as [->|[m ->]]; discriminate Heq.
        -- by injection Heq as <- <- <-.
      * rewrite Hc. done.
Qed.

End NoDuplicates.

Section SkippedOnSample.

Import Sample.

Lemma failed_detection_skips_table_witness :
  ∃ st1 st' evs e',
    Remove_Duplicates.check_for_duplicates (installation (fails_at 0 0))
      "sales.orders" "order_id" (start warehouse true) = (inr None, st1) ∧
    Remove_Duplicates.process_section (installation (fails_at 0 0)) "yoda_hub_orders"
      (start warehouse true) = (inr tt, st') ∧
    trace st' = evs ++ Execute 0 (Remove_Duplicates.duplicate_check_query "order_id"
                                     "sales.orders") (Some e')
                    :: Log ("Checking for duplicates in " +:+ "sales.orders" +:+ "...")
                    :: [] ∧
    Forall (λ ev, ¬ is_execute ev) evs ∧
    cat (db st') = warehouse ∧ durable (db st') = warehouse ∧
    for_each ["yoda_hub_orders"; "yoda_hub_customers"]
      (Remove_Duplicates.process_section (installation (fails_at 0 0))) (start warehouse true)
    = for_each ["yoda_hub_customers"]
        (Remove_Duplicates.process_section (installation (fails_at 0 0))) st'.
Proof.
  apply (failed_detection_skips_table (installation (fails_at 0 0)) "yoda_hub_orders"
           "sales.orders" "order_id" (start warehouse true) (DatabaseError Injected)
           ["yoda_hub_customers"]).
  - reflexivity.
  - vm_compute. reflexivity.
  - vm_compute. reflexivity.
Defined.

Lemma no_duplicates_no_action_witness :
  select_duplicates (tuples (plain clean_rows)) = [] ∧
  (∀ rows st1,
     Remove_Duplicates.check_for_duplicates (installation no_faults) "sales.orders"
       "order_id" (start clean_warehouse true) = (inr (Some rows), st1) → rows = []) ∧
  (∃ res st' evs,
     Check_Duplicates.process_section (installation no_faults) email_config "hook"
       "yoda_hub_orders" (start clean_warehouse true) = (res, st') ∧
     trace st' = evs ++ [] ∧ Forall (λ ev, ¬ is_alert ev) evs) ∧
  (∃ st' evs,
     Remove_Duplicates.process_section (installation no_faults) "yoda_hub_orders"
       (start clean_warehouse true) = (inr tt, st') ∧
     trace st' = evs ++ [] ∧
     Forall (λ ev, ∀ n script o, ev = Execute n script o →
                   script = Remove_Duplicates.duplicate_check_query "order_id"
                              "sales.orders") evs ∧
     cat (db st') = clean_warehouse ∧
     cat (db st') !! "sales.orders" = Some (plain clean_rows)).
Proof.
  apply (no_duplicates_no_action (installation no_faults) email_config "hook"
           "yoda_hub_orders" "sales.orders" "order_id" "sales" "orders" "src-host" "task-7"
           (start clean_warehouse true) (plain clean_rows)).
  - reflexivity.
  - vm_compute. reflexivity.
  - vm_compute. reflexivity.
  - reflexivity.
  - vm_compute. reflexivity.
  - apply select_duplicates_nil. vm_compute. reflexivity.
Defined.

End SkippedOnSample.

(** * The loop over the sections *)

Section RemoverLoop.

Import Remove_Duplicates.

Context (E : env).
Context (rollback_accepted : ∀ m, faults E m [ROLLBACK] ≠ Some O).
Implicit Types (c : catalog) (t k section : string).




End RemoverLoop.

Section RemoverRun.

Import Remove_Duplicates.

Context (E : env).
Implicit Types (st : state) (c : catalog) (t k section : string).


End RemoverRun.

Section PerTableErrors.

Context (E : env).
Implicit Types (st : state) (t k section : string).



End PerTableErrors.

Section PerTableErrorsOnSample.

Import Sample.



End PerTableErrorsOnSample.

(** * Running the remover twice *)

Section Idempotence.

Import Remove_Duplicates.

Context (E : env).
Implicit Types (st : state) (c : catalog) (r : relation) (t k section : string).

Lemma count_pair_le_key d key (ts : list tuple) :
  (count_pair d key ts ≤ count_key key ts)%nat.
Proof.
  unfold count_pair, count_key. induction ts as [|x ts IH]; [done|].
  rewrite !filter_cons.
  destruct (decide (tdate x = d ∧ tkey x = key)) as [[_ Hk]|Hn].
  - rewrite decide_True by done. simpl. lia.
  - destruct (decide (tkey x = key)); simpl; lia.
Qed.

(** After the four steps the detection query finds nothing, unless several
    rows had a NULL key. *)
Lemma select_duplicates_deduplicated (ts : list tuple) :
  (count_key None ts ≤ 1)%nat → select_duplicates (deduplicated ts) = [].
Proof.
  intros Hnull. apply select_duplicates_nil. intros d key.
  pose proof (count_pair_le_key d key (deduplicated ts)) as Hle.
  destruct key as [z|].
  - rewrite count_key_deduplicated in Hle. lia.
  - rewrite count_null_deduplicated, decide_False in Hle by lia. lia.
Qed.

Lemma check_for_duplicates_ok t k c r cn n tr :
  c !! t = Some r → no_hit (faults E n (duplicate_check_query k t)) 1 →
  check_for_duplicates E t k
    {| db := {| cat := c; txn := Idle |}; autocommit := true; conn := cn;
       calls := n; trace := tr |}
  = (inr (Some (select_duplicates (tuples r))),
     {| db := {| cat := c; txn := Idle |}; autocommit := true; conn := cn;
        calls := S n; trace := Execute n (duplicate_check_query k t) None :: tr |}).
Proof.
  intros Hr Hn. unfold check_for_duplicates, try_except.
  erewrite bind_inr; [reflexivity|].
  unfold cur_execute. cbn [autocommit db calls].
  unfold duplicate_check_query in *. by rewrite (exec_select_ok _ k t c r).
Qed.

(** A table without duplicates is left alone. *)
Lemma process_table_clean t k c r cn n tr :
  c !! t = Some r → select_duplicates (tuples r) = [] →
  no_hit (faults E n (duplicate_check_query k t)) 1 →
  process_table E t k
    {| db := {| cat := c; txn := Idle |}; autocommit := true; conn := cn;
       calls := n; trace := tr |}
  = (inr tt,
     {| db := {| cat := c; txn := Idle |}; autocommit := true; conn := cn; calls := S n;
        trace := [Log ("No duplicates found in " +:+ t +:+ ". Skipping...");
                  Print ("No duplicates found in " +:+ t +:+ ". Skipping...");
                  Execute n (duplicate_check_query k t) None;
                  Log ("Checking for duplicates in " +:+ t +:+ "...")] ++ tr |}).
Proof.
  intros Hr Hnil Hn.
  rewrite (process_table_skip E t k _ (Some [])
             {| db := {| cat := c; txn := Idle |}; autocommit := true; conn := cn;
                calls := S n;
                trace := Execute n (duplicate_check_query k t) None
                         :: Log ("Checking for duplicates in " +:+ t +:+ "...") :: tr |});
    [reflexivity| |by right].
  norm_state. rewrite <- Hnil. by apply check_for_duplicates_ok.
Qed.

(** A table with duplicates goes through the four steps. *)
Lemma process_table_removes t k c r cn n tr :
  c !! t = Some r → select_duplicates (tuples r) ≠ [] →
  ordinary r → c !! side_table t = None → quiet (faults E) n 5 →
  ∃ evs,
    process_table E t k
      {| db := {| cat := c; txn := Idle |}; autocommit := true; conn := cn;
         calls := n; trace := tr |}
    = (inr tt,
       {| db := {| cat := <[t := deduplicated_relation r]> c; txn := Idle |};
          autocommit := true; conn := cn; calls := 5 + n; trace := evs ++ tr |}).
Proof.
  intros Hr Hne Hord Hs Hq. unfold process_table.
  erewrite bind_inr by reflexivity. norm_state.
  erewrite bind_inr; last first.
  { apply (check_for_duplicates_ok t k c r); [done|].
    rewrite <- (Nat.add_0_r n), Hq by lia. done. }
  destruct (select_duplicates (tuples r)) as [|g rows]; [done|].
  erewrite bind_inr by reflexivity. erewrite bind_inr by reflexivity. norm_state.
  match goal with
  | |- context [remove_duplicates_from_table E t k ?S] =>
      destruct (remove_duplicates_from_table_ok E S c r t k) as (ev & Hrun & _);
        try done
  end.
  { intros i script Hi. cbn [calls].
    replace (S n + i)%nat with (n + S i)%nat by lia. apply Hq. lia. }
  rewrite Hrun. norm_state. by eexists [_; _; _; _; _; _; _; _; _; _; _; _; _].
Qed.

Context (no_faults : ∀ n script, faults E n script = None).

Lemma no_faults_quiet n m : quiet (faults E) n m.
Proof. intros i script _. apply no_faults. Qed.

(** A table that does not exist: the detection fails and the table is
    skipped. *)
Lemma process_table_missing t k c cn n tr :
  c !! t = None →
  ∃ evs,
    process_table E t k
      {| db := {| cat := c; txn := Idle |}; autocommit := true; conn := cn;
         calls := n; trace := tr |}
    = (inr tt, {| db := {| cat := c; txn := Idle |}; autocommit := true; conn := cn;
                  calls := S n; trace := evs ++ tr |}) ∧
    Forall (λ ev, is_execute ev → ∃ o, ev = Execute n (duplicate_check_query k t) o) evs.
Proof.
  intros Hr.
  set (st_log := {| db := {| cat := c; txn := Idle |}; autocommit := true; conn := cn;
                    calls := n;
                    trace := Log ("Checking for duplicates in " +:+ t +:+ "...") :: tr |}).
  destruct (check_for_duplicates_cases E st_log t k)
    as (σ & _ & _ & Hσ & [(r & Hr' & _)|(e & ev & Hrun & Hev)]).
  { simpl in Hr'. congruence. }
  rewrite Hσ in Hrun by done.
  eexists [_; _; _; _; _; _]. split.
  - erewrite (process_table_skip E t k _ None); [|exact Hrun|by left]. reflexivity.
  - repeat constructor; simpl; try tauto; eauto.
    destruct Hev as [->|[m ->]]; simpl; tauto.
Qed.

(** One section of a run without failures: the catalog stays as it is or
    the table of the section is replaced by its deduplicated form; either
    way that table is clean afterwards. *)
Lemma process_section_quiet secs section c cn n tr :
  removable E secs c → section ∈ secs →
  (String.prefix "yoda_hub" section = true → is_Some (remover_target E section)) →
  ∃ c1 m evs,
    process_section E section
      {| db := {| cat := c; txn := Idle |}; autocommit := true; conn := cn;
         calls := n; trace := tr |}
    = (inr tt, {| db := {| cat := c1; txn := Idle |}; autocommit := true; conn := cn;
                  calls := m; trace := evs ++ tr |}) ∧
    (c1 = c ∨ ∃ t r, c !! t = Some r ∧ ordinary r ∧
                     (count_key None (tuples r) ≤ 1)%nat ∧ c !! side_table t = None ∧
                     c1 = <[t := deduplicated_relation r]> c) ∧
    (∀ t k, String.prefix "yoda_hub" section = true →
            remover_target E section = Some (t, k) → clean c1 t) ∧
    ((∀ t k, String.prefix "yoda_hub" section = true →
             remover_target E section = Some (t, k) → clean c t) →
     c1 = c ∧
     Forall (λ ev, is_execute ev → ∃ i k t o, ev = Execute i (duplicate_check_query k t) o)
       evs).
Proof.
  intros Hrem Hin Hcfg. destruct (String.prefix "yoda_hub" section) eqn:Hp.
  - destruct (Hcfg eq_refl) as [[t k] Ht].
    rewrite (process_section_target E section t k) by done.
    destruct (Hrem section t k Hin Hp Ht) as [Hs Hord].
    destruct (c !! t) as [r|] eqn:Hr.
    + destruct (decide (select_duplicates (tuples r) = [])) as [Hnil|Hne].
      * rewrite (process_table_clean t k c r) by (done || by rewrite no_faults).
        eexists c, _, _. split; [reflexivity|]. split_and!.
        -- by left.
        -- intros t' k' _ Ht' r' Hr'. simplify_eq. done.
        -- intros _. split; [done|]. repeat constructor; simpl; try tauto; eauto.
      * destruct (process_table_removes t k c r cn n tr) as (evs & Hrun);
          [done | done | by apply Hord | done | apply no_faults_quiet |].
        rewrite Hrun. eexists _, _, evs. split; [reflexivity|]. split_and!.
        -- right. exists t, r. split_and!; try done; by apply Hord.
        -- intros t' k' _ Ht' r' Hr'. simplify_eq. rewrite lookup_insert_eq in Hr'.
           simplify_eq. apply select_duplicates_deduplicated. by apply Hord.
        -- intros Hclean. destruct Hne. by apply (Hclean t k).
    + destruct (process_table_missing t k c cn n tr Hr) as (evs & Hrun & Hev).
      rewrite Hrun. eexists c, _, evs. split; [reflexivity|]. split_and!.
      * by left.
      * intros t' k' _ Ht' r' Hr'. simplify_eq.
      * intros _. split; [done|]. eapply Forall_impl; [exact Hev|]. simpl.
        intros ev Hx Hexec. destruct (Hx Hexec) as [o ->]. eauto.
  - rewrite process_section_other by done. exists c, n, []. split; [done|]. split_and!.
    + by left.
    + done.
    + done.
Qed.

Lemma removable_deduplicated secs c t r :
  removable E secs c → c !! t = Some r → ordinary r →
  (count_key None (tuples r) ≤ 1)%nat →
  removable E secs (<[t := deduplicated_relation r]> c).
Proof.
  intros Hrem Hr Hord Hnull s t' k' Hin Hp Ht'.
  destruct (Hrem s t' k' Hin Hp Ht') as [Hs Ho].
  split.
  - rewrite lookup_insert_ne; [done|]. intros Heq. rewrite Heq in Hr. congruence.
  - intros r'. destruct (decide (t = t')) as [<-|Hne].
    + rewrite lookup_insert_eq. intros [= <-]. split; [exact Hord|].
      cbn [deduplicated_relation tuples].
      rewrite count_null_deduplicated, decide_False by lia. done.
    + rewrite lookup_insert_ne by done. apply Ho.
Qed.

Lemma clean_deduplicated c t r x :
  (count_key None (tuples r) ≤ 1)%nat →
  clean c x → clean (<[t := deduplicated_relation r]> c) x.
Proof.
  intros Hnull Hc r'. destruct (decide (t = x)) as [<-|Hne].
  - rewrite lookup_insert_eq. intros [= <-]. by apply select_duplicates_deduplicated.
  - rewrite lookup_insert_ne by done. apply Hc.
Qed.

(** The loop of a run without failures: afterwards every table it worked
    on is clean; on a catalog whose tables are clean already it only sends
    the detection queries and changes nothing. *)
Lemma remover_loop_quiet secs_all secs c cn n tr :
  removable E secs_all c → (∀ s, s ∈ secs → s ∈ secs_all) →
  Forall (λ s, String.prefix "yoda_hub" s = true → is_Some (remover_target E s)) secs →
  ∃ c' m evs,
    for_each secs (process_section E)
      {| db := {| cat := c; txn := Idle |}; autocommit := true; conn := cn;
         calls := n; trace := tr |}
    = (inr tt, {| db := {| cat := c'; txn := Idle |}; autocommit := true; conn := cn;
                  calls := m; trace := evs ++ tr |}) ∧
    removable E secs_all c' ∧
    (∀ t, clean c t → clean c' t) ∧
    (∀ s t k, s ∈ secs → String.prefix "yoda_hub" s = true →
              remover_target E s = Some (t, k) → clean c' t) ∧
    ((∀ s t k, s ∈ secs → String.prefix "yoda_hub" s = true →
               remover_target E s = Some (t, k) → clean c t) →
     c' = c ∧
     Forall (λ ev, is_execute ev → ∃ i k t o, ev = Execute i (duplicate_check_query k t) o)
       evs).
Proof.
  intros Hrem Hsub Hcfg. revert c n tr Hrem.
  induction Hcfg as [|s secs Hs Hcfg IH]; intros c n tr Hrem.
  - exists c, n, []. split; [done|]. split_and!; try done.
    intros s t k Hin. by apply elem_of_nil in Hin.
  - cbn [for_each].
    destruct (process_section_quiet secs_all s c cn n tr Hrem)
      as (c1 & m1 & evs1 & Hrun1 & Hc1 & Hclean1 & Hsame1);
      [apply Hsub; left | done |].
    erewrite bind_inr by exact Hrun1.
    assert (Hrem1 : removable E secs_all c1).
    { destruct Hc1 as [->|(t & r & Hr & Hord & Hnull & _ & ->)]; [done|].
      by apply removable_deduplicated. }
    assert (Hkeep1 : ∀ x, clean c x → clean c1 x).
    { intros x Hx. destruct Hc1 as [->|(t & r & _ & _ & Hnull & _ & ->)]; [done|].
      by apply clean_deduplicated. }
    assert (Hsub' : ∀ s', s' ∈ secs → s' ∈ secs_all)
      by (intros s' Hs'; apply Hsub; by right).
    destruct (IH Hsub' c1 m1 (evs1 ++ tr) Hrem1)
      as (c2 & m2 & evs2 & Hrun2 & Hrem2 & Hkeep2 & Hclean2 & Hsame2).
    rewrite Hrun2. exists c2, m2, (evs2 ++ evs1). rewrite <- app_assoc.
    split; [done|]. split_and!.
    + done.
    + intros x Hx. by apply Hkeep2, Hkeep1.
    + intros s' t k Hin Hp Ht. apply elem_of_cons in Hin as [->|Hin].
      * apply Hkeep2. by apply (Hclean1 t k).
      * by apply (Hclean2 s' t k).
    + intros Hall.
      destruct Hsame1 as [-> Hev1].
      { intros t k Hp Ht. apply (Hall s t k); [left|done..]. }
      destruct Hsame2 as [-> Hev2].
      { intros s' t k Hin Hp Ht. apply (Hall s' t k); [by right|done..]. }
      split; [done|]. by apply Forall_app.
Qed.

(** remove_duplicates around its loop, once the connection is made. *)
Lemma remove_duplicates_connected st lake host database c' m evs :
  connect_ok E = true →
  section_options (read_ini E "r_duplicates.ini") "yoda_r_lake" = Some lake →
  lake !! "host" = Some host → lake !! "database" = Some database →
  for_each (sections (read_ini E "r_duplicates.ini")) (process_section E)
    {| db := {| cat := durable (db st); txn := Idle |}; autocommit := true; conn := true;
       calls := calls st;
       trace := [Connect;
                 Print ("Connecting to " +:+ host +:+ " database " +:+ database +:+ "...");
                 Log ("Connecting to " +:+ host +:+ " database " +:+ database +:+ "...")]
                ++ trace st |}
  = (inr tt,
     {| db := {| cat := c'; txn := Idle |}; autocommit := true; conn := true; calls := m;
        trace := evs ++ [Connect;
                 Print ("Connecting to " +:+ host +:+ " database " +:+ database +:+ "...");
                 Log ("Connecting to " +:+ host +:+ " database " +:+ database +:+ "...")]
                ++ trace st |}) →
  remove_duplicates E st
  = (inr tt,
     {| db := {| cat := c'; txn := Idle |}; autocommit := true; conn := true; calls := m;
        trace := [Print "Connection closed."; Close] ++ evs
                 ++ [Connect;
                     Print ("Connecting to " +:+ host +:+ " database " +:+ database +:+ "...");
                     Log ("Connecting to " +:+ host +:+ " database " +:+ database +:+ "...")]
                 ++ trace st |}).
Proof.
  intros Hconn Hlake Hhost Hdb Hloop. destruct st as [σ a cn n tr].
  unfold remove_duplicates, server_config. rewrite Hlake.
  erewrite bind_inr by reflexivity. erewrite bind_inr by reflexivity.
  unfold try_finally, try_except, getitem. rewrite Hhost, Hdb.
  erewrite bind_inr by reflexivity. erewrite bind_inr by reflexivity.
  erewrite bind_inr by reflexivity. erewrite bind_inr by reflexivity.
  unfold pg_connect. rewrite Hconn.
  erewrite bind_inr by reflexivity. erewrite bind_inr by reflexivity.
  unfold assign_conn, set_autocommit, log_to_file, print, emit. norm_state.
  cbn [db calls trace app] in Hloop. rewrite Hloop. reflexivity.
Qed.

(** C4 (amended).  Two runs of the remover in succession, without
    failures, on a catalog where the side-table names of the configured
    tables are free, the configured tables have no column named like the
    bookkeeping columns and none of them has several rows with a NULL key:
    after the first run the detection query finds nothing in any configured
    table, and the second run sends no statement but the detection queries
    and leaves the catalog as the first run left it. *)
Theorem removal_is_idempotent st lake host database :
  connect_ok E = true →
  section_options (read_ini E "r_duplicates.ini") "yoda_r_lake" = Some lake →
  lake !! "host" = Some host → lake !! "database" = Some database →
  Forall (λ s, String.prefix "yoda_hub" s = true → is_Some (remover_target E s))
    (sections (read_ini E "r_duplicates.ini")) →
  removable E (sections (read_ini E "r_duplicates.ini")) (durable (db st)) →
  ∃ st1 st2 evs2,
    remove_duplicates E st = (inr tt, st1) ∧
    remove_duplicates E st1 = (inr tt, st2) ∧
    (∀ s t k, s ∈ sections (read_ini E "r_duplicates.ini") →
              String.prefix "yoda_hub" s = true → remover_target E s = Some (t, k) →
              clean (cat (db st1)) t) ∧
    db st2 = db st1 ∧
    trace st2 = evs2 ++ trace st1 ∧
    Forall (λ ev, is_execute ev → ∃ i k t o, ev = Execute i (duplicate_check_query k t) o)
      evs2.
Proof.
  intros Hconn Hlake Hhost Hdb Hcfg Hrem.
  set (secs := sections (read_ini E "r_duplicates.ini")) in *.
  destruct (remover_loop_quiet secs secs (durable (db st)) true (calls st)
              ([Connect;
                Print ("Connecting to " +:+ host +:+ " database " +:+ database +:+ "...");
                Log ("Connecting to " +:+ host +:+ " database " +:+ database +:+ "...")]
               ++ trace st) Hrem (λ s Hs, Hs) Hcfg)
    as (c1 & m1 & evs1 & Hloop1 & Hrem1 & _ & Hclean1 & _).
  pose proof (remove_duplicates_connected st lake host database c1 m1 evs1
                Hconn Hlake Hhost Hdb Hloop1) as Hrun1.
  set (st1 := {| db := {| cat := c1; txn := Idle |}; autocommit := true; conn := true;
                 calls := m1; trace := _ |}) in Hrun1.
  destruct (remover_loop_quiet secs secs (durable (db st1)) true (calls st1)
              ([Connect;
                Print ("Connecting to " +:+ host +:+ " database " +:+ database +:+ "...");
                Log ("Connecting to " +:+ host +:+ " database " +:+ database +:+ "...")]
               ++ trace st1) Hrem1 (λ s Hs, Hs) Hcfg)
    as (c2 & m2 & evs2 & Hloop2 & _ & _ & _ & Hsame).
  destruct (Hsame Hclean1) as [-> Hev2].
  pose proof (remove_duplicates_connected st1 lake host database _ m2 evs2
                Hconn Hlake Hhost Hdb Hloop2) as Hrun2.
  eexists st1, _, _. split; [exact Hrun1|]. split; [exact Hrun2|].
  split; [exact Hclean1|]. split; [reflexivity|]. cbn [trace]. split.
  - rewrite !app_assoc. reflexivity.
  - apply Forall_app. split; [|repeat constructor; simpl; tauto].
    apply Forall_app. split; [repeat constructor; simpl; tauto | exact Hev2].
Qed.

End Idempotence.

Section IdempotenceOnSample.

Import Remove_Duplicates Sample.

Lemma removable_warehouse :
  removable (installation no_faults)
    (sections (read_ini (installation no_faults) "r_duplicates.ini")) warehouse.
Proof.
  intros s t k Hin Hp Ht. vm_compute in Hin.
  apply elem_of_cons in Hin as [->|Hin]; [discriminate Hp|].
  apply elem_of_cons in Hin as [->|Hin].
  { vm_compute in Ht. injection Ht as <- <-. split; [vm_compute; reflexivity|].
    intros r Hr. vm_compute in Hr. injection Hr as <-.
    split; [split; apply not_elem_of_nil|vm_compute; lia]. }
  apply elem_of_cons in Hin as [->|Hin].
  { vm_compute in Ht. injection Ht as <- <-. split; [vm_compute; reflexivity|].
    intros r Hr. vm_compute in Hr. injection Hr as <-.
    split; [split; apply not_elem_of_nil|vm_compute; lia]. }
  by apply elem_of_nil in Hin.
Qed.

Lemma sample_sections_configured faults :
  Forall (λ s, String.prefix "yoda_hub" s = true →
               is_Some (remover_target (installation faults) s))
    (sections (read_ini (installation faults) "r_duplicates.ini")).
Proof.
  apply Forall_forall. intros s Hin Hp. vm_compute in Hin.
  apply elem_of_cons in Hin as [->|Hin]; [discriminate Hp|].
  apply elem_of_cons in Hin as [->|Hin]; [vm_compute; eauto|].
  apply elem_of_cons in Hin as [->|Hin]; [vm_compute; eauto|].
  by apply elem_of_nil in Hin.
Qed.

Lemma removal_is_idempotent_witness :
  ∃ st1 st2 evs2,
    remove_duplicates (installation no_faults) (start warehouse false) = (inr tt, st1) ∧
    remove_duplicates (installation no_faults) st1 = (inr tt, st2) ∧
    (∀ s t k, s ∈ sections (read_ini (installation no_faults) "r_duplicates.ini") →
              String.prefix "yoda_hub" s = true →
              remover_target (installation no_faults) s = Some (t, k) →
              clean (cat (db st1)) t) ∧
    db st2 = db st1 ∧
    trace st2 = evs2 ++ trace st1 ∧
    Forall (λ ev, is_execute ev → ∃ i k t o, ev = Execute i (duplicate_check_query k t) o)
      evs2.
Proof.
  apply (removal_is_idempotent (installation no_faults) (λ _ _, eq_refl)
           (start warehouse false) lake "lake-host" "lake").
  - reflexivity.
  - vm_compute. reflexivity.
  - vm_compute. reflexivity.
  - vm_compute. reflexivity.
  - apply sample_sections_configured.
  - apply removable_warehouse.
Defined.

(** C4 as stated fails.  With two rows of a NULL key in sales.orders the
    first run completes the four steps and leaves three such rows; the
    detection query of the second run reports them, the second run sends
    the four steps again (calls 7 to 10) and leaves four rows.  With the
    side table of sales.orders left in the catalog, step 1 fails in the
    first run; sales.orders keeps its duplicates, and the second run finds
    them and sends step 1 again (call 9). *)
Lemma second_run_removes_again_counterexample :
  (∃ st1 st2 r1 r2,
     remove_duplicates (installation no_faults) (start null_warehouse false) = (inr tt, st1) ∧
     remove_duplicates (installation no_faults) st1 = (inr tt, st2) ∧
     calls st1 = 6%nat ∧
     cat (db st1) !! "sales.orders" = Some r1 ∧
     cat (db st2) !! "sales.orders" = Some r2 ∧
     length (tuples r1) = 3%nat ∧
     select_duplicates (tuples r1) = [(Some 1, None, 3%nat)] ∧
     Execute 6 (duplicate_check_query "order_id" "sales.orders") None ∈ trace st2 ∧
     Execute 7 (step1_sql "sales.orders" "order_id") None ∈ trace st2 ∧
     Execute 8 (step2_sql "sales.orders" "order_id") None ∈ trace st2 ∧
     Execute 9 (step3_sql "sales.orders") None ∈ trace st2 ∧
     Execute 10 (step4_sql "sales.orders") None ∈ trace st2 ∧
     length (tuples r2) = 4%nat ∧
     db st2 ≠ db st1)
  ∧ (∃ st1 st2 r1,
       remove_duplicates (installation no_faults) (start leftover_warehouse false)
       = (inr tt, st1) ∧
       remove_duplicates (installation no_faults) st1 = (inr tt, st2) ∧
       calls st1 = 8%nat ∧
       cat (db st1) !! "sales.orders" = Some r1 ∧
       select_duplicates (tuples r1) = [(Some 1, Some 5, 2%nat)] ∧
       Execute 8 (duplicate_check_query "order_id" "sales.orders") None ∈ trace st2 ∧
       Execute 9 (step1_sql "sales.orders" "order_id")
         (Some (DuplicateTable "sales.orders_duplicates")) ∈ trace st2).
Proof.
  split.
  - eexists _, _, _, _. split; [vm_compute; reflexivity|].
    split; [vm_compute; reflexivity|]. split_and!.
    + reflexivity.
    + vm_compute. reflexivity.
    + vm_compute. reflexivity.
    + vm_compute. reflexivity.
    + vm_compute. reflexivity.
    + cbn [trace]. repeat first [apply list_elem_of_here | apply list_elem_of_further].
    + cbn [trace]. repeat first [apply list_elem_of_here | apply list_elem_of_further].
    + cbn [trace]. repeat first [apply list_elem_of_here | apply list_elem_of_further].
    + cbn [trace]. repeat first [apply list_elem_of_here | apply list_elem_of_further].
    + cbn [trace]. repeat first [apply list_elem_of_here | apply list_elem_of_further].
    + vm_compute. reflexivity.
    + intros Heq. apply (f_equal (λ σ, cat σ !! "sales.orders")) in Heq.
      vm_compute in Heq. discriminate Heq.
  - eexists _, _, _. split; [vm_compute; reflexivity|].
    split; [vm_compute; reflexivity|]. split_and!.
    + reflexivity.
    + vm_compute. reflexivity.
    + vm_compute. reflexivity.
    + cbn [trace]. repeat first [apply list_elem_of_here | apply list_elem_of_further].
    + cbn [trace]. repeat first [apply list_elem_of_here | apply list_elem_of_further].
Qed.

End IdempotenceOnSample.

(** * The checker reads only *)

Section CheckerFrame.

Import Check_Duplicates.

Context (E : env).
Implicit Types (st : state) (σ : session).





End CheckerFrame.

Section DetectorSpec.

Context (E : env).
Implicit Types (st : state) (t k : string).




End DetectorSpec.

(** * The connection *)

Section Connection.

Import Sample.

(** C9 (code defect).  On the sample installation both runs open one
    connection.  The remover closes it in its finally block.  The checker
    holds it in a with block, whose exit (psycopg2) commits or rolls back
    and leaves the connection open: its trace has no Close. *)
Theorem checker_leaves_connection_open :
  let checked := (Check_Duplicates.get_duplicates_and_alert (installation no_faults)
                    (start warehouse false)).2 in
  let removed := (Remove_Duplicates.remove_duplicates (installation no_faults)
                    (start warehouse false)).2 in
  filter (λ ev, ev = Connect) (trace checked) = [Connect] ∧
  ConnCommit ∈ trace checked ∧
  (Close ∉ trace checked) ∧
  filter (λ ev, ev = Connect) (trace removed) = [Connect] ∧
  filter (λ ev, ev = Close) (trace removed) = [Close].
Proof.
  intros checked removed. split_and!.
  - vm_compute. reflexivity.
  - by_compute.
  - by_compute.
  - vm_compute. reflexivity.
  - vm_compute. reflexivity.
Qed.

End Connection.

(** * The text of the alerts *)

Section Text.

Implicit Types (s t u a b : string).

Lemma string_app_cons c s t : String c s +:+ t = String c (s +:+ t).
Proof. reflexivity. Qed.

Lemma string_app_assoc s t u : (s +:+ t) +:+ u = s +:+ t +:+ u.
Proof. induction s as [|c s IH]; [done|]. by rewrite !string_app_cons, IH. Qed.

Lemma string_app_nil_r s : s +:+ "" = s.
Proof. induction s as [|c s IH]; [done|]. by rewrite string_app_cons, IH. Qed.

Lemma prefix_app s b : String.prefix s (s +:+ b) = true.
Proof.
  induction s as [|c s IH]; [by destruct b|].
  rewrite string_app_cons. cbn [String.prefix].
  destruct (Ascii.ascii_dec c c); [done|congruence].
Qed.

Lemma is_infix_prefix s t : String.prefix s t = true → is_infix s t = true.
Proof. intros H. destruct t; cbn [is_infix]; by rewrite H. Qed.

Lemma contains_is_infix s t : contains s t → is_infix s t = true.
Proof.
  intros (a & b & ->). induction a as [|c a IH].
  - apply is_infix_prefix. exact (prefix_app s b).
  - rewrite string_app_cons. cbn [is_infix]. rewrite IH. apply orb_true_r.
Qed.

Lemma not_contains s t : is_infix s t = false → ¬ contains s t.
Proof. intros Hf Hc. apply contains_is_infix in Hc. congruence. Qed.

Lemma contains_here s b : contains s (s +:+ b).
Proof. by exists "", b. Qed.

Lemma contains_end s : contains s s.
Proof. exists "", "". simpl. by rewrite string_app_nil_r. Qed.

Lemma contains_skip s t u : contains s t → contains s (u +:+ t).
Proof. intros (a & b & ->). exists (u +:+ a), b. by rewrite string_app_assoc. Qed.

Lemma contains_more s t u : contains s t → contains s (t +:+ u).
Proof.
  intros (a & b & ->). exists a, (b +:+ u). by rewrite !string_app_assoc.
Qed.

Lemma contains_two s t b : contains (s +:+ t) (s +:+ t +:+ b).
Proof. exists "", b. simpl. by rewrite string_app_assoc. Qed.

Lemma contains_three s t u b : contains (s +:+ t +:+ u) (s +:+ t +:+ u +:+ b).
Proof. exists "", b. simpl. by rewrite !string_app_assoc. Qed.

(** Appending lines keeps what is there and adds each line. *)
Lemma fold_append_extends {A} (f : A → string) (l : list A) init :
  ∃ rest, fold_left (λ output x, output +:+ f x) l init = init +:+ rest.
Proof.
  revert init. induction l as [|x l IH]; intros init; simpl.
  - exists "". by rewrite string_app_nil_r.
  - destruct (IH (init +:+ f x)) as [rest ->]. exists (f x +:+ rest).
    by rewrite string_app_assoc.
Qed.

Lemma fold_append_contains {A} (f : A → string) (l : list A) init x :
  x ∈ l → contains (f x) (fold_left (λ output x, output +:+ f x) l init).
Proof.
  revert init. induction l as [|y l IH]; intros init Hin; [by apply elem_of_nil in Hin|].
  simpl. apply elem_of_cons in Hin as [->|Hin]; [|by apply IH].
  destruct (fold_append_extends f l (init +:+ f y)) as [rest ->].
  apply contains_more, contains_skip, contains_end.
Qed.

End Text.

Section Grouping.

Import Check_Duplicates.

Implicit Types (d : list (nat * list value)) (rows : list group) (g : group).

Lemma setdefault_append_fst c key d :
  (setdefault_append c key d).*1 = if decide (c ∈ d.*1) then d.*1 else d.*1 ++ [c].
Proof.
  induction d as [|[c' ks] d IH]; [done|]. cbn [setdefault_append].
  destruct (decide (c' = c)) as [->|Hne].
  - rewrite decide_True by (simpl; left). done.
  - cbn [fmap list_fmap fst]. rewrite IH.
    destruct (decide (c ∈ d.*1)) as [Hin|Hnin].
    + rewrite decide_True by (by right). done.
    + rewrite decide_False; [done|]. intros [?|?]%elem_of_cons; simpl in *; congruence.
Qed.

Lemma setdefault_append_elem c key d K keys :
  NoDup d.*1 →
  (K, keys) ∈ setdefault_append c key d ↔
  (K ≠ c ∧ (K, keys) ∈ d)
  ∨ (K = c ∧ ((∃ ks, (c, ks) ∈ d ∧ keys = ks ++ [key]) ∨ ((c ∉ d.*1) ∧ keys = [key]))).
Proof.
  induction d as [|[c' ks] d IH]; intros Hnd.
  - cbn [setdefault_append]. rewrite list_elem_of_singleton. split.
    + intros [= -> ->]. right. split; [done|]. right. split; [apply not_elem_of_nil|done].
    + intros [[_ Hin]|[-> [(ks & Hin & _)|[_ ->]]]]; try by apply elem_of_nil in Hin.
      done.
  - apply NoDup_cons in Hnd as [Hc' Hnd]. simpl in Hc'. specialize (IH Hnd).
    cbn [setdefault_append]. destruct (decide (c' = c)) as [->|Hne].
    + rewrite elem_of_cons. split.
      * intros [[= -> ->]|Hin].
        -- right. split; [done|]. left. exists ks. split; [by left|done].
        -- left. split; [|by right]. intros ->. apply Hc'.
           apply list_elem_of_fmap. by exists (c, keys).
      * intros [[Hne Hin]|[-> [(ks' & Hin & ->)|[Hnin _]]]].
        -- apply elem_of_cons in Hin as [[= -> ->]|Hin]; [done|by right].
        -- apply elem_of_cons in Hin as [[= ->]|Hin]; [by left|].
           destruct Hc'. apply list_elem_of_fmap. by exists (c, ks').
        -- destruct Hnin. simpl. left.
    + rewrite elem_of_cons, IH. split.
      * intros [[= -> ->]|[[HK Hin]|[-> [(ks' & Hin & ->)|[Hnin ->]]]]].
        -- left. split; [done|left].
        -- left. split; [done|by right].
        -- right. split; [done|]. left. exists ks'. split; [by right|done].
        -- right. split; [done|]. right. split; [|done].
           simpl. intros [?|?]%elem_of_cons; [congruence|done].
      * intros [[HK Hin]|[-> [(ks' & Hin & ->)|[Hnin ->]]]].
        -- apply elem_of_cons in Hin as [[= -> ->]|Hin]; [by left|].
           right. left. done.
        -- apply elem_of_cons in Hin as [[= -> ->]|Hin]; [done|].
           right. right. split; [done|]. left. eauto.
        -- right. right. split; [done|]. right. split; [|done].
           intros Hin. apply Hnin. simpl. by right.
Qed.

Lemma group_duplicates_snoc rows g :
  group_duplicates (rows ++ [g])
  = setdefault_append (gcount g) (gkey g) (group_duplicates rows).
Proof. unfold group_duplicates. by rewrite fold_left_app. Qed.

Lemma filter_count_absent K rows :
  K ∉ map gcount rows → filter (λ g, gcount g = K) rows = [].
Proof.
  intros Hnin. apply length_zero_iff_nil, length_filter_0, Forall_forall.
  intros g Hg Heq. apply Hnin, list_elem_of_fmap. by exists g.
Qed.

(** The dict has one entry for each distinct count, holding the keys of
    the rows with that count. *)
Lemma group_duplicates_spec rows :
  NoDup (group_duplicates rows).*1 ∧
  ∀ K keys, (K, keys) ∈ group_duplicates rows ↔
            K ∈ map gcount rows ∧ keys = map gkey (filter (λ g, gcount g = K) rows).
Proof.
  induction rows as [|g rows [Hnd IH]] using rev_ind.
  - split; [constructor|]. intros K keys. split.
    + intros Hin. by apply elem_of_nil in Hin.
    + intros [Hin _]. by apply elem_of_nil in Hin.
  - rewrite group_duplicates_snoc. set (d := group_duplicates rows) in *.
    assert (Hfst : ∀ K, K ∈ d.*1 ↔ K ∈ map gcount rows).
    { intros K. rewrite list_elem_of_fmap. split.
      - intros ([K' ks] & -> & Hin). by apply IH in Hin as [? _].
      - intros Hin. eexists (K, _). split; [done|]. apply IH. done. }
    split.
    + rewrite setdefault_append_fst. destruct (decide _) as [|Hnin]; [done|].
      apply NoDup_app. split_and!; [done| |apply NoDup_singleton].
      intros x Hx ->%list_elem_of_singleton. done.
    + intros K keys. rewrite setdefault_append_elem by done.
      rewrite map_app, elem_of_app, filter_app, map_app.
      cbn [map]. rewrite list_elem_of_singleton.
      rewrite (filter_cons _ g), filter_nil.
      split.
      * intros [[HK Hin]|[-> [(ks & Hin & ->)|[Hnin ->]]]].
        -- apply IH in Hin as [Hin ->]. split; [by left|].
           rewrite decide_False by congruence. by rewrite app_nil_r.
        -- apply IH in Hin as [Hin ->]. split; [by right|].
           rewrite decide_True by done. done.
        -- split; [by right|]. rewrite decide_True by done.
           rewrite filter_count_absent; [done|]. by rewrite <- Hfst.
      * intros [HK ->]. destruct (decide (gcount g = K)) as [Heq|Hne].
        -- right. split; [done|]. subst K.
           destruct (decide (gcount g ∈ map gcount rows)) as [Hin|Hnin].
           ++ left. eexists. split; [apply IH; done|done].
           ++ right. split; [by rewrite Hfst|].
              rewrite filter_count_absent by done. done.
        -- left. split; [congruence|]. apply IH. rewrite app_nil_r.
           split; [|done]. destruct HK as [|]; [done|congruence].
Qed.

End Grouping.

Section AlertText.

Import Check_Duplicates.

Lemma duplicate_info_lines d tn rows K :
  K ∈ map gcount rows →
  contains (summary_line (length (filter (λ g, gcount g = K) rows)) K)
           (duplicate_info d tn (group_duplicates rows)).
Proof.
  intros HK. destruct (group_duplicates_spec rows) as [_ Hspec].
  assert (Hin : (K, map gkey (filter (λ g, gcount g = K) rows)) ∈ group_duplicates rows)
    by (by apply Hspec).
  unfold duplicate_info.
  pose proof (fold_append_contains affected_line (group_duplicates rows)
                (nl +:+ "Duplicates found in " +:+ d +:+ "." +:+ tn +:+ ":" +:+ nl) _ Hin)
    as Hc.
  unfold affected_line in Hc at 1. cbn [fst snd] in Hc. by rewrite length_map in Hc.
Qed.

Lemma alert_text_fields now h task d tn k total :
  let text := alert_text now h task d tn k total in
  contains ("Source Host: " +:+ h) text ∧
  contains ("Source Replication Task: " +:+ task) text ∧
  contains ("Source Database: " +:+ d) text ∧
  contains ("Source Table: " +:+ tn) text ∧
  contains ("Source Column: " +:+ k) text ∧
  contains ("Total number of rows = " +:+ pretty total) text.
Proof.
  intros text. unfold text, alert_text. split_and!.
  - do 11 apply contains_skip. apply contains_two.
  - do 14 apply contains_skip. apply contains_two.
  - do 17 apply contains_skip. apply contains_two.
  - do 20 apply contains_skip. apply contains_two.
  - do 23 apply contains_skip. apply contains_two.
  - do 27 apply contains_skip. apply contains_two.
Qed.

Lemma slack_text_fields d tn output :
  contains (d +:+ "." +:+ tn) (slack_text d tn output) ∧
  ∀ line, contains line output → contains line (slack_text d tn output).
Proof.
  unfold slack_text. split.
  - apply contains_skip, contains_three.
  - intros line Hl. by do 6 apply contains_skip.
Qed.

Context (E : env).

(** C8 (amended).  For a table in which the checker finds duplicate
    groups, the mail carries, for each distinct count K, the line for K
    with the number of groups of that count, and the source host, the
    replication task, the database, the table, the column and the number of
    groups; the chat message carries the same lines with the database and
    the table only. *)
Theorem alert_carries_summary ec url section k d tn h task st rows status :
  String.prefix "yoda_hub" section = true →
  checker_target E section = Some (k, d, tn, h, task) →
  (cur_execute E [SELECT_DUPLICATES k (d +:+ "." +:+ tn)] st).1 = inr rows →
  rows ≠ [] → smtp_ready E ec → webhook E = Some status →
  let output := duplicate_info d tn (group_duplicates rows) in
  let body := alert_text (now E) h task d tn k (length rows) +:+ output in
  let message := slack_text d tn output in
  ∃ st' evs subject,
    process_section E ec url section st = (inr tt, st') ∧
    trace st' = evs ++ trace st ∧
    Email subject body ∈ evs ∧ Slack message status ∈ evs ∧
    (∀ K, K ∈ map gcount rows →
          contains (summary_line (length (filter (λ g, gcount g = K) rows)) K) body ∧
          contains (summary_line (length (filter (λ g, gcount g = K) rows)) K) message) ∧
    NoDup (group_duplicates rows).*1 ∧
    (∀ K keys, (K, keys) ∈ group_duplicates rows → K ∈ map gcount rows) ∧
    contains ("Source Host: " +:+ h) body ∧
    contains ("Source Replication Task: " +:+ task) body ∧
    contains ("Source Database: " +:+ d) body ∧
    contains ("Source Table: " +:+ tn) body ∧
    contains ("Source Column: " +:+ k) body ∧
    contains ("Total number of rows = " +:+ pretty (length rows)) body ∧
    contains (d +:+ "." +:+ tn) message.
Proof.
  intros Hp Ht Hq Hne Hsmtp Hhook output body message.
  rewrite (checker_section_target E ec url section k d tn h task) by done.
  destruct (report_table_cases E ec url k d tn h task st)
    as (σ & _ & _ & _ &
        [(e & _ & Hq')|[(r & _ & _ & _ & Hq')
                       |(r & em & es & _ & _ & Hrun & _ & Hmail & _ & Hslack & Hq')]]);
    rewrite Hq in Hq'; [done|injection Hq' as Heq; congruence|].
  injection Hq' as Heq. subst output body message. subst rows.
  destruct (alert_text_fields (now E) h task d tn k
              (length (select_duplicates (tuples r))))
    as (Hf1 & Hf2 & Hf3 & Hf4 & Hf5 & Hf6).
  destruct (slack_text_fields d tn
              (duplicate_info d tn (group_duplicates (select_duplicates (tuples r)))))
    as [Hs1 Hs2].
  destruct (group_duplicates_spec (select_duplicates (tuples r))) as [Hnd Hspec].
  eexists _, ((es ++ em ++ [Print _]) ++ [_]), _.
  split; [exact Hrun|]. split.
  { cbn [trace add_events executed]. rewrite <- !app_assoc. reflexivity. }
  split_and!.
  - apply elem_of_app. left. apply elem_of_app. right. apply elem_of_app. left.
    by apply Hmail.
  - apply elem_of_app. left. apply elem_of_app. left. by apply Hslack.
  - intros K HK. pose proof (duplicate_info_lines d tn _ K HK) as Hline. split.
    + by apply contains_skip.
    + by apply Hs2.
  - exact Hnd.
  - intros K keys Hin. by apply Hspec in Hin as [? _].
  - by apply contains_more.
  - by apply contains_more.
  - by apply contains_more.
  - by apply contains_more.
  - by apply contains_more.
  - by apply contains_more.
  - exact Hs1.
Qed.

End AlertText.

Section AlertTextOnSample.

Import Check_Duplicates Sample.

Lemma smtp_ready_sample faults : smtp_ready (installation faults) email_config.
Proof. split; [reflexivity|]. repeat constructor; vm_compute; eauto. Qed.

Lemma alert_carries_summary_witness :
  let rows : list group := [(Some 1, Some 5, 2%nat)] in
  let output := duplicate_info "sales" "orders" (group_duplicates rows) in
  let body := alert_text (now (installation no_faults)) "src-host" "task-7" "sales" "orders"
                "order_id" (length rows) +:+ output in
  let message := slack_text "sales" "orders" output in
  ∃ st' evs subject,
    process_section (installation no_faults) email_config "hook" "yoda_hub_orders"
      (start warehouse false) = (inr tt, st') ∧
    trace st' = evs ++ trace (start warehouse false) ∧
    Email subject body ∈ evs ∧ Slack message 200 ∈ evs ∧
    (∀ K, K ∈ map gcount rows →
          contains (summary_line (length (filter (λ g, gcount g = K) rows)) K) body ∧
          contains (summary_line (length (filter (λ g, gcount g = K) rows)) K) message) ∧
    NoDup (group_duplicates rows).*1 ∧
    (∀ K keys, (K, keys) ∈ group_duplicates rows → K ∈ map gcount rows) ∧
    contains ("Source Host: " +:+ "src-host") body ∧
    contains ("Source Replication Task: " +:+ "task-7") body ∧
    contains ("Source Database: " +:+ "sales") body ∧
    contains ("Source Table: " +:+ "orders") body ∧
    contains ("Source Column: " +:+ "order_id") body ∧
    contains ("Total number of rows = " +:+ pretty (length rows)) body ∧
    contains ("sales" +:+ "." +:+ "orders") message.
Proof.
  apply (alert_carries_summary (installation no_faults) email_config "hook"
           "yoda_hub_orders" "order_id" "sales" "orders" "src-host" "task-7"
           (start warehouse false) [(Some 1, Some 5, 2%nat)] 200).
  - reflexivity.
  - vm_compute. reflexivity.
  - vm_compute. reflexivity.
  - discriminate.
  - apply smtp_ready_sample.
  - reflexivity.
Defined.

(** C8 as stated fails for the chat message: in the run on the sample
    installation the message posted for sales.orders names neither the
    source host, nor the replication task, nor the column, nor the total. *)
Lemma chat_message_lacks_details_counterexample :
  let st' := (get_duplicates_and_alert (installation no_faults) (start warehouse false)).2 in
  let message := slack_text "sales" "orders"
                   (duplicate_info "sales" "orders" (group_duplicates [(Some 1, Some 5, 2%nat)])) in
  Slack message 200 ∈ trace st' ∧
  ¬ contains "src-host" message ∧
  ¬ contains "task-7" message ∧
  ¬ contains "order_id" message ∧
  ¬ contains "Total number of rows" message.
Proof.
  intros st' message. split_and!.
  - by_compute.
  - apply not_contains. vm_compute. reflexivity.
  - apply not_contains. vm_compute. reflexivity.
  - apply not_contains. vm_compute. reflexivity.
  - apply not_contains. vm_compute. reflexivity.
Qed.

End AlertTextOnSample.

(** * Configuration files and notifications *)

Section Configuration.

Context (E : env).
Implicit Types (st : state) (filename section subject body : string).



End Configuration.

Ltac by_elem_of :=
  solve [repeat first [apply list_elem_of_here | apply list_elem_of_further]].

Ltac not_elem_of Hin :=
  repeat (apply elem_of_cons in Hin as [Hin|Hin]; [discriminate Hin|]);
  by apply elem_of_nil in Hin.

Section Notifications.

Import Check_Duplicates.

Context (E : env).
Implicit Types (st : state) (subject body message url : string).

Lemma cur_execute_state script st :
  ∃ o σ, (cur_execute E script st).2 = executed script o σ st.
Proof.
  unfold cur_execute. destruct (exec_script _ script [] _) as [σ [e|rows]]; simpl; eauto.
Qed.

Lemma smtp_conversation_sent cfg subject body st st' :
  smtp_conversation E cfg subject body st = (inr tt, st') → smtp_ready E cfg.
Proof.
  unfold smtp_conversation, getitem, mbind, M_bind, mret, M_ret, raise, smtp_ready.
  destruct (cfg !! "smtp_host") eqn:?; [|done].
  destruct (cfg !! "smtp_port") eqn:?; [|done].
  destruct (smtp_ok E); [|done].
  destruct (cfg !! "smtp_username") eqn:?; [|done].
  destruct (cfg !! "smtp_password") eqn:?; [|done].
  destruct (cfg !! "sender_email") eqn:?; [|done].
  destruct (cfg !! "receiver_email") eqn:?; [|done].
  intros _. split; [done|]. repeat constructor; eauto.
Qed.

(** send_email of the checker: the mail and the line printed after it, or
    the line logged for the failure. *)
Lemma checker_send_email_outcome subject body cfg st :
  (smtp_ready E cfg ∧
   send_email E subject body cfg st
   = (inr tt, add_events [Print ("Email sent at " +:+ now E +:+ nl); Email subject body] st))
  ∨ (¬ smtp_ready E cfg ∧
     ∃ e, send_email E subject body cfg st
          = (inr tt, add_events [Log ("Failed to send email: " +:+ str e)] st)).
Proof.
  unfold send_email, try_except.
  destruct (smtp_conversation E cfg subject body st) as [[e|[]] st'] eqn:Hc.
  - right. split.
    + intros Hr. rewrite smtp_conversation_ready in Hc by done. done.
    + destruct (smtp_conversation_result E cfg subject body st) as [Hok|[e' Hf]];
        [congruence|]. rewrite Hf in Hc. injection Hc as -> <-.
      erewrite bind_inl by exact Hf. eauto.
  - left. pose proof Hc as Hr. apply smtp_conversation_sent in Hr. split; [done|].
    rewrite smtp_conversation_ready in Hc by done. injection Hc as <-.
    erewrite bind_inr by (by apply smtp_conversation_ready).
    unfold print, emit. by rewrite add_events_add_events.
Qed.

(** send_slack_alert: no answer, an answer other than 200, the answer 200. *)
Lemma send_slack_alert_outcome message url st :
  send_slack_alert E message url st
  = (inr tt,
     add_events
       match webhook E with
       | None => [Log ("Error sending Slack alert: " +:+ "connection error")]
       | Some status =>
           [if decide (status ≠ 200%nat)
            then Log "Failed to send Slack alert: response text"
            else Print "Slack alert sent successfully.";
            Slack message status]
       end st).
Proof.
  unfold send_slack_alert, try_except. destruct (webhook E) as [status|]; [|done].
  erewrite bind_inr by reflexivity.
  destruct (decide (status ≠ 200%nat)); unfold log_to_file, print, emit;
    by rewrite add_events_add_events.
Qed.

(** X3.  Once the query of a table has returned duplicate groups, the
    report never raises, whatever happens to the two deliveries.  An email
    that cannot be sent is logged and does not keep the chat message from
    being posted; a webhook that answers with another status than 200 has
    received the message and the failure is logged; a webhook that does not
    answer is logged as an error. *)
Theorem delivery_failures_are_logged ec url k d tn h task st rows :
  (cur_execute E [SELECT_DUPLICATES k (d +:+ "." +:+ tn)] st).1 = inr rows → rows ≠ [] →
  let output := duplicate_info d tn (group_duplicates rows) in
  let message := slack_text d tn output in
  ∃ st' evs,
    report_table E ec url k d tn h task st = (inr tt, st') ∧
    trace st' = evs ++ trace st ∧
    Print output ∈ evs ∧
    (¬ smtp_ready E ec →
     (∃ e, Log ("Failed to send email: " +:+ str e) ∈ evs) ∧ ∀ s b, Email s b ∉ evs) ∧
    match webhook E with
    | None =>
        (∃ m, Log ("Error sending Slack alert: " +:+ m) ∈ evs) ∧ ∀ m s, Slack m s ∉ evs
    | Some status =>
        Slack message status ∈ evs ∧
        if decide (status = 200%nat) then Print "Slack alert sent successfully." ∈ evs
        else ∃ m, Log ("Failed to send Slack alert: " +:+ m) ∈ evs
    end.
Proof.
  intros Hq Hrows output message. unfold report_table.
  destruct (cur_execute_state [SELECT_DUPLICATES k (d +:+ "." +:+ tn)] st) as (o & σ & Hst).
  destruct (cur_execute E [SELECT_DUPLICATES k (d +:+ "." +:+ tn)] st) as [res st1] eqn:Hrun.
  simpl in Hq, Hst. subst res st1.
  erewrite bind_inr by exact Hrun. destruct rows as [|g rows]; [done|].
  unfold print_duplicate_info.
  erewrite bind_inr by (erewrite bind_inr by reflexivity; reflexivity).
  fold output. fold message.
  set (st1 := add_events [Print output] (executed _ o σ st)).
  set (subject := "Duplicate(s) found in " +:+ d +:+ "." +:+ tn +:+ " at " +:+ now E).
  set (text := alert_text _ _ _ _ _ _ _ +:+ output).
  destruct (checker_send_email_outcome subject text ec st1) as [[Hr Hmail]|[Hr [e Hmail]]];
    erewrite bind_inr by exact Hmail; rewrite send_slack_alert_outcome;
    unfold st1; rewrite !add_events_add_events;
    match goal with
    | |- context [add_events ?L (executed ?q o σ st)] =>
        exists (add_events L (executed q o σ st)), (L ++ [Execute (calls st) q o])
    end;
    (split; [reflexivity|]);
    (split; [unfold add_events, executed; cbn [trace]; exact (app_assoc _ [_] _)|]);
    (destruct (webhook E) as [status|];
       [destruct (decide (status ≠ 200%nat)) as [Hne|Heq];
          [rewrite (decide_False (P := status = 200%nat)) by done
          |rewrite (decide_True (P := status = 200%nat)) by (by destruct (decide (status = 200%nat)))]
       |]);
    cbn [app]; split_and!; try by_elem_of; try done;
    try (eexists; by_elem_of);
    try (intros _; split; [eexists; by_elem_of|intros s b Hin; not_elem_of Hin]);
    try (split; [eexists; by_elem_of|intros m s Hin; not_elem_of Hin]);
    intros m s Hin; not_elem_of Hin.
Qed.

End Notifications.

Section NotificationsOnSample.

Import Check_Duplicates Sample.

Lemma delivery_failures_are_logged_witness :
  let E := installation no_faults in
  let rows : list group := [(Some 1, Some 5, 2%nat)] in
  let output := duplicate_info "sales" "orders" (group_duplicates rows) in
  let message := slack_text "sales" "orders" output in
  ∃ st' evs,
    report_table E ∅ "hook" "order_id" "sales" "orders" "src-host" "task-7"
      (start warehouse false) = (inr tt, st') ∧
    trace st' = evs ++ trace (start warehouse false) ∧
    Print output ∈ evs ∧
    (¬ smtp_ready E ∅ →
     (∃ e, Log ("Failed to send email: " +:+ str e) ∈ evs) ∧ ∀ s b, Email s b ∉ evs) ∧
    match webhook E with
    | None =>
        (∃ m, Log ("Error sending Slack alert: " +:+ m) ∈ evs) ∧ ∀ m s, Slack m s ∉ evs
    | Some status =>
        Slack message status ∈ evs ∧
        if decide (status = 200%nat) then Print "Slack alert sent successfully." ∈ evs
        else ∃ m, Log ("Failed to send Slack alert: " +:+ m) ∈ evs
    end.
Proof.
  apply (delivery_failures_are_logged (installation no_faults) ∅ "hook" "order_id" "sales"
           "orders" "src-host" "task-7" (start warehouse false) [(Some 1, Some 5, 2%nat)]).
  - vm_compute. reflexivity.
  - discriminate.
Defined.

End NotificationsOnSample.

(** * What the work on the tables does to the connection *)

Section OnConnection.

Context (E : env).

Lemma on_connection_ret {A} (a : A) : on_connection (mret a : M A).
Proof. intros st. split_and!; [done..|]. by exists []. Qed.

Lemma on_connection_raise {A} (e : exn) : on_connection (raise e : M A).
Proof. intros st. split_and!; [done..|]. by exists []. Qed.

Lemma on_connection_bind {A B} (m : M A) (f : A → M B) :
  on_connection m → (∀ a, on_connection (f a)) → on_connection (m ≫= f).
Proof.
  intros Hm Hf st. unfold mbind, M_bind.
  destruct (Hm st) as (Ha & Hc & evs & Ht & Hev).
  destruct (m st) as [[e|a] st1]; simpl in *.
  - split_and!; [done..|]. eauto.
  - destruct (Hf a st1) as (Ha' & Hc' & evs' & Ht' & Hev').
    split_and!; [congruence..|]. exists (evs' ++ evs).
    rewrite Ht', Ht, app_assoc. split; [done|]. by apply Forall_app.
Qed.

Lemma on_connection_try_except {A} (m : M A) (h : exn → M A) :
  on_connection m → (∀ e, on_connection (h e)) → on_connection (try_except m h).
Proof.
  intros Hm Hh st. unfold try_except.
  destruct (Hm st) as (Ha & Hc & evs & Ht & Hev).
  destruct (m st) as [[e|a] st1]; simpl in *.
  - destruct (Hh e st1) as (Ha' & Hc' & evs' & Ht' & Hev').
    split_and!; [congruence..|]. exists (evs' ++ evs).
    rewrite Ht', Ht, app_assoc. split; [done|]. by apply Forall_app.
  - split_and!; [done..|]. eauto.
Qed.

Lemma on_connection_for_each {A} (xs : list A) (body : A → M unit) :
  (∀ x, on_connection (body x)) → on_connection (for_each xs body).
Proof.
  intros Hb. induction xs as [|x xs IH]; cbn [for_each].
  - apply on_connection_ret.
  - apply on_connection_bind; [done|]. intros _. exact IH.
Qed.

Lemma on_connection_emit ev : table_event ev → on_connection (emit ev).
Proof.
  intros Hev st. split_and!; [done..|]. exists [ev]. split; [done|]. by constructor.
Qed.

Lemma on_connection_getitem d key : on_connection (getitem d key).
Proof.
  unfold getitem. destruct (d !! key); [apply on_connection_ret|apply on_connection_raise].
Qed.

Lemma on_connection_server_config filename section :
  on_connection (server_config E filename section).
Proof.
  unfold server_config. destruct (section_options _ _);
    [apply on_connection_ret|apply on_connection_raise].
Qed.

Lemma on_connection_cur_execute script : on_connection (cur_execute E script).
Proof.
  intros st. destruct (cur_execute_state E script st) as (o & σ & ->).
  split_and!; [done..|]. exists [Execute (calls st) script o]. split; [done|].
  by constructor.
Qed.

Lemma on_connection_smtp_conversation cfg subject body :
  on_connection (smtp_conversation E cfg subject body).
Proof.
  unfold smtp_conversation.
  repeat (apply on_connection_bind; [|intros ?]);
    try apply on_connection_getitem; try by apply on_connection_emit.
  destruct (smtp_ok E); [apply on_connection_ret|apply on_connection_raise].
Qed.

End OnConnection.

Ltac on_connection_step :=
  lazymatch goal with
  | |- on_connection (_ ≫= _) => apply on_connection_bind; [|intros ?]
  | |- on_connection (try_except _ _) => apply on_connection_try_except; [|intros ?]
  | |- on_connection (for_each _ _) => apply on_connection_for_each; intros ?
  | |- on_connection (emit _) => apply on_connection_emit; exact I
  | |- on_connection (log_to_file _) => apply on_connection_emit; exact I
  | |- on_connection (print _) => apply on_connection_emit; exact I
  | |- on_connection (mret _) => apply on_connection_ret
  | |- on_connection (raise _) => apply on_connection_raise
  | |- on_connection (getitem _ _) => apply on_connection_getitem
  | |- on_connection (server_config _ _ _) => apply on_connection_server_config
  | |- on_connection (cur_execute _ _) => apply on_connection_cur_execute
  | |- on_connection (smtp_conversation _ _ _ _) => apply on_connection_smtp_conversation
  end.

Section RemoverOnConnection.

Import Remove_Duplicates.

Context (E : env).

Lemma on_connection_remover_send_email subject body :
  on_connection (send_email E subject body).
Proof. unfold send_email. repeat on_connection_step. Qed.

Lemma on_connection_check_for_duplicates t k : on_connection (check_for_duplicates E t k).
Proof.
  unfold check_for_duplicates.
  repeat first [apply on_connection_remover_send_email | on_connection_step].
Qed.

Lemma on_connection_remove_duplicates_from_table t k :
  on_connection (remove_duplicates_from_table E t k).
Proof.
  unfold remove_duplicates_from_table, remove_steps, remove_failed.
  repeat first [apply on_connection_remover_send_email | on_connection_step].
Qed.

Lemma on_connection_remover_process_section section :
  on_connection (process_section E section).
Proof.
  unfold process_section. destruct (String.prefix _ _); [|apply on_connection_ret].
  unfold process_table. repeat on_connection_step.
  - apply on_connection_check_for_duplicates.
  - match goal with |- on_connection (match ?x with _ => _ end) => destruct x as [[|? ?]|] end;
      repeat first [apply on_connection_remove_duplicates_from_table | on_connection_step].
Qed.

End RemoverOnConnection.

(** * A whole run of the remover *)

Section RemoverRunCases.

Import Remove_Duplicates.

Context (E : env).
Implicit Types (st : state) (lake : gmap string string).

(** The except block of remove_duplicates. *)
Lemma remover_handler (e : exn) st :
  ∃ ev,
    (_ ← log_to_file ("Failed to process: " +:+ str e);
     _ ← send_email E "Error in Duplicate Removal Process" ("Failed to process: " +:+ str e);
     print ("Failed to process: " +:+ str e)) st
    = (inr tt, add_events [Print ("Failed to process: " +:+ str e); ev;
                           Log ("Failed to process: " +:+ str e)] st) ∧
    table_event ev ∧ ¬ is_execute ev.
Proof.
  erewrite bind_inr by reflexivity.
  match goal with
  | |- context [(send_email E ?s ?b ≫= _) ?S] =>
      destruct (remover_send_email E s b S) as (ev & Hmail & Hev)
  end.
  erewrite bind_inr by exact Hmail. unfold print, emit. rewrite !add_events_add_events.
  exists ev. split; [done|]. destruct Hev as [->|[m ->]]; simpl; tauto.
Qed.

(** The finally block of remove_duplicates. *)
Lemma remover_finally st :
  (c ← read_conn; _ ← (if c : bool then conn_close else mret tt); print "Connection closed.") st
  = (inr tt,
     if conn st
     then {| db := {| cat := durable (db st); txn := Idle |}; autocommit := autocommit st;
             conn := true; calls := calls st;
             trace := Print "Connection closed." :: Close :: trace st |}
     else add_events [Print "Connection closed."] st).
Proof.
  unfold read_conn, conn_close, print, emit, add_events, mbind, M_bind, mret, M_ret.
  destruct st as [σ a [] n tr]; reflexivity.
Qed.

End RemoverRunCases.

Section RemoverRunOutcome.

Import Remove_Duplicates.

Context (E : env).
Implicit Types (st : state) (lake : gmap string string).

(** The try statement of remove_duplicates, from the state in which conn
    is None: its except block makes it end normally in every case. *)
Lemma remove_duplicates_cases st lake :
  section_options (read_ini E "r_duplicates.ini") "yoda_r_lake" = Some lake →
  ∃ st',
    remove_duplicates E st = (inr tt, st') ∧
    ((connect_ok E = true ∧
      (∃ host database evs,
         lake !! "host" = Some host ∧ lake !! "database" = Some database ∧
         trace st'
         = Print "Connection closed." :: Close :: evs
             ++ Connect
             :: Print ("Connecting to " +:+ host +:+ " database " +:+ database +:+ "...")
             :: Log ("Connecting to " +:+ host +:+ " database " +:+ database +:+ "...")
             :: trace st ∧
         Forall table_event evs) ∧
      txn (db st') = Idle ∧ conn st' = true)
     ∨ (¬ (connect_ok E = true ∧ is_Some (lake !! "host") ∧ is_Some (lake !! "database")) ∧
        (∃ evs, trace st' = Print "Connection closed." :: evs ++ trace st ∧
                Forall (λ ev, table_event ev ∧ ¬ is_execute ev) evs) ∧
        db st' = db st ∧ conn st' = false)).
Proof.
  intros Hlake. destruct st as [σ a cn n tr].
  unfold remove_duplicates, server_config. rewrite Hlake.
  erewrite bind_inr by reflexivity. erewrite bind_inr by reflexivity.
  unfold assign_conn. cbn [db autocommit conn calls trace].
  unfold try_finally.
  match goal with
  | |- context [try_except ?B ?H ?S] =>
      assert (Hte : ∃ st1,
        try_except B H S = (inr tt, st1) ∧
        ((connect_ok E = true ∧
          (∃ host database evs,
             lake !! "host" = Some host ∧ lake !! "database" = Some database ∧
             trace st1
             = evs ++ Connect
                 :: Print ("Connecting to " +:+ host +:+ " database " +:+ database +:+ "...")
                 :: Log ("Connecting to " +:+ host +:+ " database " +:+ database +:+ "...")
                 :: tr ∧
             Forall table_event evs) ∧
          conn st1 = true)
         ∨ (¬ (connect_ok E = true ∧ is_Some (lake !! "host") ∧ is_Some (lake !! "database")) ∧
            (∃ evs, trace st1 = evs ++ tr ∧
                    Forall (λ ev, table_event ev ∧ ¬ is_execute ev) evs) ∧
            db st1 = σ ∧ conn st1 = false)))
  end.
  { unfold try_except, getitem.
    destruct (lake !! "host") as [host|] eqn:Hh; last first.
    { erewrite bind_inl by reflexivity.
      match goal with
      | |- context [(log_to_file ("Failed to process: " +:+ str ?e) ≫= _) ?S] =>
          destruct (remover_handler E e S) as (ev & Hrun & Hev)
      end.
      cbv beta iota. rewrite Hrun. eexists. split; [reflexivity|]. right.
      split; [by intros (_ & [? [=]] & _)|]. split_and!; [|done..].
      eexists [_; _; _]. split; [reflexivity|]. repeat constructor; simpl; tauto. }
    erewrite bind_inr by reflexivity.
    destruct (lake !! "database") as [database|] eqn:Hd; last first.
    { erewrite bind_inl by reflexivity.
      match goal with
      | |- context [(log_to_file ("Failed to process: " +:+ str ?e) ≫= _) ?S] =>
          destruct (remover_handler E e S) as (ev & Hrun & Hev)
      end.
      cbv beta iota. rewrite Hrun. eexists. split; [reflexivity|]. right.
      split; [by intros (_ & _ & [? [=]])|]. split_and!; [|done..].
      eexists [_; _; _]. split; [reflexivity|]. repeat constructor; simpl; tauto. }
    erewrite bind_inr by reflexivity.
    erewrite bind_inr by reflexivity. erewrite bind_inr by reflexivity.
    unfold pg_connect. destruct (connect_ok E) eqn:Hc; last first.
    { erewrite bind_inl by reflexivity.
      match goal with
      | |- context [(log_to_file ("Failed to process: " +:+ str ?e) ≫= _) ?S] =>
          destruct (remover_handler E e S) as (ev & Hrun & Hev)
      end.
      cbv beta iota. rewrite Hrun. eexists. split; [reflexivity|]. right.
      split; [by intros ([=] & _)|]. split_and!; [|done..].
      eexists [_; _; _; _; _]. split; [reflexivity|]. repeat constructor; simpl; tauto. }
    erewrite bind_inr by reflexivity. erewrite bind_inr by reflexivity.
    unfold set_autocommit. norm_state.
    match goal with
    | |- context [for_each ?xs ?body ?S] =>
        destruct (on_connection_for_each xs body
                    (on_connection_remover_process_section E) S)
          as (_ & Hconn & evs & Ht & Hevs);
        destruct (for_each xs body S) as [[e|[]] st2]
    end; simpl in Hconn, Ht.
    - destruct (remover_handler E e st2) as (ev & Hrun & Hev & _).
      cbv beta iota. rewrite Hrun. eexists. split; [reflexivity|]. left.
      split; [done|]. split; [|done].
      eexists host, database, ([_; _; _] ++ evs). split_and!; [done..| |].
      + cbn [trace add_events]. rewrite Ht. by rewrite <- app_assoc.
      + apply Forall_app. split; [|done]. repeat constructor; done.
    - eexists. split; [reflexivity|]. left. split; [done|]. split; [|done].
      exists host, database, evs. done. }
  destruct Hte as (st1 & -> & HP). rewrite remover_finally.
  destruct HP as [(Hc & (host & database & evs & Hh & Hd & Ht & Hevs) & Hconn)
                 |(Hn & (evs & Ht & Hevs) & Hdb & Hconn)]; rewrite Hconn.
  - eexists. split; [reflexivity|]. left. split; [done|]. cbn [trace db txn conn].
    split; [|done]. exists host, database, evs. rewrite Ht. done.
  - eexists. split; [reflexivity|]. right. split; [done|]. cbn [trace add_events db conn].
    split_and!; [|done..]. exists evs. rewrite Ht. done.
Qed.


(** X5.  A run of the remover that has its section yoda_r_lake.  When the
    options host and database are there and the server accepts the
    connection, the run opens one connection and closes it: Close is its
    last effect before the line Connection closed, whatever happened to the
    tables, and no block is left open.  Otherwise no connection is opened,
    none is closed, no statement is sent and the session is untouched; the
    line Connection closed is printed all the same. *)
Theorem remover_closes_its_connection st lake :
  section_options (read_ini E "r_duplicates.ini") "yoda_r_lake" = Some lake →
  ∃ st',
    remove_duplicates E st = (inr tt, st') ∧
    if decide (connect_ok E = true ∧ is_Some (lake !! "host") ∧ is_Some (lake !! "database"))
    then ∃ evs1 evs2,
           trace st' = Print "Connection closed." :: Close :: evs1 ++ Connect :: evs2 ++ trace st ∧
           Forall table_event evs1 ∧ Forall table_event evs2 ∧
           txn (db st') = Idle
    else ∃ evs,
           trace st' = Print "Connection closed." :: evs ++ trace st ∧
           Forall (λ ev, table_event ev ∧ ¬ is_execute ev) evs ∧
           db st' = db st.
Proof.
  intros Hlake.
  destruct (remove_duplicates_cases st lake Hlake)
    as (st' & Hrun & [(Hc & (host & database & evs & Hh & Hd & Ht & Hevs) & Htxn & _)
                     |(Hn & (evs & Ht & Hevs) & Hdb & _)]).
  - exists st'. split; [done|]. rewrite decide_True by (rewrite Hh, Hd; eauto).
    eexists evs, [_; _]. split_and!; [exact Ht|done| |done].
    repeat constructor.
  - exists st'. split; [done|]. rewrite decide_False by done. eauto.
Qed.

End RemoverRunOutcome.

Section RemoverRunOnSample.

Import Remove_Duplicates Sample.

Lemma remover_closes_its_connection_witness :
  ∃ st',
    remove_duplicates (installation no_faults) (start warehouse false) = (inr tt, st') ∧
    if decide (connect_ok (installation no_faults) = true ∧
               is_Some (lake !! "host") ∧ is_Some (lake !! "database"))
    then ∃ evs1 evs2,
           trace st' = Print "Connection closed." :: Close :: evs1 ++ Connect :: evs2
                         ++ trace (start warehouse false) ∧
           Forall table_event evs1 ∧ Forall table_event evs2 ∧
           txn (db st') = Idle
    else ∃ evs,
           trace st' = Print "Connection closed." :: evs ++ trace (start warehouse false) ∧
           Forall (λ ev, table_event ev ∧ ¬ is_execute ev) evs ∧
           db st' = db (start warehouse false).
Proof.
  apply (remover_closes_its_connection (installation no_faults) (start warehouse false) lake).
  reflexivity.
Defined.

End RemoverRunOnSample.

(** * A whole run of the checker *)

Section CheckerRun.

Import Check_Duplicates.

Context (E : env).
Implicit Types (st : state) (σ : session) (ec : gmap string string).

Lemma on_connection_checker_process_section ec url section :
  on_connection (process_section E ec url section).
Proof.
  unfold process_section. destruct (String.prefix _ _); [|apply on_connection_ret].
  unfold get_table_config, report_table. repeat on_connection_step.
  match goal with
  | |- on_connection (match ?x with _ => _ end) => destruct x as [|g rows]
  end; [repeat on_connection_step|].
  unfold print_duplicate_info, send_email, send_slack_alert. repeat on_connection_step.
  destruct (webhook E) as [status|]; repeat on_connection_step.
  destruct (decide _); repeat on_connection_step.
Qed.

(** The exit of the with block leaves no block open on the server. *)
Lemma end_block_idle s σ : s = COMMIT ∨ s = ROLLBACK → txn (exec_stmt false s σ).1 = Idle.
Proof. intros [-> | ->]; by destruct σ as [c [|snap|snap]]. Qed.

(** The try statement of get_duplicates_and_alert: its except block makes
    it end normally in every case. *)
Lemma checker_run_cases st ec url :
  section_options (read_ini E "/r_emailConfig.ini") "email_config" = Some ec →
  ec !! "slack_webhook_url" = Some url →
  ∃ st',
    get_duplicates_and_alert E st = (inr tt, st') ∧
    (((connect_ok E = true ∧
       is_Some (section_options (read_ini E "/r_duplicates.ini") "yoda_r_lake")) ∧
      (∃ evs, Forall table_event evs ∧
              (trace st' = ConnCommit :: evs ++ Connect :: trace st
               ∨ ∃ e, trace st'
                      = Log ("Fetching duplicates from Redshift failed with error: " +:+ str e)
                          :: ConnRollback :: evs ++ Connect :: trace st)) ∧
      txn (db st') = Idle ∧ conn st' = true)
     ∨ (¬ (connect_ok E = true ∧
           is_Some (section_options (read_ini E "/r_duplicates.ini") "yoda_r_lake")) ∧
        (∃ e, trace st'
              = Log ("Fetching duplicates from Redshift failed with error: " +:+ str e)
                  :: trace st) ∧
        db st' = db st ∧ conn st' = conn st)).
Proof.
  intros Hec Hurl. destruct st as [σ a cn n tr].
  unfold get_duplicates_and_alert, server_config. rewrite Hec.
  erewrite bind_inr by reflexivity. unfold getitem. rewrite Hurl.
  erewrite bind_inr by reflexivity. unfold try_except at 1.
  destruct (section_options _ "yoda_r_lake") as [lake|] eqn:Hlake; last first.
  { erewrite bind_inl by reflexivity. eexists. split; [reflexivity|]. right.
    split; [by intros (_ & [? [=]])|]. cbn [trace db conn add_events]. eauto. }
  erewrite bind_inr by reflexivity. unfold with_connection, pg_connect.
  destruct (connect_ok E) eqn:Hc; last first.
  { erewrite bind_inl by reflexivity. eexists. split; [reflexivity|]. right.
    split; [by intros ([=] & _)|]. cbn [trace db conn add_events]. eauto. }
  erewrite bind_inr by reflexivity. cbn [db calls trace].
  unfold try_except.
  match goal with
  | |- context [(for_each ?xs ?body ≫= _) ?S] =>
      destruct (on_connection_for_each xs body
                  (on_connection_checker_process_section ec url) S)
        as (_ & Hconn & evs & Ht & Hevs);
      destruct (for_each xs body S) as [[e|[]] st2] eqn:Hloop
  end; simpl in Hconn, Ht.
  - erewrite bind_inl by exact Hloop.
    unfold end_block, raise, log_to_file, emit, add_events, mbind, M_bind.
    cbn [db autocommit conn calls trace].
    eexists. split; [reflexivity|]. left. split; [eauto|].
    cbn [db txn conn trace]. split_and!.
    + exists evs. split; [done|]. right. exists e. by rewrite Ht.
    + apply end_block_idle. by right.
    + done.
  - erewrite bind_inr by exact Hloop. unfold end_block.
    eexists. split; [reflexivity|]. left. split; [eauto|].
    cbn [db txn conn trace]. split_and!.
    + exists evs. split; [done|]. left. by rewrite Ht.
    + apply end_block_idle. by left.
    + done.
Qed.

(** X6.  get_duplicates_and_alert reads the email configuration before its
    try statement.  When server_config raises for the section email_config
    of /r_emailConfig.ini, or the section it returns has no option
    slack_webhook_url, the function ends with an exception and has done
    nothing: no line is logged, no connection is opened and no table is
    checked. *)
Theorem checker_raises_without_email_config st :
  (∃ e s, server_config E "/r_emailConfig.ini" "email_config" st = (inl e, s))
  ∨ (∃ ec s, server_config E "/r_emailConfig.ini" "email_config" st = (inr ec, s) ∧
             ec !! "slack_webhook_url" = None) →
  ∃ e, get_duplicates_and_alert E st = (inl e, st).
Proof.
  intros [(e & s & He)|(ec & s & Hec & Hurl)].
  - assert (s = st) as ->.
    { unfold server_config in He. destruct (section_options _ _); [done|].
      by injection He as _ <-. }
    exists e. unfold get_duplicates_and_alert. erewrite bind_inl by exact He. reflexivity.
  - assert (s = st) as ->.
    { unfold server_config in Hec. destruct (section_options _ _); [|done].
      by injection Hec as _ <-. }
    exists (KeyError "slack_webhook_url"). unfold get_duplicates_and_alert.
    erewrite bind_inr by exact Hec. unfold getitem. rewrite Hurl. reflexivity.
Qed.

(** X7.  A run of the checker that has its email configuration.  When
    /r_duplicates.ini has the section yoda_r_lake and the server accepts the
    connection, the with block ends in exactly one of two ways: the loop
    ended normally and the block is committed, or an exception left the
    loop, the block is rolled back and the exception is logged.  Either way
    no block stays open on the server and the connection is never closed.
    Otherwise the failure is logged and nothing else happens. *)
Theorem checker_block_is_committed_or_rolled_back st ec url :
  section_options (read_ini E "/r_emailConfig.ini") "email_config" = Some ec →
  ec !! "slack_webhook_url" = Some url →
  ∃ st' new,
    get_duplicates_and_alert E st = (inr tt, st') ∧
    trace st' = new ++ trace st ∧ (Close ∉ new) ∧
    if decide (connect_ok E = true ∧
               is_Some (section_options (read_ini E "/r_duplicates.ini") "yoda_r_lake"))
    then (∃ evs, Forall table_event evs ∧
                 (new = ConnCommit :: evs ++ [Connect]
                  ∨ ∃ e, new = Log ("Fetching duplicates from Redshift failed with error: "
                                      +:+ str e)
                                 :: ConnRollback :: evs ++ [Connect])) ∧
         txn (db st') = Idle
    else (∃ e, new = [Log ("Fetching duplicates from Redshift failed with error: " +:+ str e)]) ∧
         db st' = db st.
Proof.
  intros Hec Hurl.
  destruct (checker_run_cases st ec url Hec Hurl)
    as (st' & Hrun & [(Hc & (evs & Hevs & Ht) & Htxn & _)|(Hn & (e & Ht) & Hdb & _)]).
  - assert (Hclose : Close ∉ evs ++ [Connect]).
    { intros [Hin|Hin]%elem_of_app.
      - by apply (proj1 (Forall_forall _ _) Hevs) in Hin.
      - by apply list_elem_of_singleton in Hin. }
    destruct Ht as [Ht|[e Ht]].
    + exists st', (ConnCommit :: evs ++ [Connect]). split; [done|]. split_and!.
      * rewrite Ht. cbn [app]. by rewrite <- app_assoc.
      * intros Hin. apply elem_of_cons in Hin as [Heq|Hin]; [discriminate Heq|done].
      * rewrite decide_True by done. split; [|done]. exists evs. eauto.
    + eexists st', (_ :: ConnRollback :: evs ++ [Connect]). split; [done|]. split_and!.
      * rewrite Ht. cbn [app]. by rewrite <- app_assoc.
      * intros Hin. apply elem_of_cons in Hin as [Heq|Hin]; [discriminate Heq|].
        apply elem_of_cons in Hin as [Heq|Hin]; [discriminate Heq|done].
      * rewrite decide_True by done. split; [|done]. exists evs. eauto.
  - eexists st', [_]. split; [done|]. split_and!.
    + exact Ht.
    + intros Hin. apply list_elem_of_singleton in Hin. discriminate Hin.
    + rewrite decide_False by done. eauto.
Qed.

End CheckerRun.

Section CheckerRunOnSample.

Import Check_Duplicates Sample.

Lemma checker_block_is_committed_or_rolled_back_witness :
  ∃ st' new,
    get_duplicates_and_alert (installation no_faults) (start warehouse false) = (inr tt, st') ∧
    trace st' = new ++ trace (start warehouse false) ∧ (Close ∉ new) ∧
    if decide (connect_ok (installation no_faults) = true ∧
               is_Some (section_options (read_ini (installation no_faults) "/r_duplicates.ini")
                          "yoda_r_lake"))
    then (∃ evs, Forall table_event evs ∧
                 (new = ConnCommit :: evs ++ [Connect]
                  ∨ ∃ e, new = Log ("Fetching duplicates from Redshift failed with error: "
                                      +:+ str e)
                                 :: ConnRollback :: evs ++ [Connect])) ∧
         txn (db st') = Idle
    else (∃ e, new = [Log ("Fetching duplicates from Redshift failed with error: " +:+ str e)]) ∧
         db st' = db (start warehouse false).
Proof.
  apply (checker_block_is_committed_or_rolled_back (installation no_faults)
           (start warehouse false) email_config "hook").
  - reflexivity.
  - vm_compute. reflexivity.
Defined.

Lemma checker_raises_without_email_config_witness :
  ∃ e, get_duplicates_and_alert (mail_only_installation no_faults) (start warehouse false)
       = (inl e, start warehouse false).
Proof.
  apply (checker_raises_without_email_config (mail_only_installation no_faults)
           (start warehouse false)).
  right. eexists _, _. split; reflexivity.
Defined.

End CheckerRunOnSample.

(** * Where a failing removal stops *)

Section StepFailures.

Import Remove_Duplicates.

Context (E : env).
Implicit Types (st : state) (c : catalog) (r d : relation) (t k : string).

(** A block whose statements run fails only where a failure is injected. *)
Lemma block_call_hit script body c c' cn n tr :
  script = BEGIN :: body ++ [COMMIT] → Forall is_data body → run_block body c = inr c' →
  ¬ no_hit (faults E n script) (S (S (length body))) →
  ∃ e σ, cur_execute E script
           {| db := {| cat := c; txn := Idle |}; autocommit := true; conn := cn;
              calls := n; trace := tr |}
         = (inl (DatabaseError e),
            {| db := σ; autocommit := true; conn := cn;
               calls := S n; trace := Execute n script (Some e) :: tr |}) ∧
         durable σ = c ∧ (exec_stmt false ROLLBACK σ).1 = {| cat := c; txn := Idle |}.
Proof.
  intros Hs Hdata Hrun Hhit.
  destruct (block_call E script body c cn n tr Hs Hdata)
    as [(c'' & _ & Hn & _)|(e & σ & Hcall & Hd & Hr)]; [done|eauto].
Qed.

(** A block with a statement that cannot run fails. *)
Lemma block_call_error script body c e0 cn n tr :
  script = BEGIN :: body ++ [COMMIT] → Forall is_data body → run_block body c = inl e0 →
  ∃ e σ, cur_execute E script
           {| db := {| cat := c; txn := Idle |}; autocommit := true; conn := cn;
              calls := n; trace := tr |}
         = (inl (DatabaseError e),
            {| db := σ; autocommit := true; conn := cn;
               calls := S n; trace := Execute n script (Some e) :: tr |}) ∧
         durable σ = c ∧ (exec_stmt false ROLLBACK σ).1 = {| cat := c; txn := Idle |}.
Proof.
  intros Hs Hdata Hrun.
  destruct (block_call E script body c cn n tr Hs Hdata)
    as [(c'' & Hok & _)|(e & σ & Hcall & Hd & Hr)]; [congruence|eauto].
Qed.

(** X8.  When the side table of a table exists already, left behind by an
    earlier run that failed, step 1 fails: the remover sends the ROLLBACK
    and nothing else, so the catalog is as before, duplicates included.
    Without an injected failure the error is that of the existing side table. *)
Theorem leftover_side_table_blocks_removal st c r d t k :
  autocommit st = true → db st = {| cat := c; txn := Idle |} →
  c !! t = Some r → ordinary r → c !! side_table t = Some d →
  ∃ res st' e o,
    remove_duplicates_from_table E t k st = (res, st') ∧
    Execute (calls st) (step1_sql t k) (Some e) ∈ trace st' ∧
    Execute (1 + calls st) [ROLLBACK] o ∈ trace st' ∧
    calls st' = (2 + calls st)%nat ∧
    durable (db st') = c ∧
    (faults E (calls st) (step1_sql t k) = None → e = DuplicateTable (side_table t)) ∧
    (o = None → res = inr tt ∧ db st' = {| cat := c; txn := Idle |}).
Proof.
  intros Ha Hdb Ht [Ho1 Ho2] Hs.
  destruct st as [σ a cn n tr]. simpl in Ha, Hdb. subst σ a. cbn [calls].
  unfold remove_duplicates_from_table.
  assert (Hsteps : ∃ e σ,
    remove_steps E t k
      {| db := {| cat := c; txn := Idle |}; autocommit := true; conn := cn;
         calls := n; trace := tr |}
    = (inl (DatabaseError e),
       {| db := σ; autocommit := true; conn := cn; calls := S n;
          trace := Execute n (step1_sql t k) (Some e) :: tr |}) ∧
    durable σ = c ∧ (exec_stmt false ROLLBACK σ).1 = {| cat := c; txn := Idle |} ∧
    (faults E n (step1_sql t k) = None → e = DuplicateTable (side_table t))).
  { unfold remove_steps.
    destruct (block_call_error (step1_sql t k) [SELECT_INTO_DUPLICATES k t (side_table t)]
                c (DuplicateTable (side_table t)) cn n tr eq_refl ltac:(repeat constructor))
      as (e & σ & Hcall & Hd & Hr).
    { simpl. rewrite Ht, !decide_False, Hs by done. done. }
    erewrite bind_inl by exact Hcall. exists e, σ. split_and!; [done..|].
    intros Hf. revert Hcall. unfold cur_execute, step1_sql. cbn [autocommit db calls].
    unfold step1_sql in Hf. rewrite Hf. cbn [exec_script bool_decide decide_rel].
    rewrite bool_decide_eq_false_2 by done. unfold exec_stmt, fail_stmt.
    cbn [txn cat run_stmt]. rewrite Ht, !decide_False, Hs by done.
    by intros [= <- _]. }
  destruct Hsteps as (e & σ & Hrun & Hd & Hr & He).
  erewrite try_except_inl by exact Hrun.
  destruct (remove_failed_result E t (DatabaseError e) σ c cn (S n)
              (Execute n (step1_sql t k) (Some e) :: tr) Hd Hr)
    as (res & σ' & o & evs & Hfail & Hin & Hd' & _ & Hok).
  rewrite Hfail. eexists res, _, e, o. split; [reflexivity|].
  cbn [trace db calls]. split_and!; try done.
  - apply elem_of_app. right. left.
  - apply elem_of_app. by left.
Qed.

(** The first two steps, when nothing fails in them. *)
Lemma remove_steps_staged_and_deleted c r t k cn n tr (rest : M unit) :
  c !! t = Some r → ordinary r → c !! side_table t = None →
  no_hit (faults E n (step1_sql t k)) 3 →
  no_hit (faults E (S n) (step2_sql t k)) 3 →
  (_ ← cur_execute E (step1_sql t k);
   _ ← log_to_file ("Step 1: Duplicates inserted into temporary table for " +:+ t +:+ ".");
   _ ← cur_execute E (step2_sql t k);
   _ ← log_to_file ("Step 2: Duplicates removed from " +:+ t +:+ ".");
   rest)
    {| db := {| cat := c; txn := Idle |}; autocommit := true; conn := cn;
       calls := n; trace := tr |}
  = rest
      {| db := {| cat := <[t := {| header := header r;
                                   tuples := delete_using (tuples r) (staged (tuples r)) |}]>
                          (<[side_table t := staged_relation r]> c);
                  txn := Idle |};
         autocommit := true; conn := cn; calls := S (S n);
         trace := Log ("Step 2: Duplicates removed from " +:+ t +:+ ".")
                  :: Execute (S n) (step2_sql t k) None
                  :: Log ("Step 1: Duplicates inserted into temporary table for " +:+ t +:+ ".")
                  :: Execute n (step1_sql t k) None :: tr |}.
Proof.
  intros Ht Hord Hs Hn1 Hn2. pose proof (side_table_ne t) as Hne.
  set (c1 := <[side_table t := staged_relation r]> c).
  erewrite bind_inr; last first.
  { apply (cur_execute_block_ok E _ [SELECT_INTO_DUPLICATES k t (side_table t)] c);
      [done | done | repeat constructor | by apply step1_block | done]. }
  fold c1. norm_state. erewrite bind_inr by reflexivity. norm_state.
  erewrite bind_inr; last first.
  { apply (cur_execute_block_ok E _ [DELETE_USING t (side_table t) k] c1);
      [done | done | repeat constructor | | done].
    apply (step2_block c1 t k r); unfold c1; by simplify_map_eq. }
  norm_state. erewrite bind_inr by reflexivity. norm_state. reflexivity.
Qed.

(** X9.  Steps 1 and 2 succeed and step 3 fails: the delete of step 2 is
    committed, so after the ROLLBACK the main table holds the rows whose
    key was not shared and the rows whose key is NULL, which the delete
    never takes; no row of a shared key other than NULL is left in it.
    The rows kept for those keys are in the side table only, which still
    has its two bookkeeping columns. *)
Theorem reinsert_failure_leaves_shared_keys_out st c r t k :
  autocommit st = true → db st = {| cat := c; txn := Idle |} →
  c !! t = Some r → ordinary r → c !! side_table t = None →
  no_hit (faults E (calls st) (step1_sql t k)) 3 →
  no_hit (faults E (1 + calls st) (step2_sql t k)) 3 →
  ¬ no_hit (faults E (2 + calls st) (step3_sql t)) 5 →
  ∃ res st' e o r',
    remove_duplicates_from_table E t k st = (res, st') ∧
    Execute (2 + calls st) (step3_sql t) (Some e) ∈ trace st' ∧
    Execute (3 + calls st) [ROLLBACK] o ∈ trace st' ∧
    durable (db st') !! t = Some r' ∧
    tuples r' = filter (λ x, (count_key (tkey x) (tuples r) ≤ 1)%nat ∨ tkey x = None)
                  (tuples r) ∧
    (∀ z : Z, (1 < count_key (Some z) (tuples r))%nat →
              count_key (Some z) (tuples r') = 0%nat) ∧
    count_key None (tuples r') = count_key None (tuples r) ∧
    durable (db st') !! side_table t = Some (staged_relation r) ∧
    (o = None → res = inr tt).
Proof.
  intros Ha Hdb Ht Hord Hs Hn1 Hn2 Hn3. pose proof (side_table_ne t) as Hne.
  destruct st as [σ a cn n tr]. simpl in Ha, Hdb, Hn1, Hn2, Hn3. subst σ a. cbn [calls].
  set (r2 := {| header := header r; tuples := delete_using (tuples r) (staged (tuples r)) |}).
  set (c2 := <[t := r2]> (<[side_table t := staged_relation r]> c)).
  unfold remove_duplicates_from_table.
  assert (Hsteps : ∃ e σ tr',
    remove_steps E t k
      {| db := {| cat := c; txn := Idle |}; autocommit := true; conn := cn;
         calls := n; trace := tr |}
    = (inl (DatabaseError e),
       {| db := σ; autocommit := true; conn := cn; calls := S (S (S n));
          trace := Execute (S (S n)) (step3_sql t) (Some e) :: tr' |}) ∧
    durable σ = c2 ∧ (exec_stmt false ROLLBACK σ).1 = {| cat := c2; txn := Idle |}).
  { unfold remove_steps. rewrite (remove_steps_staged_and_deleted c r t k) by done. fold r2 c2.
    assert (H2t : c2 !! t = Some r2) by (unfold c2; by simplify_map_eq).
    assert (H2s : c2 !! side_table t = Some (staged_relation r))
      by (unfold c2; by simplify_map_eq).
    pose proof (step3_block c2 t r r2 H2t H2s eq_refl) as Hb3.
    match goal with
    | |- context [(cur_execute E (step3_sql t) ≫= _)
                    {| db := _; autocommit := _; conn := _; calls := _; trace := ?tr' |}] =>
        destruct (block_call_hit (step3_sql t)
                    [ALTER_TABLE_DROP_COLUMN (side_table t) "total_duplicates";
                     ALTER_TABLE_DROP_COLUMN (side_table t) "duplicate_rn";
                     INSERT_INTO_SELECT t (side_table t)] c2 _ cn (S (S n)) tr'
                    eq_refl ltac:(repeat constructor) Hb3 Hn3)
          as (e & σ & Hcall & Hd & Hr)
    end.
    erewrite bind_inl by exact Hcall. eexists _, _, _. split; [reflexivity|]. done. }
  destruct Hsteps as (e & σ & tr' & Hrun & Hd & Hr).
  erewrite try_except_inl by exact Hrun.
  destruct (remove_failed_result E t (DatabaseError e) σ c2 cn (S (S (S n)))
              (Execute (S (S n)) (step3_sql t) (Some e) :: tr') Hd Hr)
    as (res & σ' & o & evs & Hfail & Hin & Hd' & _ & Hok).
  rewrite Hfail. eexists res, _, e, o, r2. split; [reflexivity|].
  cbn [trace db]. split_and!.
  - apply elem_of_app. right. left.
  - apply elem_of_app. by left.
  - rewrite Hd'. unfold c2. apply lookup_insert_eq.
  - apply delete_using_staged.
  - intros z Hkey. unfold r2. cbn [tuples]. rewrite delete_using_staged.
    pose proof (count_key_filter (λ key, (count_key key (tuples r) ≤ 1)%nat ∨ key = None)
                  (Some z) (tuples r)) as Hf.
    simpl in Hf. rewrite Hf. rewrite decide_False; [done|]. intros [?|?]; [lia|done].
  - unfold r2. cbn [tuples]. rewrite delete_using_staged.
    pose proof (count_key_filter (λ key, (count_key key (tuples r) ≤ 1)%nat ∨ key = None)
                  None (tuples r)) as Hf.
    simpl in Hf. rewrite Hf. by rewrite decide_True by (by right).
  - rewrite Hd'. unfold c2. rewrite lookup_insert_ne by done. apply lookup_insert_eq.
  - intros ->. by destruct (Hok eq_refl) as [-> _].
Qed.

(** X10.  Steps 1 to 3 succeed and step 4 fails: the main table is the
    deduplicated table already, and the side table stays in the catalog,
    without its bookkeeping columns. *)
Theorem drop_failure_keeps_the_side_table st c r t k :
  autocommit st = true → db st = {| cat := c; txn := Idle |} →
  c !! t = Some r → ordinary r → c !! side_table t = None →
  no_hit (faults E (calls st) (step1_sql t k)) 3 →
  no_hit (faults E (1 + calls st) (step2_sql t k)) 3 →
  no_hit (faults E (2 + calls st) (step3_sql t)) 5 →
  ¬ no_hit (faults E (3 + calls st) (step4_sql t)) 3 →
  ∃ res st' e o,
    remove_duplicates_from_table E t k st = (res, st') ∧
    Execute (3 + calls st) (step4_sql t) (Some e) ∈ trace st' ∧
    Execute (4 + calls st) [ROLLBACK] o ∈ trace st' ∧
    durable (db st') !! t = Some (deduplicated_relation r) ∧
    durable (db st') !! side_table t
    = Some {| header := header r; tuples := map unstage (staged (tuples r)) |} ∧
    (o = None → res = inr tt).
Proof.
  intros Ha Hdb Ht Hord Hs Hn1 Hn2 Hn3 Hn4. pose proof (side_table_ne t) as Hne.
  destruct st as [σ a cn n tr]. simpl in Ha, Hdb, Hn1, Hn2, Hn3, Hn4. subst σ a. cbn [calls].
  set (r2 := {| header := header r; tuples := delete_using (tuples r) (staged (tuples r)) |}).
  set (c2 := <[t := r2]> (<[side_table t := staged_relation r]> c)).
  set (d3 := {| header := header r; tuples := map unstage (staged (tuples r)) |}).
  set (c3 := <[t := deduplicated_relation r]> (<[side_table t := d3]> c2)).
  unfold remove_duplicates_from_table.
  assert (Hsteps : ∃ e σ tr',
    remove_steps E t k
      {| db := {| cat := c; txn := Idle |}; autocommit := true; conn := cn;
         calls := n; trace := tr |}
    = (inl (DatabaseError e),
       {| db := σ; autocommit := true; conn := cn; calls := S (S (S (S n)));
          trace := Execute (S (S (S n))) (step4_sql t) (Some e) :: tr' |}) ∧
    durable σ = c3 ∧ (exec_stmt false ROLLBACK σ).1 = {| cat := c3; txn := Idle |}).
  { unfold remove_steps. rewrite (remove_steps_staged_and_deleted c r t k) by done.
    fold r2 c2.
    assert (H2t : c2 !! t = Some r2) by (unfold c2; by simplify_map_eq).
    assert (H2s : c2 !! side_table t = Some (staged_relation r))
      by (unfold c2; by simplify_map_eq).
    pose proof (step3_block c2 t r r2 H2t H2s eq_refl) as Hb3.
    change (run_block
              [ALTER_TABLE_DROP_COLUMN (side_table t) "total_duplicates";
               ALTER_TABLE_DROP_COLUMN (side_table t) "duplicate_rn";
               INSERT_INTO_SELECT t (side_table t)] c2 = inr c3) in Hb3.
    erewrite bind_inr; last first.
    { apply (cur_execute_block_ok E _
               [ALTER_TABLE_DROP_COLUMN (side_table t) "total_duplicates";
                ALTER_TABLE_DROP_COLUMN (side_table t) "duplicate_rn";
                INSERT_INTO_SELECT t (side_table t)] c2 c3);
        [done | done | repeat constructor | exact Hb3 | done]. }
    norm_state. erewrite bind_inr by reflexivity. norm_state.
    assert (Hb4 : run_block [DROP_TABLE (side_table t)] c3 = inr (delete (side_table t) c3)).
    { apply (step4_block c3 t d3). unfold c3. by simplify_map_eq. }
    match goal with
    | |- context [(cur_execute E (step4_sql t) ≫= _)
                    {| db := _; autocommit := _; conn := _; calls := _; trace := ?tr' |}] =>
        destruct (block_call_hit (step4_sql t) [DROP_TABLE (side_table t)] c3 _ cn
                    (S (S (S n))) tr' eq_refl ltac:(repeat constructor) Hb4 Hn4)
          as (e & σ & Hcall & Hd & Hr)
    end.
    erewrite bind_inl by exact Hcall. eexists _, _, _. split; [reflexivity|]. done. }
  destruct Hsteps as (e & σ & tr' & Hrun & Hd & Hr).
  erewrite try_except_inl by exact Hrun.
  destruct (remove_failed_result E t (DatabaseError e) σ c3 cn (S (S (S (S n))))
              (Execute (S (S (S n))) (step4_sql t) (Some e) :: tr') Hd Hr)
    as (res & σ' & o & evs & Hfail & Hin & Hd' & _ & Hok).
  rewrite Hfail. eexists res, _, e, o. split; [reflexivity|].
  cbn [trace db]. split_and!.
  - apply elem_of_app. right. left.
  - apply elem_of_app. by left.
  - rewrite Hd'. unfold c3. apply lookup_insert_eq.
  - rewrite Hd'. unfold c3. rewrite lookup_insert_ne by done. apply lookup_insert_eq.
  - intros ->. by destruct (Hok eq_refl) as [-> _].
Qed.

End StepFailures.

Section StepFailuresOnSample.

Import Remove_Duplicates Sample.

Lemma leftover_side_table_blocks_removal_witness :
  let c : catalog := <[side_table "sales.orders" := plain []]> warehouse in
  let st := start c true in
  ∃ res st' e o,
    remove_duplicates_from_table (installation no_faults) "sales.orders" "order_id" st
    = (res, st') ∧
    Execute (calls st) (step1_sql "sales.orders" "order_id") (Some e) ∈ trace st' ∧
    Execute (1 + calls st) [ROLLBACK] o ∈ trace st' ∧
    calls st' = (2 + calls st)%nat ∧
    durable (db st') = c ∧
    (faults (installation no_faults) (calls st) (step1_sql "sales.orders" "order_id") = None →
     e = DuplicateTable (side_table "sales.orders")) ∧
    (o = None → res = inr tt ∧ db st' = {| cat := c; txn := Idle |}).
Proof.
  intros c st.
  apply (leftover_side_table_blocks_removal (installation no_faults) st c
           (plain order_rows) (plain []) "sales.orders" "order_id").
  - reflexivity.
  - reflexivity.
  - vm_compute. reflexivity.
  - apply ordinary_plain.
  - vm_compute. reflexivity.
Defined.

Lemma reinsert_failure_leaves_shared_keys_out_witness :
  let st := start warehouse true in
  ∃ res st' e o r',
    remove_duplicates_from_table (installation (fails_at 2 1)) "sales.orders" "order_id" st
    = (res, st') ∧
    Execute (2 + calls st) (step3_sql "sales.orders") (Some e) ∈ trace st' ∧
    Execute (3 + calls st) [ROLLBACK] o ∈ trace st' ∧
    durable (db st') !! "sales.orders" = Some r' ∧
    tuples r' = filter (λ x, (count_key (tkey x) (tuples (plain order_rows)) ≤ 1)%nat
                             ∨ tkey x = None)
                  (tuples (plain order_rows)) ∧
    (∀ z : Z, (1 < count_key (Some z) (tuples (plain order_rows)))%nat →
              count_key (Some z) (tuples r') = 0%nat) ∧
    count_key None (tuples r') = count_key None (tuples (plain order_rows)) ∧
    durable (db st') !! side_table "sales.orders" = Some (staged_relation (plain order_rows)) ∧
    (o = None → res = inr tt).
Proof.
  intros st.
  apply (reinsert_failure_leaves_shared_keys_out (installation (fails_at 2 1)) st warehouse
           (plain order_rows) "sales.orders" "order_id").
  - reflexivity.
  - reflexivity.
  - vm_compute. reflexivity.
  - apply ordinary_plain.
  - vm_compute. reflexivity.
  - simpl. exact I.
  - simpl. exact I.
  - simpl. lia.
Defined.

Lemma drop_failure_keeps_the_side_table_witness :
  let st := start warehouse true in
  ∃ res st' e o,
    remove_duplicates_from_table (installation (fails_at 3 1)) "sales.orders" "order_id" st
    = (res, st') ∧
    Execute (3 + calls st) (step4_sql "sales.orders") (Some e) ∈ trace st' ∧
    Execute (4 + calls st) [ROLLBACK] o ∈ trace st' ∧
    durable (db st') !! "sales.orders" = Some (deduplicated_relation (plain order_rows)) ∧
    durable (db st') !! side_table "sales.orders"
    = Some {| header := header (plain order_rows);
              tuples := map unstage (staged (tuples (plain order_rows))) |} ∧
    (o = None → res = inr tt).
Proof.
  intros st.
  apply (drop_failure_keeps_the_side_table (installation (fails_at 3 1)) st warehouse
           (plain order_rows) "sales.orders" "order_id").
  - reflexivity.
  - reflexivity.
  - vm_compute. reflexivity.
  - apply ordinary_plain.
  - vm_compute. reflexivity.
  - simpl. exact I.
  - simpl. exact I.
  - simpl. exact I.
  - simpl. lia.
Defined.

End StepFailuresOnSample.

(** * The key after a removal *)

Section UniqueKey.

Import Remove_Duplicates.

Implicit Types (ts l : list tuple) (x y : tuple) (key : value).

Lemma elem_of_keys key l : key ∈ map tkey l ↔ (0 < count_key key l)%nat.
Proof.
  rewrite count_key_pos, Exists_exists, list_elem_of_fmap. split.
  - intros (x & -> & Hx). eauto.
  - intros (x & Hx & <-). eauto.
Qed.

Lemma NoDup_keys l : (∀ key, (count_key key l ≤ 1)%nat) → NoDup (map tkey l).
Proof.
  induction l as [|x l IH]; intros Hc; [constructor|]. cbn [map]. apply NoDup_cons. split.
  - rewrite elem_of_keys. specialize (Hc (tkey x)). rewrite count_key_cons in Hc.
    rewrite decide_True in Hc by done. lia.
  - apply IH. intros key. specialize (Hc key). rewrite count_key_cons in Hc. lia.
Qed.

Lemma keys_deduplicated key ts : key ∈ map tkey (deduplicated ts) ↔ key ∈ map tkey ts.
Proof.
  rewrite !elem_of_keys. destruct key as [z|].
  - rewrite count_key_deduplicated. lia.
  - rewrite count_null_deduplicated. destruct (decide _); lia.
Qed.

Lemma count_key_deduplicated_le key ts :
  (count_key None ts ≤ 1)%nat → (count_key key (deduplicated ts) ≤ 1)%nat.
Proof.
  intros Hnull. destruct key as [z|].
  - rewrite count_key_deduplicated. lia.
  - rewrite count_null_deduplicated, decide_False by lia. done.
Qed.

Lemma length_deduplicated ts :
  (count_key None ts ≤ 1)%nat →
  length (deduplicated ts) = length (remove_dups (map tkey ts)).
Proof.
  intros Hnull. rewrite <- (length_map tkey (deduplicated ts)). apply Permutation_length.
  apply NoDup_Permutation.
  - apply NoDup_keys. intros key. by apply count_key_deduplicated_le.
  - apply NoDup_remove_dups.
  - intros key. rewrite keys_deduplicated. by rewrite elem_of_remove_dups.
Qed.

Lemma deduplicated_earliest x ts :
  x ∈ deduplicated ts → tkey x ≠ None → x ∈ ts ∧ earliest x ts.
Proof.
  intros Hx Hk. pose proof (deduplicated_subset x ts Hx) as Hin.
  destruct (decide (1 < count_key (tkey x) ts)%nat) as [Hs|Hs].
  - by apply deduplicated_shared.
  - split; [done|]. apply Forall_forall. intros y Hy Hyk.
    assert (Hsame : y ∈ filter (λ t, tkey t = tkey x) ts ∧ x ∈ filter (λ t, tkey t = tkey x) ts)
      by (rewrite !list_elem_of_filter; done).
    unfold count_key in Hs.
    destruct (filter (λ t, tkey t = tkey x) ts) as [|a [|b l]]; simpl in Hs; [| |lia].
    + destruct Hsame as [H _]. by apply elem_of_nil in H.
    + destruct Hsame as [H1 H2]. apply list_elem_of_singleton in H1, H2. subst.
      apply value_le_refl.
Qed.

Context (E : env).

(** X11.  After the four steps have run on a table, no two of its rows
    have the same unique_key value other than NULL.  The table has the key
    values it had before, and every row in it is a row it had before; a row
    whose key is not NULL has the lowest dateCreated among the rows of its
    key.  When at most one row had a NULL key, the unique_key column is a
    key of the table, which has one row for each key value it had. *)
Theorem removal_makes_the_key_unique st c r t k :
  autocommit st = true → db st = {| cat := c; txn := Idle |} →
  c !! t = Some r → ordinary r → c !! side_table t = None →
  quiet (faults E) (calls st) 4 →
  ∃ st' r',
    remove_duplicates_from_table E t k st = (inr tt, st') ∧
    cat (db st') !! t = Some r' ∧
    (∀ z : Z, (count_key (Some z) (tuples r') ≤ 1)%nat) ∧
    (∀ key, key ∈ map tkey (tuples r') ↔ key ∈ map tkey (tuples r)) ∧
    (∀ x, x ∈ tuples r' → x ∈ tuples r ∧ (tkey x ≠ None → earliest x (tuples r))) ∧
    ((count_key None (tuples r) ≤ 1)%nat →
     NoDup (map tkey (tuples r')) ∧
     length (tuples r') = length (remove_dups (map tkey (tuples r)))).
Proof.
  intros Ha Hdb Ht Hord Hs Hq.
  destruct (remove_duplicates_from_table_ok E st c r t k) as (ev & Hrun & _); try done.
  eexists _, (deduplicated_relation r). split; [exact Hrun|].
  cbn [db cat deduplicated_relation tuples]. split_and!.
  - apply lookup_insert_eq.
  - intros z. rewrite count_key_deduplicated. lia.
  - intros key. apply keys_deduplicated.
  - intros x Hx. split; [by apply deduplicated_subset|].
    intros Hk. by apply deduplicated_earliest.
  - intros Hnull. split.
    + apply NoDup_keys. intros key. by apply count_key_deduplicated_le.
    + by apply length_deduplicated.
Qed.

End UniqueKey.

Section UniqueKeyOnSample.

Import Remove_Duplicates Sample.

Lemma removal_makes_the_key_unique_witness :
  ∃ st' r',
    remove_duplicates_from_table (installation no_faults) "sales.orders" "order_id"
      (start warehouse true) = (inr tt, st') ∧
    cat (db st') !! "sales.orders" = Some r' ∧
    (∀ z : Z, (count_key (Some z) (tuples r') ≤ 1)%nat) ∧
    (∀ key, key ∈ map tkey (tuples r') ↔ key ∈ map tkey (tuples (plain order_rows))) ∧
    (∀ x, x ∈ tuples r' →
          x ∈ tuples (plain order_rows) ∧
          (tkey x ≠ None → earliest x (tuples (plain order_rows)))) ∧
    ((count_key None (tuples (plain order_rows)) ≤ 1)%nat →
     NoDup (map tkey (tuples r')) ∧
     length (tuples r') = length (remove_dups (map tkey (tuples (plain order_rows))))).
Proof.
  apply (removal_makes_the_key_unique (installation no_faults) (start warehouse true)
           warehouse (plain order_rows) "sales.orders" "order_id").
  - reflexivity.
  - reflexivity.
  - vm_compute. reflexivity.
  - apply ordinary_plain.
  - vm_compute. reflexivity.
  - intros i script Hi. reflexivity.
Defined.

End UniqueKeyOnSample.

(** * Detection and removal *)

Section DetectedAndRemoved.

Import Remove_Duplicates.

Implicit Types (ts l : list tuple) (key : value).

Lemma NoDup_keys_count key l : NoDup (map tkey l) → (count_key key l ≤ 1)%nat.
Proof.
  induction l as [|x l IH]; [intros _; unfold count_key; rewrite filter_nil; simpl; lia|].
  cbn [map].
  intros [Hx Hl]%NoDup_cons. rewrite count_key_cons. specialize (IH Hl).
  destruct (decide (tkey x = key)) as [<-|]; [|lia].
  rewrite elem_of_keys in Hx. lia.
Qed.

(** A removal that finds a shared key makes the table shorter, unless
    several rows have a NULL key. *)
Lemma length_deduplicated_lt key ts :
  (count_key None ts ≤ 1)%nat →
  (1 < count_key key ts)%nat → (length (deduplicated ts) < length ts)%nat.
Proof.
  intros Hnull Hk. rewrite length_deduplicated by done. rewrite <- (length_map tkey ts).
  assert (Hsub : remove_dups (map tkey ts) ⊆+ map tkey ts).
  { apply NoDup_submseteq; [apply NoDup_remove_dups|].
    intros x. by rewrite elem_of_remove_dups. }
  destruct (decide (length (map tkey ts) ≤ length (remove_dups (map tkey ts)))%nat)
    as [Hle|]; [|lia].
  apply submseteq_length_Permutation in Hsub; [|done].
  assert (Hnd : NoDup (map tkey ts)) by (rewrite <- Hsub; apply NoDup_remove_dups).
  pose proof (NoDup_keys_count key ts Hnd). lia.
Qed.

Lemma select_duplicates_shared_key ts :
  select_duplicates ts ≠ [] → ∃ key, (1 < count_key key ts)%nat.
Proof.
  intros Hne. destruct (select_duplicates ts) as [|g gs] eqn:Hsel; [done|].
  assert (Hg : g ∈ select_duplicates ts) by (rewrite Hsel; left).
  apply elem_of_select_duplicates in Hg as [Hgt Hc]. exists (gkey g).
  pose proof (count_pair_le_key (gdate g) (gkey g) ts). lia.
Qed.

Context (E : env).

(** X12.  When the detection query of the remover reports duplicate groups
    for a table in which at most one row has a NULL key, the work on that
    table is the query and the four steps, five calls in all; afterwards
    the table is strictly shorter and the same query would report
    nothing. *)
Theorem detected_duplicates_are_removed t k c r cn n tr :
  c !! t = Some r → select_duplicates (tuples r) ≠ [] →
  (count_key None (tuples r) ≤ 1)%nat →
  ordinary r → c !! side_table t = None → quiet (faults E) n 5 →
  ∃ st' r',
    process_table E t k
      {| db := {| cat := c; txn := Idle |}; autocommit := true; conn := cn;
         calls := n; trace := tr |}
    = (inr tt, st') ∧
    calls st' = (5 + n)%nat ∧
    db st' = {| cat := <[t := r']> c; txn := Idle |} ∧
    select_duplicates (tuples r') = [] ∧
    (length (tuples r') < length (tuples r))%nat.
Proof.
  intros Ht Hsel Hnull Hord Hs Hq.
  destruct (process_table_removes E t k c r cn n tr) as (evs & Hrun); try done.
  eexists _, (deduplicated_relation r). split; [exact Hrun|].
  cbn [calls db deduplicated_relation tuples]. split_and!; [done..| |].
  - by apply select_duplicates_deduplicated.
  - destruct (select_duplicates_shared_key _ Hsel) as [key Hkey].
    by apply (length_deduplicated_lt key).
Qed.

End DetectedAndRemoved.

Section DetectedAndRemovedOnSample.

Import Remove_Duplicates Sample.

Lemma detected_duplicates_are_removed_witness :
  ∃ st' r',
    process_table (installation no_faults) "sales.orders" "order_id"
      {| db := {| cat := warehouse; txn := Idle |}; autocommit := true; conn := true;
         calls := 0; trace := [] |}
    = (inr tt, st') ∧
    calls st' = (5 + 0)%nat ∧
    db st' = {| cat := <["sales.orders" := r']> warehouse; txn := Idle |} ∧
    select_duplicates (tuples r') = [] ∧
    (length (tuples r') < length (tuples (plain order_rows)))%nat.
Proof.
  apply (detected_duplicates_are_removed (installation no_faults) "sales.orders" "order_id"
           warehouse (plain order_rows) true 0 []).
  - vm_compute. reflexivity.
  - vm_compute. discriminate.
  - vm_compute. lia.
  - apply ordinary_plain.
  - vm_compute. reflexivity.
  - intros i script Hi. reflexivity.
Defined.

End DetectedAndRemovedOnSample.

(** * The numbers of the summary *)

Section SummaryCounts.

Import Check_Duplicates.

Implicit Types (d : list (nat * list value)) (rows : list group).

Lemma setdefault_append_total c key d :
  sum_list (map (λ item : nat * list value, length item.2) (setdefault_append c key d))
  = S (sum_list (map (λ item : nat * list value, length item.2) d)).
Proof.
  induction d as [|[c' keys] d IH]; [done|]. cbn [setdefault_append].
  destruct (decide (c' = c)); cbn [map sum_list snd].
  - rewrite length_app. simpl. lia.
  - rewrite IH. lia.
Qed.

(** X13.  Every row returned by the query of the checker is counted in
    exactly one line of the summary: the numbers N of the lines
    N row(s) affected add up to the total number of rows of the email. *)
Theorem summary_counts_add_up rows :
  sum_list (map (λ item : nat * list value, length item.2) (group_duplicates rows)) = length rows.
Proof.
  induction rows as [|g rows IH] using rev_ind; [done|].
  rewrite group_duplicates_snoc, setdefault_append_total, IH, length_app. simpl. lia.
Qed.

End SummaryCounts.

(** * Sections that lack an option *)

Section IncompleteSections.

Context (E : env).
Implicit Types (st : state) (cfg : gmap string string).

Lemma for_each_app_raise {A} (pre : list A) x rest (body : A → M unit) st st1 st2 e :
  for_each pre body st = (inr tt, st1) → body x st1 = (inl e, st2) →
  for_each (pre ++ x :: rest) body st = (inl e, st2).
Proof.
  revert st. induction pre as [|y pre IH]; intros st; cbn [for_each app].
  - intros [= <-] Hx. by erewrite bind_inl.
  - unfold mbind at 1 2, M_bind. destruct (body y st) as [[e'|[]] st'] eqn:Hy; [done|].
    intros Hpre Hx. by apply IH.
Qed.

(** X14.  A yoda_hub section of r_duplicates.ini that lacks one of the
    options table, unique_key or database makes the loop of the remover
    end with the KeyError of the first option missing, in that order.  The
    state is the one the sections before it left: no statement is sent for
    this section, and none of the sections after it is looked at. *)
Theorem incomplete_section_ends_the_removal pre section rest cfg st st1 :
  String.prefix "yoda_hub" section = true →
  section_options (read_ini E "r_duplicates.ini") section = Some cfg →
  ¬ Forall (λ key, is_Some (cfg !! key)) ["table"; "unique_key"; "database"] →
  for_each pre (Remove_Duplicates.process_section E) st = (inr tt, st1) →
  ∃ before key after,
    ["table"; "unique_key"; "database"] = before ++ key :: after ∧
    Forall (λ key, is_Some (cfg !! key)) before ∧ cfg !! key = None ∧
    for_each (pre ++ section :: rest) (Remove_Duplicates.process_section E) st
    = (inl (KeyError key), st1).
Proof.
  intros Hp Hcfg Hmiss Hpre.
  assert (Hsec : ∃ before key after,
            ["table"; "unique_key"; "database"] = before ++ key :: after ∧
            Forall (λ key, is_Some (cfg !! key)) before ∧ cfg !! key = None ∧
            Remove_Duplicates.process_section E section st1 = (inl (KeyError key), st1)).
  { unfold Remove_Duplicates.process_section, server_config. rewrite Hp, Hcfg.
    erewrite bind_inr by reflexivity. unfold getitem.
    destruct (cfg !! "table") as [tn|] eqn:H1;
      [|exists [], "table", ["unique_key"; "database"]; by rewrite H1].
    erewrite bind_inr by reflexivity.
    destruct (cfg !! "unique_key") as [k|] eqn:H2;
      [|exists ["table"], "unique_key", ["database"]; rewrite H2;
        split_and!; [done| |done..]; repeat constructor; by rewrite H1].
    erewrite bind_inr by reflexivity.
    destruct (cfg !! "database") as [d|] eqn:H3;
      [|exists ["table"; "unique_key"], "database", []; rewrite H3;
        split_and!; [done| |done..]; repeat constructor; by rewrite ?H1, ?H2].
    destruct Hmiss. repeat constructor; by rewrite ?H1, ?H2, ?H3. }
  destruct Hsec as (before & key & after & Hl & Hb & Hk & Hrun).
  exists before, key, after. split_and!; [done..|].
  by apply (for_each_app_raise pre section rest _ st st1 st1).
Qed.

(** X15.  The checker reads five options of a yoda_hub section before it
    sends the query: unique_key, database, table, host, replication_task.
    When one is missing, be it one that only the text of the alert needs,
    the loop ends with the KeyError of the first one missing; no query is
    sent for this section and none of the sections after it is looked at. *)
Theorem incomplete_section_ends_the_check ec url pre section rest cfg st st1 :
  String.prefix "yoda_hub" section = true →
  section_options (read_ini E "/r_duplicates.ini") section = Some cfg →
  ¬ Forall (λ key, is_Some (cfg !! key))
      ["unique_key"; "database"; "table"; "host"; "replication_task"] →
  for_each pre (Check_Duplicates.process_section E ec url) st = (inr tt, st1) →
  ∃ before key after,
    ["unique_key"; "database"; "table"; "host"; "replication_task"] = before ++ key :: after ∧
    Forall (λ key, is_Some (cfg !! key)) before ∧ cfg !! key = None ∧
    for_each (pre ++ section :: rest) (Check_Duplicates.process_section E ec url) st
    = (inl (KeyError key), st1).
Proof.
  intros Hp Hcfg Hmiss Hpre.
  assert (Hsec : ∃ before key after,
            ["unique_key"; "database"; "table"; "host"; "replication_task"]
            = before ++ key :: after ∧
            Forall (λ key, is_Some (cfg !! key)) before ∧ cfg !! key = None ∧
            Check_Duplicates.process_section E ec url section st1 = (inl (KeyError key), st1)).
  { unfold Check_Duplicates.process_section, Check_Duplicates.get_table_config, server_config.
    rewrite Hp, Hcfg. erewrite bind_inr by reflexivity. unfold getitem.
    destruct (cfg !! "unique_key") as [k|] eqn:H1;
      [|exists [], "unique_key", ["database"; "table"; "host"; "replication_task"];
        by rewrite H1].
    erewrite bind_inr by reflexivity.
    destruct (cfg !! "database") as [d|] eqn:H2;
      [|exists ["unique_key"], "database", ["table"; "host"; "replication_task"]; rewrite H2;
        split_and!; [done| |done..]; repeat constructor; by rewrite H1].
    erewrite bind_inr by reflexivity.
    destruct (cfg !! "table") as [tn|] eqn:H3;
      [|exists ["unique_key"; "database"], "table", ["host"; "replication_task"]; rewrite H3;
        split_and!; [done| |done..]; repeat constructor; by rewrite ?H1, ?H2].
    erewrite bind_inr by reflexivity.
    destruct (cfg !! "host") as [h|] eqn:H4;
      [|exists ["unique_key"; "database"; "table"], "host", ["replication_task"]; rewrite H4;
        split_and!; [done| |done..]; repeat constructor; by rewrite ?H1, ?H2, ?H3].
    erewrite bind_inr by reflexivity.
    destruct (cfg !! "replication_task") as [task|] eqn:H5;
      [|exists ["unique_key"; "database"; "table"; "host"], "replication_task", [];
        rewrite H5; split_and!; [done| |done..]; repeat constructor;
        by rewrite ?H1, ?H2, ?H3, ?H4].
    destruct Hmiss. repeat constructor; by rewrite ?H1, ?H2, ?H3, ?H4, ?H5. }
  destruct Hsec as (before & key & after & Hl & Hb & Hk & Hrun).
  exists before, key, after. split_and!; [done..|].
  by apply (for_each_app_raise pre section rest _ st st1 st1).
Qed.

End IncompleteSections.

Section IncompleteSectionsOnSample.

Import Sample.

Lemma incomplete_section_ends_the_removal_witness :
  let cfg := delete "unique_key" orders in
  let E := {| files := list_to_map [("r_duplicates.ini", [("yoda_hub_orders", cfg);
                                                         ("yoda_hub_customers", customers)])];
              faults := no_faults; connect_ok := true; smtp_ok := true;
              webhook := Some 200%nat; now := "2024-01-01 00:00:00" |} in
  ∃ before key after,
    ["table"; "unique_key"; "database"] = before ++ key :: after ∧
    Forall (λ key, is_Some (cfg !! key)) before ∧ cfg !! key = None ∧
    for_each ([] ++ "yoda_hub_orders" :: ["yoda_hub_customers"])
      (Remove_Duplicates.process_section E) (start warehouse true)
    = (inl (KeyError key), start warehouse true).
Proof.
  intros cfg E.
  apply (incomplete_section_ends_the_removal E [] "yoda_hub_orders" ["yoda_hub_customers"]
           cfg (start warehouse true) (start warehouse true)).
  - reflexivity.
  - reflexivity.
  - intros H. apply Forall_cons in H as [_ H]. apply Forall_cons in H as [[v Hv] _].
    vm_compute in Hv. discriminate Hv.
  - reflexivity.
Defined.

Lemma incomplete_section_ends_the_check_witness :
  let cfg := delete "host" orders in
  let E := {| files := list_to_map [("/r_duplicates.ini", [("yoda_hub_orders", cfg);
                                                          ("yoda_hub_customers", customers)])];
              faults := no_faults; connect_ok := true; smtp_ok := true;
              webhook := Some 200%nat; now := "2024-01-01 00:00:00" |} in
  ∃ before key after,
    ["unique_key"; "database"; "table"; "host"; "replication_task"] = before ++ key :: after ∧
    Forall (λ key, is_Some (cfg !! key)) before ∧ cfg !! key = None ∧
    for_each ([] ++ "yoda_hub_orders" :: ["yoda_hub_customers"])
      (Check_Duplicates.process_section E email_config "hook") (start warehouse false)
    = (inl (KeyError key), start warehouse false).
Proof.
  intros cfg E.
  apply (incomplete_section_ends_the_check E email_config "hook" [] "yoda_hub_orders"
           ["yoda_hub_customers"] cfg (start warehouse false) (start warehouse false)).
  - reflexivity.
  - reflexivity.
  - intros H. do 3 apply Forall_cons in H as [_ H]. apply Forall_cons in H as [[v Hv] _].
    vm_compute in Hv. discriminate Hv.
  - reflexivity.
Defined.

End IncompleteSectionsOnSample.
